(** * Selector extraction (src/extract-selectors.ts)

    A shallow embedding of the four extractors of [extract-selectors.ts]
    and the properties of their specification.

    JavaScript strings are modelled by [string]: a sequence of code units,
    of which the embedding covers those below 256.  The three parsers the
    file imports (htmlparser2, acorn, svelte/compiler) are not part of the
    repository; each extractor takes the one it calls as an argument. *)

From Stdlib Require Import String Ascii List Bool Arith NArith ZArith Lia.
Import ListNotations.
Open Scope string_scope.

(** ** JavaScript string operations used by the extractors *)

Module JsString.

(** [WhiteSpace] and [LineTerminator] code units below 256: what [\s]
    matches and what [trim] removes. *)
Definition is_space (c : ascii) : bool :=
  let n := N_of_ascii c in
  ((9 <=? n) && (n <=? 13) || (n =? 32) || (n =? 160))%N.

(** [s.split(sep)] for a one-character string separator. *)
Fixpoint split (sep : ascii) (s : string) : list string :=
  match s with
  | "" => [""]
  | String c s' =>
      if (c =? sep)%char then "" :: split sep s'
      else match split sep s' with
           | t :: ts => String c t :: ts
           | [] => [String c ""]
           end
  end.

(** [s.split(/\s+/)]: the pieces between maximal runs of whitespace;
    a leading or trailing run leaves an empty piece. *)
Fixpoint split_ws (s : string) : list string :=
  match s with
  | "" => [""]
  | String c s' =>
      if is_space c then
        match s' with
        | String c' _ => if is_space c' then split_ws s' else "" :: split_ws s'
        | "" => "" :: split_ws s'
        end
      else match split_ws s' with
           | t :: ts => String c t :: ts
           | [] => [String c ""]
           end
  end.

(** [Boolean(s)] on a string: the empty string is the only falsy one. *)
Definition truthy (s : string) : bool :=
  match s with "" => false | _ => true end.

Fixpoint trim_start (s : string) : string :=
  match s with
  | String c s' => if is_space c then trim_start s' else s
  | "" => ""
  end.

Fixpoint trim_end (s : string) : string :=
  match s with
  | "" => ""
  | String c s' =>
      match trim_end s' with
      | "" => if is_space c then "" else String c ""
      | t => String c t
      end
  end.

Definition trim (s : string) : string := trim_end (trim_start s).

(** [toLowerCase] on code units below 256: A-Z and the Latin-1 capitals
    (U+00C0-U+00DE without U+00D7) move up by 32. *)
Definition lower_char (c : ascii) : ascii :=
  let n := N_of_ascii c in
  if ((65 <=? n) && (n <=? 90)
      || (192 <=? n) && (n <=? 222) && negb (n =? 215))%N
  then ascii_of_N (n + 32) else c.

Fixpoint toLowerCase (s : string) : string :=
  match s with
  | "" => ""
  | String c s' => String (lower_char c) (toLowerCase s')
  end.

(** [s[0] === "."] *)
Definition starts_with_dot (s : string) : bool :=
  match s with
  | String c _ => (c =? ".")%char
  | "" => false
  end.

Fixpoint drop (n : nat) (s : string) : string :=
  match n, s with
  | 0, _ => s
  | S n', String _ s' => drop n' s'
  | S _, "" => ""
  end.

Fixpoint last_char (s : string) : option ascii :=
  match s with
  | "" => None
  | String c "" => Some c
  | String _ s' => last_char s'
  end.

Fixpoint chars (s : string) : list ascii :=
  match s with
  | "" => []
  | String c s' => c :: chars s'
  end.

End JsString.

(** ** The regular expression [[\w\-:./![\]]+(?<!:)]

    Every regular expression of the file has this one pattern; the
    instances differ in the [g] flag and in the method applied. *)

Module TokenRegex.
Import JsString.

(** [\w] *)
Definition is_word (c : ascii) : bool :=
  let n := N_of_ascii c in
  ((48 <=? n) && (n <=? 57) || (65 <=? n) && (n <=? 90)
   || (97 <=? n) && (n <=? 122) || (n =? 95))%N.

(** The character class [[\w\-:./![\]]]. *)
Definition in_class (c : ascii) : bool :=
  is_word c
  || (c =? "-")%char || (c =? ":")%char || (c =? ".")%char
  || (c =? "/")%char || (c =? "!")%char || (c =? "[")%char
  || (c =? "]")%char.

(** The longest prefix made of class characters: what the greedy [+]
    takes first. *)
Fixpoint class_run (s : string) : string :=
  match s with
  | String c s' => if in_class c then String c (class_run s') else ""
  | "" => ""
  end.

(** Backtracking of [+] under the lookbehind [(?<!:)]: give characters
    back until the last one kept is not a colon. *)
Fixpoint strip_colons (r : string) : string :=
  match r with
  | "" => ""
  | String c r' =>
      match strip_colons r' with
      | "" => if (c =? ":")%char then "" else String c ""
      | t => String c t
      end
  end.

(** One attempt of the pattern at the start of [s]: the matched text. *)
Definition match_at (s : string) : option string :=
  match strip_colons (class_run s) with
  | "" => None
  | m => Some m
  end.

(** The first position of [s] at which the pattern matches, with the
    matched text. *)
Fixpoint search (s : string) : option (nat * string) :=
  match match_at s with
  | Some m => Some (0, m)
  | None =>
      match s with
      | "" => None
      | String _ s' =>
          match search s' with
          | Some (j, m) => Some (S j, m)
          | None => None
          end
      end
  end.

(** [RegExpBuiltinExec]: the match (index and text) and the value of
    [lastIndex] afterwards.  Without the [g] flag the search starts at 0
    and [lastIndex] is left alone. *)
Definition exec (global : bool) (lastIndex : nat) (s : string)
  : option (nat * string) * nat :=
  let start := if global then lastIndex else 0 in
  if (String.length s <? start)%nat then (None, if global then 0 else lastIndex)
  else
    match search (drop start s) with
    | None => (None, if global then 0 else lastIndex)
    | Some (j, m) =>
        (Some (start + j, m),
         if global then start + j + String.length m else lastIndex)
    end.

(** [re.test(s)] *)
Definition test (global : bool) (lastIndex : nat) (s : string) : bool * nat :=
  match exec global lastIndex s with
  | (Some _, li) => (true, li)
  | (None, li) => (false, li)
  end.

(** The token-shape filter of the markup and script scanners:
    [/[\w\-:./![\]]+(?<!:)/.test(selector)] on a fresh literal. *)
Definition shape_test (selector : string) : bool :=
  fst (test false 0 selector).

(** [s.match(re)] with the [g] flag: [exec] repeated from [lastIndex = 0]
    until it fails; [fuel] bounds the number of calls. *)
Fixpoint match_loop (fuel : nat) (lastIndex : nat) (s : string) : list string :=
  match fuel with
  | 0 => []
  | S fuel' =>
      match exec true lastIndex s with
      | (Some (_, m), li) => m :: match_loop fuel' li s
      | (None, _) => []
      end
  end.

(** Every match is non-empty, so [length s + 1] calls are enough
    ([match_loop_fuel] below). *)
Definition match_all (s : string) : list string :=
  match_loop (S (String.length s)) 0 s.

End TokenRegex.

(** ** The pattern, read off the regular expression

    [m] is what an attempt at the start of [s] may match: a non-empty
    prefix of [s] made of class characters, after which the lookbehind
    [(?<!:)] holds.  The greedy [+] with backtracking takes the longest. *)

Definition is_prefix (m s : string) : Prop := exists rest, s = m ++ rest.

Definition matches_prefix (s m : string) : Prop :=
  is_prefix m s
  /\ m <> ""
  /\ forallb TokenRegex.in_class (JsString.chars m) = true
  /\ JsString.last_char m <> Some ":"%char.

(** ** What the specification says of the filter *)

Module SpecFilter.
Import JsString TokenRegex.

(** The filter as the specification words it: the token matches
    [[\w\-:./![\]]+] and does not end in a colon. *)
Definition spec_shape_filter (t : string) : bool :=
  truthy t && forallb in_class (chars t)
  && match last_char t with Some c => negb (c =? ":")%char | None => false end.

End SpecFilter.

(** ** Sets, maps and exceptions *)

Module Collections.

(** A JavaScript [Set] of strings, in insertion order. *)
Definition JsSet := list string.

Definition set_has (s : JsSet) (x : string) : bool := existsb (String.eqb x) s.

Definition set_add (s : JsSet) (x : string) : JsSet :=
  if set_has s x then s else (s ++ [x])%list.

(** A JavaScript [Map] with string keys, in insertion order: [set] on a
    key already present replaces the value where the key stands. *)
Definition JsMap (V : Type) := list (string * V).

Fixpoint map_set {V} (m : JsMap V) (k : string) (v : V) : JsMap V :=
  match m with
  | [] => [(k, v)]
  | (k', v') :: m' =>
      if String.eqb k' k then (k, v) :: m' else (k', v') :: map_set m' k v
  end.

Fixpoint map_get {V} (m : JsMap V) (k : string) : option V :=
  match m with
  | [] => None
  | (k', v') :: m' => if String.eqb k' k then Some v' else map_get m' k
  end.

(** [Array.prototype.includes] on an array of strings. *)
Definition includes (l : list string) (x : string) : bool :=
  existsb (String.eqb x) l.

End Collections.

Module Exceptions.

Inductive Error := ParseError | TypeError.

(** The outcome of a call: a value, or an exception that nothing in the
    file catches. *)
Inductive Completion (A : Type) :=
| Normal (a : A)
| Throw (e : Error).
Arguments Normal {A} a.
Arguments Throw {A} e.

Definition bind {A B} (c : Completion A) (k : A -> Completion B) : Completion B :=
  match c with
  | Normal a => k a
  | Throw e => Throw e
  end.

(** [forEach] with a callback that may throw. *)
Fixpoint foldM {A S} (f : S -> A -> Completion S) (l : list A) (s : S)
  : Completion S :=
  match l with
  | [] => Normal s
  | a :: l' => bind (f s a) (foldM f l')
  end.

End Exceptions.

Import JsString TokenRegex Collections Exceptions.

Notation "x <- c ;; k" := (bind c (fun x => k))
  (at level 61, c at next level, right associativity).

(** Prepends a [.] unless the selector already starts with one. *)
Definition format_class (selector : string) : string :=
  if starts_with_dot selector then selector else "." ++ selector.

(** ** JavaScript values: syntax-tree nodes and token payloads *)

Set Warnings "-register-all".

Inductive Value :=
| Undefined
| Null
| Bool (b : bool)
| Num (n : Z)
| Str (s : string)
| Arr (items : list Value)
| Obj (props : list (string * Value)).

Module Js.

Definition nullish (v : Value) : bool :=
  match v with Undefined | Null => true | _ => false end.

Fixpoint lookup (props : list (string * Value)) (k : string) : Value :=
  match props with
  | [] => Undefined
  | (k', v) :: props' => if String.eqb k' k then v else lookup props' k
  end.

(** [v.k] on a value that is not nullish. *)
Definition get (v : Value) (k : string) : Value :=
  match v with
  | Obj props => lookup props k
  | _ => Undefined
  end.

(** [v.k]: a TypeError on [undefined] and [null]. *)
Definition prop (v : Value) (k : string) : Completion Value :=
  if nullish v then Throw TypeError else Normal (get v k).

(** [v?.k] *)
Definition opt (v : Value) (k : string) : Value :=
  if nullish v then Undefined else get v k.

(** [v === "s"] *)
Definition is_str (v : Value) (s : string) : bool :=
  match v with Str s' => String.eqb s' s | _ => false end.

Definition truthy (v : Value) : bool :=
  match v with
  | Undefined | Null | Bool false | Str "" => false
  | Num n => negb (Z.eqb n 0)
  | _ => true
  end.

(** A field the TypeScript declarations give the type [string] ([name],
    [data]; the value of a string token).  A tree that breaks the
    declaration is outside the input type; the model stops there. *)
Definition as_string (v : Value) : Completion string :=
  match v with Str s => Normal s | _ => Throw TypeError end.

(** [v[0]] on a value that is not nullish. *)
Definition index0 (v : Value) : Value :=
  match v with
  | Arr (item :: _) => item
  | Obj props => lookup props "0"
  | Str (String c _) => Str (String c "")
  | _ => Undefined
  end.

(** [typeof v.type === "string"] on a value of type object. *)
Definition is_node (v : Value) : bool :=
  match v with
  | Obj props => match lookup props "type" with Str _ => true | _ => false end
  | _ => false
  end.

End Js.

(** ** extractSelectorsFromHtml *)

(** An [onattribute] event of htmlparser2. *)
Record AttributeEvent := {
  attr_name : string;
  attr_value : string;
  attr_quote : option ascii
}.

Record HtmlState := {
  html_selectors : JsSet;
  html_ids : JsSet
}.

Section Markup.

(** [ATTRIBUTES] of [./constants]: the reserved attribute names. *)
Variable ATTRIBUTES : list string.

(** htmlparser2: the attribute events of [parser.write(code); parser.end()],
    in document order. *)
Variable Parser : string -> list AttributeEvent.

Definition onattribute (st : HtmlState) (ev : AttributeEvent) : HtmlState :=
  let name := attr_name ev in
  let value := attr_value ev in
  if name =? "class" then
    {| html_selectors := fold_left set_add (split " " value) (html_selectors st);
       html_ids := html_ids st |}
  else if name =? "id" then
    {| html_selectors := html_selectors st;
       html_ids := set_add (html_ids st) value |}
  else if includes ATTRIBUTES name then st
  else
    let selectors :=
      fold_left
        (fun acc selector =>
           if shape_test selector then set_add acc selector else acc)
        (split " " value) (html_selectors st) in
    {| html_selectors :=
         if shape_test name then set_add selectors name else selectors;
       html_ids := html_ids st |}.

Definition extractSelectorsFromHtml (code : string) : list string :=
  let st :=
    fold_left onattribute (Parser code)
              {| html_selectors := []; html_ids := [] |} in
  let formattedIds := map (fun id => "#" ++ id) (html_ids st) in
  let formattedClasses := map format_class (html_selectors st) in
  (formattedIds ++ formattedClasses)%list.

End Markup.

(** ** extractSelectorsFromJS *)

(** A token of acorn: [token.type.label] and [token.value]. *)
Record Token := {
  type_label : string;
  token_value : Value
}.

Section Script.

(** acorn's [parse] with [onToken]: the tokens handed to the callback, or
    the syntax error it throws. *)
Variable parse_js : string -> Completion (list Token).

Definition onToken (selectors : JsSet) (token : Token) : Completion JsSet :=
  if type_label token =? "string" then
    value <- Js.as_string (token_value token) ;;
    let classes := split " " value in
    Normal
      (fold_left
         (fun acc selector =>
            if shape_test selector then set_add acc selector else acc)
         classes selectors)
  else Normal selectors.

Definition extractSelectorsFromJS (code : string) : Completion (list string) :=
  tokens <- parse_js code ;;
  selectors <- foldM onToken tokens [] ;;
  Normal (map format_class selectors).

End Script.

(** ** extractSelectorsWithRegex *)

Definition extractSelectorsWithRegex (code : string) : list string :=
  let selectors := match_all code in
  let classes := fold_left set_add selectors [] in
  map format_class classes.

(** ** extractSelectorsFromSvelte *)

(** [Selector] of [./types]: the tag under which a text was registered. *)
Record Selector := {
  sel_type : string;
  sel_name : option string
}.

(** The three collections the visitor closes over. *)
Record WalkState := {
  selectors : JsMap Selector;
  identifiers : JsSet;
  ids : JsMap (list string)
}.

Definition set_selector (st : WalkState) (k : string) (meta : Selector) : WalkState :=
  {| selectors := map_set (selectors st) k meta;
     identifiers := identifiers st;
     ids := ids st |}.

Definition add_identifier (st : WalkState) (name : string) : WalkState :=
  {| selectors := selectors st;
     identifiers := set_add (identifiers st) name;
     ids := ids st |}.

Definition set_id (st : WalkState) (id : string) (value : list string) : WalkState :=
  {| selectors := selectors st;
     identifiers := identifiers st;
     ids := map_set (ids st) id value |}.

Definition tagged (type : string) : Selector :=
  {| sel_type := type; sel_name := None |}.

Definition toArray (value : Value) : list string :=
  match value with
  | Str s => map trim (split_ws s)
  | _ => []
  end.

(** [if (CLASS_REGEX.test(selector)) selectors.set(selector, { type: "Class" })]:
    [CLASS_REGEX] has the [g] flag, so each [test] starts at the
    [lastIndex] the previous one left. *)
Definition test_and_set (acc : WalkState * nat) (selector : string)
  : WalkState * nat :=
  let '(st, lastIndex) := acc in
  let '(found, lastIndex') := test true lastIndex selector in
  (if found then set_selector st selector (tagged "Class") else st, lastIndex').

(** [text.split(/\s+/).filter(Boolean).forEach(...)] with the callback
    above. *)
Definition register_text (text : string) (acc : WalkState * nat) : WalkState * nat :=
  fold_left test_and_set (filter JsString.truthy (split_ws text)) acc.

(** The callback mapped over the parts of an attribute value; the source
    has it twice, with the same text (lines 143-159 and 167-185). *)
Definition value_part (acc : WalkState * nat) (value : Value)
  : Completion (WalkState * nat) :=
  type <- Js.prop value "type" ;;
  if Js.is_str type "MustacheTag" then
    let expression := Js.get value "expression" in
    if Js.is_str (Js.opt expression "type") "Identifier" then
      name <- Js.as_string (Js.get expression "name") ;;
      Normal (add_identifier (fst acc) name, snd acc)
    else Normal acc
  else if Js.is_str type "Text" then
    data <- Js.as_string (Js.get value "data") ;;
    Normal (register_text data acc)
  else Normal acc.

(** The callback of [elements?.forEach] (lines 120-130). *)
Definition bind_element (id : Value) (st : WalkState) (element : Value)
  : Completion WalkState :=
  type <- Js.prop element "type" ;;
  st1 <- (if Js.is_str type "Literal" then
            name <- Js.as_string id ;;
            Normal (set_id st name (toArray (Js.get element "value")))
          else Normal st) ;;
  let right_value := Js.opt (Js.get element "right") "value" in
  if Js.is_str type "LogicalExpression" && Js.truthy right_value then
    name <- Js.as_string id ;;
    Normal (set_id st1 name (toArray right_value))
  else Normal st1.

(** The blocks of the [enter] callback, in the order of the source.  [node]
    is an object; [type] and [name] are [node.type] and [node.name]. *)

(** Lines 112-132: an identifier whose parent has an initializer. *)
Definition on_identifier (node parent : Value) (st : WalkState)
  : Completion WalkState :=
  let type := Js.get node "type" in
  let name := Js.get node "name" in
  if Js.is_str type "Identifier" then
    init <- Js.prop parent "init" ;;
    st <- (if Js.is_str (Js.opt init "type") "Literal" then
             id <- Js.as_string name ;;
             Normal (set_id st id (toArray (Js.get init "value")))
           else Normal st) ;;
    if Js.is_str (Js.opt init "type") "CallExpression" then
      match Js.opt (Js.opt (Js.get init "callee") "object") "elements" with
      | Undefined | Null => Normal st
      | Arr elements => foldM (bind_element name) elements st
      | _ => Throw TypeError
      end
    else Normal st
  else Normal st.

(** Lines 134-137. *)
Definition on_element (node : Value) (st : WalkState) : Completion WalkState :=
  if Js.is_str (Js.get node "type") "Element" then
    k <- Js.as_string (Js.get node "name") ;;
    Normal (set_selector st k (tagged "Element"))
  else Normal st.

(** Lines 139-160: the parts of a [class] attribute. *)
Definition on_class_attribute (node : Value) (acc : WalkState * nat)
  : Completion (WalkState * nat) :=
  if Js.is_str (Js.get node "type") "Attribute"
     && Js.is_str (Js.get node "name") "class" then
    match Js.get node "value" with
    | Undefined | Null => Normal acc
    | Arr parts => foldM value_part parts acc
    | _ => Throw TypeError
    end
  else Normal acc.

(** Lines 162-186: the name of any attribute, then its parts when
    [typeof node.value === "object"]. *)
Definition on_attribute (node : Value) (acc : WalkState * nat)
  : Completion (WalkState * nat) :=
  if Js.is_str (Js.get node "type") "Attribute" then
    k <- Js.as_string (Js.get node "name") ;;
    let acc := (set_selector (fst acc) k (tagged "Attribute"), snd acc) in
    match Js.get node "value" with
    | Arr parts => foldM value_part parts acc
    | Null | Obj _ => Throw TypeError
    | _ => Normal acc
    end
  else Normal acc.

(** Lines 188-191: a [class:] directive. *)
Definition on_class_directive (node : Value) (st : WalkState)
  : Completion WalkState :=
  if Js.is_str (Js.get node "type") "Class" then
    k <- Js.as_string (Js.get node "name") ;;
    Normal (set_selector st k (tagged "Class"))
  else Normal st.

(** Lines 193-202: [:global(...)]. *)
Definition on_global (node : Value) (st : WalkState) : Completion WalkState :=
  if Js.is_str (Js.get node "type") "PseudoClassSelector"
     && Js.is_str (Js.get node "name") "global" then
    children <- Js.prop node "children" ;;
    first <- (if Js.nullish children then Throw TypeError
              else Normal (Js.index0 children)) ;;
    if Js.nullish first then Normal st
    else
      value <- Js.as_string (Js.get first "value") ;;
      Normal
        (fold_left
           (fun st selector =>
              set_selector st (trim selector)
                {| sel_type := "PseudoClassSelector"; sel_name := Some "global" |})
           (split "," value) st)
  else Normal st.

(** Lines 204-214: string literals. *)
Definition on_literal (node : Value) (st : WalkState) : Completion WalkState :=
  if Js.is_str (Js.get node "type") "Literal" then
    match Js.get node "value" with
    | Str value =>
        Normal
          (fold_left
             (fun st selector =>
                if toLowerCase selector =? selector
                then set_selector st selector (tagged "Class")
                else st)
             (filter JsString.truthy (split_ws value)) st)
    | _ => Normal st
    end
  else Normal st.

(** Lines 216-229: the raw text of a template element. *)
Definition on_template_element (node : Value) (acc : WalkState * nat)
  : Completion (WalkState * nat) :=
  if Js.is_str (Js.get node "type") "TemplateElement" then
    value <- Js.prop node "value" ;;
    raw <- Js.prop value "raw" ;;
    match raw with
    | Str raw => Normal (register_text raw acc)
    | _ => Normal acc
    end
  else Normal acc.

(** The [enter] callback (lines 109-230).  [CLASS_REGEX] is a literal with
    the [g] flag evaluated at the head of each call: its [lastIndex] starts
    at 0 and is shared by the blocks that test with it. *)
Definition enter (node parent : Value) (st : WalkState) : Completion WalkState :=
  let CLASS_REGEX_lastIndex := 0 in
  st <- on_identifier node parent st ;;
  st <- on_element node st ;;
  acc <- on_class_attribute node (st, CLASS_REGEX_lastIndex) ;;
  acc <- on_attribute node acc ;;
  st <- on_class_directive node (fst acc) ;;
  st <- on_global node st ;;
  st <- on_literal node st ;;
  acc <- on_template_element node (st, snd acc) ;;
  Normal (fst acc).

(** The calls of [enter] that [walk] of svelte/compiler (estree-walker)
    makes below [node]: the node itself, then, for each of its properties in
    order, the nodes among the members of an array value or an object value
    that is a node; depth first, with the parent at each call. *)
Fixpoint visits (parent node : Value) {struct node} : list (Value * Value) :=
  (node, parent) ::
  match node with
  | Obj props =>
      (fix keys (ps : list (string * Value)) : list (Value * Value) :=
         match ps with
         | [] => []
         | (_, value) :: ps' =>
             (match value with
              | Arr items =>
                  (fix each (l : list Value) : list (Value * Value) :=
                     match l with
                     | [] => []
                     | item :: l' =>
                         (if Js.is_node item then visits node item else [])
                         ++ each l'
                     end) items
              | Obj _ => if Js.is_node value then visits node value else []
              | _ => []
              end) ++ keys ps'
         end)%list props
  | _ => []
  end.

Definition empty_state : WalkState :=
  {| selectors := []; identifiers := []; ids := [] |}.

(** [walk(ast, { enter })] *)
Definition walk (ast : Value) : Completion WalkState :=
  foldM (fun st call => enter (fst call) (snd call) st) (visits Null ast) empty_state.

(** The resolution of the identifiers used as attribute values
    (lines 233-240). *)
Definition resolve_identifier (ids : JsMap (list string))
           (selectors : JsMap Selector) (id : string) : JsMap Selector :=
  match map_get ids id with
  | Some value =>
      fold_left (fun sels v => map_set sels v (tagged "FromIdentifier"))
                value selectors
  | None => selectors
  end.

Definition resolve (st : WalkState) : JsMap Selector :=
  fold_left (resolve_identifier (ids st)) (identifiers st) (selectors st).

(** The walk's result with [id] taken out of the identifiers in use. *)
Definition forget (id : string) (st : WalkState) : WalkState :=
  {| selectors := selectors st;
     identifiers := filter (fun x => negb (x =? id)) (identifiers st);
     ids := ids st |}.

(** Every text registered in [st] is still registered in [st']. *)
Definition keeps (st st' : WalkState) : Prop :=
  forall k, map_get (selectors st) k <> None -> map_get (selectors st') k <> None.

(** The entry the [:global(...)] block writes (lines 197-200). *)
Definition global_tag : Selector :=
  {| sel_type := "PseudoClassSelector"; sel_name := Some "global" |}.

(** The call of [enter] on [call] (a node and its parent) leaves the entry
    of the text [k] as it finds it. *)
Definition leaves_text (call : Value * Value) (k : string) : Prop :=
  forall s s', enter (fst call) (snd call) s = Normal s' ->
               map_get (selectors s') k = map_get (selectors s) k.

(** [node] is a [:global(...)] pseudo-class selector whose first child has
    the raw text [raw]. *)
Definition global_selector_node (node : Value) (raw : string) : Prop :=
  Js.get node "type" = Str "PseudoClassSelector"
  /\ Js.get node "name" = Str "global"
  /\ Js.get (Js.index0 (Js.get node "children")) "value" = Str raw.

Section Template.

(** [CLASS_SELECTOR] of [./constants]: the tags written with a dot. *)
Variable CLASS_SELECTOR : list string.

(** [parse] of svelte/compiler: the syntax tree of the template, or the
    error thrown on a template that does not parse. *)
Variable parse : string -> option string -> Completion Value.

Definition format_selector (selector : string * Selector) : string :=
  let '(value, meta) := selector in
  if includes CLASS_SELECTOR (sel_type meta) then "." ++ value else value.

(** Lines 233-249: what is returned once the walk is over. *)
Definition finish (st : WalkState) : list string :=
  map format_selector (resolve st).

Definition extractSelectorsFromSvelte (template : string)
           (filename : option string) : Completion (list string) :=
  ast <- parse template filename ;;
  st <- walk ast ;;
  Normal (finish st).

End Template.

(** ** The inputs of the specification's examples

    Syntax trees are written as svelte's parser returns them; the fields
    that neither the walker nor the callback reads (positions, raw source
    text of literals) are left out. *)

Module Examples.

(** The double quote, code unit 34. *)
Definition dq : string := String "034"%char "".

Definition node (type : string) (props : list (string * Value)) : Value :=
  Obj (("type", Str type) :: props).

Definition Identifier (name : string) : Value :=
  node "Identifier" [("name", Str name)].

Definition Literal (value : Value) : Value :=
  node "Literal" [("value", value)].

Definition Element (name : string) (attributes children : list Value) : Value :=
  node "Element"
       [("name", Str name); ("attributes", Arr attributes);
        ("children", Arr children)].

Definition Attribute (name : string) (value : Value) : Value :=
  node "Attribute" [("name", Str name); ("value", value)].

Definition Text (data : string) : Value :=
  node "Text" [("raw", Str data); ("data", Str data)].

Definition MustacheTag (expression : Value) : Value :=
  node "MustacheTag" [("expression", expression)].

(** The tree of a template: markup, style and instance script. *)
Definition Ast (html : list Value) (css instance : Value) : Value :=
  Obj [("html", node "Fragment" [("children", Arr html)]);
       ("css", css); ("instance", instance); ("module", Undefined)].

(** [<script> body </script>] *)
Definition Script (body : list Value) : Value :=
  node "Script"
       [("context", Str "default");
        ("content", node "Program" [("body", Arr body); ("sourceType", Str "module")])].

(** [const id = init] *)
Definition Const (id : string) (init : Value) : Value :=
  node "VariableDeclaration"
       [("declarations",
         Arr [node "VariableDeclarator" [("id", Identifier id); ("init", init)]]);
        ("kind", Str "const")].

(** [:global(raw)] and the selector it is the only part of. *)
Definition GlobalSelector (raw : string) : Value :=
  node "PseudoClassSelector"
       [("name", Str "global");
        ("children", Arr [node "Raw" [("value", Str raw)]])].

Definition SelectorOf (part : Value) : Value :=
  node "Selector" [("children", Arr [part])].

(** [<style> :global(raw) {} </style>] *)
Definition StyleGlobal (raw : string) : Value :=
  node "Style"
    [("attributes", Arr []);
     ("children",
      Arr [node "Rule"
             [("prelude",
               node "SelectorList"
                 [("children", Arr [SelectorOf (GlobalSelector raw)])]);
              ("block", node "Block" [("children", Arr [])])]]);
     ("content", Obj [("styles", Str (":global(" ++ raw ++ ") {}"))])].

(** [const x = cva(["a b", cond && "c d"])] and [<div class={x}>] *)
Definition cva_template : string :=
  "<script>const x = cva([" ++ dq ++ "a b" ++ dq ++ ", cond && " ++ dq
  ++ "c d" ++ dq ++ "])</script><div class={x}></div>".

Definition cva_ast : Value :=
  Ast [Element "div" [Attribute "class" (Arr [MustacheTag (Identifier "x")])] []]
      Undefined
      (Script
         [Const "x"
            (node "CallExpression"
               [("callee", Identifier "cva");
                ("arguments",
                 Arr [node "ArrayExpression"
                        [("elements",
                          Arr [Literal (Str "a b");
                               node "LogicalExpression"
                                 [("left", Identifier "cond");
                                  ("operator", Str "&&");
                                  ("right", Literal (Str "c d"))]])]]);
                ("optional", Bool false)])]).

(** [<div class="c1 c2"></div>] *)
Definition two_classes_template : string :=
  "<div class=" ++ dq ++ "c1 c2" ++ dq ++ "></div>".

Definition two_classes_ast : Value :=
  Ast [Element "div" [Attribute "class" (Arr [Text "c1 c2"])] []]
      Undefined Undefined.

(** [<div class={undeclaredVar}></div>] *)
Definition undeclared_template : string := "<div class={undeclaredVar}></div>".

Definition undeclared_ast : Value :=
  Ast [Element "div" [Attribute "class" (Arr [MustacheTag (Identifier "undeclaredVar")])] []]
      Undefined Undefined.

(** [<style>:global(raw) {}</style>] *)
Definition global_template (raw : string) : string :=
  "<style>:global(" ++ raw ++ ") {}</style>".

Definition global_ast (raw : string) : Value :=
  Ast [] (StyleGlobal raw) Undefined.

(** [<script>const s = ".foo"</script><style>:global(.foo, .bar) {}</style>] *)
Definition retagged_template : string :=
  "<script>const s = " ++ dq ++ ".foo" ++ dq
  ++ "</script><style>:global(.foo, .bar) {}</style>".

Definition retagged_ast : Value :=
  Ast [] (StyleGlobal ".foo, .bar") (Script [Const "s" (Literal (Str ".foo"))]).

End Examples.

(** ** The extractors as one family *)

Inductive Extractor := FromHtml | FromJS | WithRegex | FromSvelte.

Section Family.

Variable ATTRIBUTES : list string.
Variable CLASS_SELECTOR : list string.
Variable Parser : string -> list AttributeEvent.
Variable parse_js : string -> Completion (list Token).
Variable parse : string -> option string -> Completion Value.

(** One call of an extractor; [filename] is read by
    [extractSelectorsFromSvelte] alone. *)
Definition invoke (e : Extractor) (code : string) (filename : option string)
  : Completion (list string) :=
  match e with
  | FromHtml => Normal (extractSelectorsFromHtml ATTRIBUTES Parser code)
  | FromJS => extractSelectorsFromJS parse_js code
  | WithRegex => Normal (extractSelectorsWithRegex code)
  | FromSvelte => extractSelectorsFromSvelte CLASS_SELECTOR parse code filename
  end.

End Family.

(** ** The extractors over a store of objects

    The same four functions, written as the source runs them: every
    [new Set], [new Map] and regular-expression literal creates an object in
    the store of the JavaScript realm, and every later operation goes
    through the reference to it.  The store is what one call leaves behind
    for the next.  References are typed by the kind of object they point
    to. *)

Module Runtime.

Record Store := {
  regexps : list (bool * nat);
  sets : list JsSet;
  selector_maps : list (JsMap Selector);
  binding_maps : list (JsMap (list string))
}.

(** A computation: from the store it finds, an outcome and the store it
    leaves. *)
Definition Run (A : Type) : Type := Store -> Completion A * Store.

Definition ret {A} (a : A) : Run A := fun h => (Normal a, h).

Definition raise {A} (e : Error) : Run A := fun h => (Throw e, h).

(** A value or an exception computed without the store. *)
Definition lift {A} (c : Completion A) : Run A := fun h => (c, h).

Definition bindR {A B} (m : Run A) (k : A -> Run B) : Run B :=
  fun h =>
    match m h with
    | (Normal a, h') => k a h'
    | (Throw e, h') => (Throw e, h')
    end.

Notation "x <~ m ;; k" := (bindR m (fun x => k))
  (at level 61, m at next level, right associativity).

Notation "m ;;; k" := (bindR m (fun _ => k))
  (at level 61, right associativity).

Fixpoint forEach {A} (l : list A) (body : A -> Run unit) : Run unit :=
  match l with
  | [] => ret tt
  | a :: l' => body a ;;; forEach l' body
  end.

(** [l] with its [n]-th member replaced. *)
Fixpoint update {A} (l : list A) (n : nat) (a : A) : list A :=
  match l, n with
  | [], _ => []
  | _ :: l', 0 => a :: l'
  | x :: l', S n' => x :: update l' n' a
  end.

(** *** Regular expressions *)

(** A regular-expression literal is evaluated: a new object, [lastIndex]
    at 0. *)
Definition new_regexp (global : bool) : Run nat :=
  fun h =>
    (Normal (length (regexps h)),
     {| regexps := regexps h ++ [(global, 0)];
        sets := sets h;
        selector_maps := selector_maps h;
        binding_maps := binding_maps h |}).

(** [re.test(s)]: reads and writes the [lastIndex] of the object.  A
    reference always points to an object; the other case does not arise. *)
Definition regexp_test (re : nat) (s : string) : Run bool :=
  fun h =>
    match nth_error (regexps h) re with
    | Some (global, lastIndex) =>
        let '(found, lastIndex') := test global lastIndex s in
        (Normal found,
         {| regexps := update (regexps h) re (global, lastIndex');
            sets := sets h;
            selector_maps := selector_maps h;
            binding_maps := binding_maps h |})
    | None => (Throw TypeError, h)
    end.

(** [s.match(re)] for a regular expression with the [g] flag: [lastIndex]
    is put to 0, [exec] runs until it fails, which leaves [lastIndex] at
    0. *)
Definition regexp_match (re : nat) (s : string) : Run (list string) :=
  fun h =>
    match nth_error (regexps h) re with
    | Some (global, _) =>
        (Normal (match_all s),
         {| regexps := update (regexps h) re (global, 0);
            sets := sets h;
            selector_maps := selector_maps h;
            binding_maps := binding_maps h |})
    | None => (Throw TypeError, h)
    end.

(** The token-shape filter, [/[\w\-:./![\]]+(?<!:)/.test(selector)]: the
    literal is evaluated each time the expression is. *)
Definition filter_test (selector : string) : Run bool :=
  re <~ new_regexp false ;; regexp_test re selector.

(** *** Sets of strings *)

Definition new_set : Run nat :=
  fun h =>
    (Normal (length (sets h)),
     {| regexps := regexps h;
        sets := sets h ++ [[]];
        selector_maps := selector_maps h;
        binding_maps := binding_maps h |}).

Definition set_add (a : nat) (x : string) : Run unit :=
  fun h =>
    match nth_error (sets h) a with
    | Some s =>
        (Normal tt,
         {| regexps := regexps h;
            sets := update (sets h) a (Collections.set_add s x);
            selector_maps := selector_maps h;
            binding_maps := binding_maps h |})
    | None => (Throw TypeError, h)
    end.

(** [Array.from(set)], and the members [set.forEach] goes through. *)
Definition set_values (a : nat) : Run (list string) :=
  fun h =>
    match nth_error (sets h) a with
    | Some s => (Normal s, h)
    | None => (Throw TypeError, h)
    end.

(** *** Maps *)

Definition new_selector_map : Run nat :=
  fun h =>
    (Normal (length (selector_maps h)),
     {| regexps := regexps h;
        sets := sets h;
        selector_maps := selector_maps h ++ [[]];
        binding_maps := binding_maps h |}).

Definition selector_map_set (a : nat) (k : string) (meta : Selector) : Run unit :=
  fun h =>
    match nth_error (selector_maps h) a with
    | Some m =>
        (Normal tt,
         {| regexps := regexps h;
            sets := sets h;
            selector_maps := update (selector_maps h) a (map_set m k meta);
            binding_maps := binding_maps h |})
    | None => (Throw TypeError, h)
    end.

(** [Array.from(map)] *)
Definition selector_map_entries (a : nat) : Run (list (string * Selector)) :=
  fun h =>
    match nth_error (selector_maps h) a with
    | Some m => (Normal m, h)
    | None => (Throw TypeError, h)
    end.

Definition new_binding_map : Run nat :=
  fun h =>
    (Normal (length (binding_maps h)),
     {| regexps := regexps h;
        sets := sets h;
        selector_maps := selector_maps h;
        binding_maps := binding_maps h ++ [[]] |}).

Definition binding_map_set (a : nat) (k : string) (value : list string) : Run unit :=
  fun h =>
    match nth_error (binding_maps h) a with
    | Some m =>
        (Normal tt,
         {| regexps := regexps h;
            sets := sets h;
            selector_maps := selector_maps h;
            binding_maps := update (binding_maps h) a (map_set m k value) |})
    | None => (Throw TypeError, h)
    end.

Definition binding_map_get (a : nat) (k : string) : Run (option (list string)) :=
  fun h =>
    match nth_error (binding_maps h) a with
    | Some m => (Normal (map_get m k), h)
    | None => (Throw TypeError, h)
    end.

(** *** extractSelectorsFromHtml (lines 7-52) *)

Section Markup.

Variable ATTRIBUTES : list string.
Variable Parser : string -> list AttributeEvent.

(** [selectors] and [ids] are the references the callback closes over. *)
Definition onattribute (selectors ids : nat) (ev : AttributeEvent) : Run unit :=
  let name := attr_name ev in
  let value := attr_value ev in
  if name =? "class" then
    forEach (split " " value) (fun selector => set_add selectors selector)
  else if name =? "id" then set_add ids value
  else if includes ATTRIBUTES name then ret tt
  else
    forEach (split " " value)
            (fun selector =>
               found <~ filter_test selector ;;
               if found then set_add selectors selector else ret tt) ;;;
    found <~ filter_test name ;;
    if found then set_add selectors name else ret tt.

Definition extractSelectorsFromHtml (code : string) : Run (list string) :=
  selectors <~ new_set ;;
  ids <~ new_set ;;
  forEach (Parser code) (onattribute selectors ids) ;;;
  ids_members <~ set_values ids ;;
  let formattedIds := map (fun id => "#" ++ id) ids_members in
  selectors_members <~ set_values selectors ;;
  let formattedClasses := map format_class selectors_members in
  ret (formattedIds ++ formattedClasses)%list.

End Markup.

(** *** extractSelectorsFromJS (lines 54-80) *)

Section Script.

Variable parse_js : string -> Completion (list Token).

Definition onToken (selectors : nat) (token : Token) : Run unit :=
  if type_label token =? "string" then
    value <~ lift (Js.as_string (token_value token)) ;;
    let classes := split " " value in
    forEach classes
            (fun selector =>
               found <~ filter_test selector ;;
               if found then set_add selectors selector else ret tt)
  else ret tt.

Definition extractSelectorsFromJS (code : string) : Run (list string) :=
  selectors <~ new_set ;;
  tokens <~ lift (parse_js code) ;;
  forEach tokens (onToken selectors) ;;;
  members <~ set_values selectors ;;
  ret (map format_class members).

End Script.

(** *** extractSelectorsWithRegex (lines 82-97) *)

Definition extractSelectorsWithRegex (code : string) : Run (list string) :=
  classes <~ new_set ;;
  TAILWIND_REGEX <~ new_regexp true ;;
  selectors <~ regexp_match TAILWIND_REGEX code ;;
  forEach selectors (fun selector => set_add classes selector) ;;;
  members <~ set_values classes ;;
  ret (map format_class members).

(** *** extractSelectorsFromSvelte (lines 99-250) *)

Section Walker.

(** The references to [selectors], [identifiers] and [ids] (lines
    104-106), which the visitor closes over. *)
Variable selectors : nat.
Variable identifiers : nat.
Variable ids : nat.

Definition test_and_set (CLASS_REGEX : nat) (selector : string) : Run unit :=
  found <~ regexp_test CLASS_REGEX selector ;;
  if found then selector_map_set selectors selector (tagged "Class") else ret tt.

Definition register_text (CLASS_REGEX : nat) (text : string) : Run unit :=
  forEach (filter JsString.truthy (split_ws text)) (test_and_set CLASS_REGEX).

Definition value_part (CLASS_REGEX : nat) (value : Value) : Run unit :=
  type <~ lift (Js.prop value "type") ;;
  if Js.is_str type "MustacheTag" then
    let expression := Js.get value "expression" in
    if Js.is_str (Js.opt expression "type") "Identifier" then
      name <~ lift (Js.as_string (Js.get expression "name")) ;;
      set_add identifiers name
    else ret tt
  else if Js.is_str type "Text" then
    data <~ lift (Js.as_string (Js.get value "data")) ;;
    register_text CLASS_REGEX data
  else ret tt.

Definition bind_element (id : Value) (element : Value) : Run unit :=
  type <~ lift (Js.prop element "type") ;;
  (if Js.is_str type "Literal" then
     name <~ lift (Js.as_string id) ;;
     binding_map_set ids name (toArray (Js.get element "value"))
   else ret tt) ;;;
  let right_value := Js.opt (Js.get element "right") "value" in
  if Js.is_str type "LogicalExpression" && Js.truthy right_value then
    name <~ lift (Js.as_string id) ;;
    binding_map_set ids name (toArray right_value)
  else ret tt.

Definition on_identifier (node parent : Value) : Run unit :=
  let type := Js.get node "type" in
  let name := Js.get node "name" in
  if Js.is_str type "Identifier" then
    init <~ lift (Js.prop parent "init") ;;
    (if Js.is_str (Js.opt init "type") "Literal" then
       id <~ lift (Js.as_string name) ;;
       binding_map_set ids id (toArray (Js.get init "value"))
     else ret tt) ;;;
    if Js.is_str (Js.opt init "type") "CallExpression" then
      match Js.opt (Js.opt (Js.get init "callee") "object") "elements" with
      | Undefined | Null => ret tt
      | Arr elements => forEach elements (bind_element name)
      | _ => raise TypeError
      end
    else ret tt
  else ret tt.

Definition on_element (node : Value) : Run unit :=
  if Js.is_str (Js.get node "type") "Element" then
    k <~ lift (Js.as_string (Js.get node "name")) ;;
    selector_map_set selectors k (tagged "Element")
  else ret tt.

Definition on_class_attribute (CLASS_REGEX : nat) (node : Value) : Run unit :=
  if Js.is_str (Js.get node "type") "Attribute"
     && Js.is_str (Js.get node "name") "class" then
    match Js.get node "value" with
    | Undefined | Null => ret tt
    | Arr parts => forEach parts (value_part CLASS_REGEX)
    | _ => raise TypeError
    end
  else ret tt.

Definition on_attribute (CLASS_REGEX : nat) (node : Value) : Run unit :=
  if Js.is_str (Js.get node "type") "Attribute" then
    k <~ lift (Js.as_string (Js.get node "name")) ;;
    selector_map_set selectors k (tagged "Attribute") ;;;
    match Js.get node "value" with
    | Arr parts => forEach parts (value_part CLASS_REGEX)
    | Null | Obj _ => raise TypeError
    | _ => ret tt
    end
  else ret tt.

Definition on_class_directive (node : Value) : Run unit :=
  if Js.is_str (Js.get node "type") "Class" then
    k <~ lift (Js.as_string (Js.get node "name")) ;;
    selector_map_set selectors k (tagged "Class")
  else ret tt.

Definition on_global (node : Value) : Run unit :=
  if Js.is_str (Js.get node "type") "PseudoClassSelector"
     && Js.is_str (Js.get node "name") "global" then
    children <~ lift (Js.prop node "children") ;;
    first <~ (if Js.nullish children then raise TypeError
              else ret (Js.index0 children)) ;;
    if Js.nullish first then ret tt
    else
      value <~ lift (Js.as_string (Js.get first "value")) ;;
      forEach (split "," value)
              (fun selector =>
                 selector_map_set selectors (trim selector)
                   {| sel_type := "PseudoClassSelector"; sel_name := Some "global" |})
  else ret tt.

Definition on_literal (node : Value) : Run unit :=
  if Js.is_str (Js.get node "type") "Literal" then
    match Js.get node "value" with
    | Str value =>
        forEach (filter JsString.truthy (split_ws value))
                (fun selector =>
                   if toLowerCase selector =? selector
                   then selector_map_set selectors selector (tagged "Class")
                   else ret tt)
    | _ => ret tt
    end
  else ret tt.

Definition on_template_element (CLASS_REGEX : nat) (node : Value) : Run unit :=
  if Js.is_str (Js.get node "type") "TemplateElement" then
    value <~ lift (Js.prop node "value") ;;
    raw <~ lift (Js.prop value "raw") ;;
    match raw with
    | Str raw => register_text CLASS_REGEX raw
    | _ => ret tt
    end
  else ret tt.

(** The [enter] callback: [CLASS_REGEX] is the object its first statement
    creates (line 110). *)
Definition enter (node parent : Value) : Run unit :=
  CLASS_REGEX <~ new_regexp true ;;
  on_identifier node parent ;;;
  on_element node ;;;
  on_class_attribute CLASS_REGEX node ;;;
  on_attribute CLASS_REGEX node ;;;
  on_class_directive node ;;;
  on_global node ;;;
  on_literal node ;;;
  on_template_element CLASS_REGEX node.

(** Lines 233-240. *)
Definition resolve_identifier (id : string) : Run unit :=
  selector <~ binding_map_get ids id ;;
  match selector with
  | Some value =>
      forEach value
              (fun v => selector_map_set selectors v (tagged "FromIdentifier"))
  | None => ret tt
  end.

End Walker.

Section Template.

Variable CLASS_SELECTOR : list string.
Variable parse : string -> option string -> Completion Value.

Definition extractSelectorsFromSvelte (template : string)
           (filename : option string) : Run (list string) :=
  ast <~ lift (parse template filename) ;;
  selectors <~ new_selector_map ;;
  identifiers <~ new_set ;;
  ids <~ new_binding_map ;;
  forEach (visits Null ast)
          (fun call => enter selectors identifiers ids (fst call) (snd call)) ;;;
  names <~ set_values identifiers ;;
  forEach names (resolve_identifier selectors ids) ;;;
  entries <~ selector_map_entries selectors ;;
  ret (map (format_selector CLASS_SELECTOR) entries).

End Template.

Section Family.

Variable ATTRIBUTES : list string.
Variable CLASS_SELECTOR : list string.
Variable Parser : string -> list AttributeEvent.
Variable parse_js : string -> Completion (list Token).
Variable parse : string -> option string -> Completion Value.

(** One call of an extractor in the store [h]. *)
Definition invoke (e : Extractor) (code : string) (filename : option string)
  : Run (list string) :=
  match e with
  | FromHtml => extractSelectorsFromHtml ATTRIBUTES Parser code
  | FromJS => extractSelectorsFromJS parse_js code
  | WithRegex => extractSelectorsWithRegex code
  | FromSvelte => extractSelectorsFromSvelte CLASS_SELECTOR parse code filename
  end.

(** Two calls, one after the other: the second runs in the store the first
    leaves. *)
Definition invoke_twice (e : Extractor) (code : string) (filename : option string)
           (h : Store) : Completion (list string) * Completion (list string) :=
  let (first, h1) := invoke e code filename h in
  let (second, _) := invoke e code filename h1 in
  (first, second).

End Family.

End Runtime.

(** ** The store and the states of the first model

    What relates the two models: the objects in the store hold the
    collections that the first model passes from step to step. *)

(** From a store that holds the state [s], the computation [m] ends as
    [f s] does, and leaves a store that holds the state [f] returns. *)
Definition refines {S : Type} (I : Runtime.Store -> S -> Prop)
           (m : Runtime.Run unit) (f : S -> Completion S) : Prop :=
  forall h s, I h s ->
    match f s with
    | Normal s' => fst (m h) = Normal tt /\ I (snd (m h)) s'
    | Throw e => fst (m h) = Throw e
    end.

(** The set at [a] holds [s]. *)
Definition holds_set (a : nat) (h : Runtime.Store) (s : JsSet) : Prop :=
  nth_error (Runtime.sets h) a = Some s.

(** The two sets of [extractSelectorsFromHtml]. *)
Definition holds_html (selectors_ref ids_ref : nat) (h : Runtime.Store)
           (st : HtmlState) : Prop :=
  holds_set selectors_ref h (html_selectors st)
  /\ holds_set ids_ref h (html_ids st).

(** The three collections of [extractSelectorsFromSvelte]. *)
Definition holds_walk (selectors_ref identifiers_ref ids_ref : nat)
           (h : Runtime.Store) (st : WalkState) : Prop :=
  nth_error (Runtime.selector_maps h) selectors_ref = Some (selectors st)
  /\ nth_error (Runtime.sets h) identifiers_ref = Some (identifiers st)
  /\ nth_error (Runtime.binding_maps h) ids_ref = Some (ids st).

(** The same within one call of [enter], with the [lastIndex] of its
    [CLASS_REGEX]. *)
Definition holds_enter (selectors_ref identifiers_ref ids_ref CLASS_REGEX : nat)
           (h : Runtime.Store) (acc : WalkState * nat) : Prop :=
  holds_walk selectors_ref identifiers_ref ids_ref h (fst acc)
  /\ nth_error (Runtime.regexps h) CLASS_REGEX = Some (true, snd acc).

(** After the walk: the map of selectors holds [m], the map of bindings is
    the one the walk left. *)
Definition holds_resolve (selectors_ref ids_ref : nat)
           (bindings : JsMap (list string)) (h : Runtime.Store)
           (m : JsMap Selector) : Prop :=
  nth_error (Runtime.selector_maps h) selectors_ref = Some m
  /\ nth_error (Runtime.binding_maps h) ids_ref = Some bindings.

(** A block of [enter] that does not test with [CLASS_REGEX]. *)
Definition on_state (f : WalkState -> Completion WalkState)
           (acc : WalkState * nat) : Completion (WalkState * nat) :=
  st <- f (fst acc) ;;
  Normal (st, snd acc).

(** The blocks of [enter] one after the other. *)
Definition enter_blocks (node parent : Value) (acc : WalkState * nat)
  : Completion (WalkState * nat) :=
  acc <- on_state (on_identifier node parent) acc ;;
  acc <- on_state (on_element node) acc ;;
  acc <- on_class_attribute node acc ;;
  acc <- on_attribute node acc ;;
  acc <- on_state (on_class_directive node) acc ;;
  acc <- on_state (on_global node) acc ;;
  acc <- on_state (on_literal node) acc ;;
  on_template_element node acc.

(** ** The constants of [./constants] and the parsers on the examples *)

Module Constants.

(** Modelled from the spec: [CLASS_SELECTOR] of [./constants], a file that
    is not among the sources.  Section 4.4, final formatting: the tags
    written with a dot are Class, ClassDirective (svelte's node type is
    [Class] for both) and FromIdentifier. *)
Definition CLASS_SELECTOR : list string := ["Class"; "FromIdentifier"].

(** Modelled from the spec: [ATTRIBUTES] of [./constants], a file that is
    not among the sources.  Section 8 names [aria-hidden] as a reserved
    attribute name; this list stands for any that holds it. *)
Definition ATTRIBUTES : list string := ["aria-hidden"].

End Constants.

Module Inputs.
Import Examples.

(** [<div class="a b" id="x" data-foo="c d" aria-hidden="true">] *)
Definition markup_input : string :=
  "<div class=" ++ dq ++ "a b" ++ dq ++ " id=" ++ dq ++ "x" ++ dq
  ++ " data-foo=" ++ dq ++ "c d" ++ dq ++ " aria-hidden=" ++ dq ++ "true"
  ++ dq ++ ">".

Definition attribute (name value : string) : AttributeEvent :=
  {| attr_name := name; attr_value := value; attr_quote := Some "034"%char |}.

Definition markup_events : list AttributeEvent :=
  [attribute "class" "a b"; attribute "id" "x";
   attribute "data-foo" "c d"; attribute "aria-hidden" "true"].

(** [<div class=...>] with an empty quoted value. *)
Definition empty_class_input : string := "<div class=" ++ dq ++ dq ++ ">".

Definition empty_class_events : list AttributeEvent := [attribute "class" ""].

(** [const x = "btn btn-primary"; const y = 42;] *)
Definition script_input : string :=
  "const x = " ++ dq ++ "btn btn-primary" ++ dq ++ "; const y = 42;".

Definition token (label : string) (value : Value) : Token :=
  {| type_label := label; token_value := value |}.

(** The tokens acorn hands to [onToken] on it; the last one is the
    end-of-input token, which acorn reports like the others. *)
Definition script_tokens : list Token :=
  [token "const" (Str "const"); token "name" (Str "x"); token "=" (Str "=");
   token "string" (Str "btn btn-primary"); token ";" Undefined;
   token "const" (Str "const"); token "name" (Str "y"); token "=" (Str "=");
   token "num" (Num 42); token ";" Undefined; token "eof" Undefined].

(** A parser known on one document. *)
Definition markup_parser (input : string) (events : list AttributeEvent)
  : string -> list AttributeEvent :=
  fun code => if code =? input then events else [].

Definition script_parser (input : string) (tokens : list Token)
  : string -> Completion (list Token) :=
  fun code => if code =? input then Normal tokens else Throw ParseError.

Definition template_parser (input : string) (ast : Value)
  : string -> option string -> Completion Value :=
  fun template _ => if template =? input then Normal ast else Throw ParseError.

(** What the walk leaves on [<style>:global(.foo, .bar) {}</style>]. *)
Definition global_state : WalkState :=
  {| selectors :=
       [(".foo", {| sel_type := "PseudoClassSelector"; sel_name := Some "global" |});
        (".bar", {| sel_type := "PseudoClassSelector"; sel_name := Some "global" |})];
     identifiers := [];
     ids := [] |}.

(** What the walk leaves on [<div class={undeclaredVar}></div>]. *)
Definition undeclared_state : WalkState :=
  {| selectors := [("div", tagged "Element"); ("class", tagged "Attribute")];
     identifiers := ["undeclaredVar"];
     ids := [] |}.

End Inputs.

(** ** Where the selectors of the markup scanner come from *)

(** The attribute event [ev] puts the text [t] in the class set: as a piece
    of a [class] value, or, for an attribute that is neither [class], [id]
    nor reserved, as a piece of the value or the name that passes the
    filter. *)
Definition class_source (ATTRIBUTES : list string) (ev : AttributeEvent)
           (t : string) : Prop :=
  (attr_name ev = "class" /\ In t (split " " (attr_value ev)))
  \/ (attr_name ev <> "class" /\ attr_name ev <> "id"
      /\ ~ In (attr_name ev) ATTRIBUTES
      /\ shape_test t = true
      /\ (In t (split " " (attr_value ev)) \/ t = attr_name ev)).

(** Every identifier in use in [st] is still in use in [st']. *)
Definition keeps_identifiers (st st' : WalkState) : Prop :=
  forall n, In n (identifiers st) -> In n (identifiers st').

(** ** Exceptions of the template walker *)

(** The only exception [c] can end in is a TypeError. *)
Definition only_TypeError {A : Type} (c : Completion A) : Prop :=
  forall e, c = Throw e -> e = TypeError.

Module MoreExamples.
Import Examples.

(** [<div class></div>]: svelte gives an attribute without [=] the value
    [true]. *)
Definition valueless_class_template : string := "<div class></div>".

Definition valueless_class_ast : Value :=
  Ast [Element "div" [Attribute "class" (Bool true)] []] Undefined Undefined.

(** [<script>let cls = "foo bar"</script><div class={cls}></div>] *)
Definition cls_template : string :=
  "<script>let cls = " ++ dq ++ "foo bar" ++ dq
  ++ "</script><div class={cls}></div>".

Definition cls_ast : Value :=
  Ast [Element "div" [Attribute "class" (Arr [MustacheTag (Identifier "cls")])] []]
      Undefined
      (Script
         [node "VariableDeclaration"
            [("declarations",
              Arr [node "VariableDeclarator"
                     [("id", Identifier "cls"); ("init", Literal (Str "foo bar"))]]);
             ("kind", Str "let")]]).

(** What the walk leaves on it. *)
Definition cls_state : WalkState :=
  {| selectors :=
       [("div", tagged "Element"); ("class", tagged "Attribute");
        ("foo", tagged "Class"); ("bar", tagged "Class")];
     identifiers := ["cls"];
     ids := [("cls", ["foo"; "bar"])] |}.

(** [<div class="w-1/2 Red" data-x="y"></div>] *)
Definition div_template : string :=
  "<div class=" ++ dq ++ "w-1/2 Red" ++ dq ++ " data-x=" ++ dq ++ "y" ++ dq
  ++ "></div>".

Definition div_class : Value := Attribute "class" (Arr [Text "w-1/2 Red"]).

Definition div_element : Value :=
  Element "div" [div_class; Attribute "data-x" (Arr [Text "y"])] [].

Definition div_ast : Value := Ast [div_element] Undefined Undefined.

Definition div_state : WalkState :=
  {| selectors :=
       [("div", tagged "Element"); ("w-1/2", tagged "Class");
        ("class", tagged "Attribute"); ("data-x", tagged "Attribute");
        ("y", tagged "Class")];
     identifiers := [];
     ids := [] |}.

(** [<script>const label = "btn Primary wide"</script>] *)
Definition label_template : string :=
  "<script>const label = " ++ dq ++ "btn Primary wide" ++ dq ++ "</script>".

Definition label_literal : Value := Literal (Str "btn Primary wide").

Definition label_declarator : Value :=
  node "VariableDeclarator" [("id", Identifier "label"); ("init", label_literal)].

Definition label_ast : Value :=
  Ast [] Undefined
      (Script
         [node "VariableDeclaration"
            [("declarations", Arr [label_declarator]); ("kind", Str "const")]]).

Definition label_state : WalkState :=
  {| selectors := [("btn", tagged "Class"); ("wide", tagged "Class")];
     identifiers := [];
     ids := [("label", ["btn"; "Primary"; "wide"])] |}.

(** [const x = ["a b", "c d"].join(" ")]: the declarator. *)
Definition joined_declarator : Value :=
  node "VariableDeclarator"
    [("id", Identifier "x");
     ("init",
      node "CallExpression"
        [("callee",
          node "MemberExpression"
            [("object",
              node "ArrayExpression"
                [("elements", Arr [Literal (Str "a b"); Literal (Str "c d")])]);
             ("property", Identifier "join");
             ("computed", Bool false)]);
         ("arguments", Arr [Literal (Str " ")])])].

End MoreExamples.

(** * Properties *)

(** ** The regular expression *)

Section RegexFacts.

Lemma strip_colons_last (r : string) :
  last_char (strip_colons r) <> Some ":"%char.
Proof.
  induction r as [|c r IH]; simpl; [discriminate|].
  destruct (strip_colons r) as [|d t] eqn:E.
  - destruct (Ascii.eqb c ":") eqn:Ec; simpl; [discriminate|].
    intros H; injection H as ->. discriminate.
  - exact IH.
Qed.

Lemma strip_colons_some (r : string) :
  strip_colons r <> "" <-> exists c, In c (chars r) /\ c <> ":"%char.
Proof.
  induction r as [|c r IH]; simpl.
  - split; [congruence | intros (c & [] & _)].
  - destruct (strip_colons r) as [|d t] eqn:E.
    + destruct (Ascii.eqb_spec c ":") as [->|Hc].
      * split; [congruence|].
        intros (c & [<-|Hin] & Hne); [congruence|].
        apply IH. eauto.
      * split; [eauto | discriminate].
    + split; [|discriminate].
      intros _. destruct IH as [IH _].
      destruct IH as (x & Hx & Hne); [discriminate|eauto].
Qed.

Lemma class_run_chars (s : string) (c : ascii) :
  In c (chars (class_run s)) -> In c (chars s) /\ in_class c = true.
Proof.
  induction s as [|a s IH]; simpl; [tauto|].
  destruct (in_class a) eqn:Ea; simpl; [|tauto].
  intros [<-|H]; [auto|]. destruct (IH H); auto.
Qed.

Lemma match_at_some (s m : string) :
  match_at s = Some m ->
  m = strip_colons (class_run s) /\ m <> "".
Proof.
  unfold match_at. destruct (strip_colons (class_run s)); [discriminate|].
  intros H; injection H as <-. split; [reflexivity|discriminate].
Qed.

Lemma match_at_none (s : string) :
  match_at s = None -> strip_colons (class_run s) = "".
Proof.
  unfold match_at. destruct (strip_colons (class_run s)); [reflexivity|discriminate].
Qed.

Lemma strip_colons_length (r : string) :
  String.length (strip_colons r) <= String.length r.
Proof.
  induction r as [|c r IH]; simpl; [lia|].
  destruct (strip_colons r); [destruct (Ascii.eqb c ":")|]; simpl in *; lia.
Qed.

Lemma class_run_length (s : string) :
  String.length (class_run s) <= String.length s.
Proof.
  induction s as [|c s IH]; simpl; [lia|].
  destruct (in_class c); simpl; lia.
Qed.

Lemma class_run_is_prefix (s : string) : is_prefix (class_run s) s.
Proof.
  induction s as [|c s [rest IH]]; simpl; [now exists ""|].
  destruct (in_class c); [|now exists (String c s)].
  exists rest. simpl. now rewrite <- IH.
Qed.

Lemma class_run_all (s : string) : forallb in_class (chars (class_run s)) = true.
Proof.
  induction s as [|c s IH]; simpl; [reflexivity|].
  destruct (in_class c) eqn:E; simpl; [now rewrite E|reflexivity].
Qed.

Lemma prefix_class_run (s m : string) :
  is_prefix m s -> forallb in_class (chars m) = true -> is_prefix m (class_run s).
Proof.
  revert m. induction s as [|c s IH]; intros [|d m] [rest Heq] Hall;
    simpl in *; try discriminate; try (now eexists).
  injection Heq as <- ->. apply andb_prop in Hall as [Hd Hall]. rewrite Hd.
  destruct (IH m) as [r Hr]; [now exists rest | exact Hall|].
  exists r. simpl. now rewrite <- Hr.
Qed.

Lemma strip_colons_is_prefix (r : string) : is_prefix (strip_colons r) r.
Proof.
  induction r as [|c r [rest IH]]; simpl; [now exists ""|].
  destruct (strip_colons r) as [|d t] eqn:E.
  - destruct (Ascii.eqb c ":"); [now exists (String c r) | now exists r].
  - exists rest. simpl. simpl in IH. now rewrite <- IH.
Qed.

Lemma prefix_strip_colons (r m : string) :
  is_prefix m r -> m <> "" -> last_char m <> Some ":"%char ->
  is_prefix m (strip_colons r).
Proof.
  revert m. induction r as [|c r IH]; intros [|d m] [rest Heq] Hne Hlast;
    simpl in Heq; try discriminate; try congruence.
  injection Heq as <- ->. simpl.
  destruct m as [|e m].
  - assert (Hd : Ascii.eqb c ":" = false).
    { destruct (Ascii.eqb_spec c ":"); [subst; simpl in Hlast; congruence|reflexivity]. }
    simpl. destruct (strip_colons rest) as [|x t].
    + rewrite Hd. now exists "".
    + now exists (String x t).
  - destruct (IH (String e m)) as [r' Hr'];
      [now exists rest | discriminate | exact Hlast |].
    rewrite Hr'. simpl. exists r'. reflexivity.
Qed.

Lemma prefix_all_class (m r : string) :
  is_prefix m r -> forallb in_class (chars r) = true ->
  forallb in_class (chars m) = true.
Proof.
  revert r. induction m as [|c m IH]; intros r [rest ->] H; simpl in *; [reflexivity|].
  apply andb_prop in H as [-> H]. simpl. apply (IH (m ++ rest)); [now exists rest|exact H].
Qed.

Lemma prefix_trans (a b c : string) : is_prefix a b -> is_prefix b c -> is_prefix a c.
Proof.
  intros [r1 ->] [r2 ->]. exists (r1 ++ r2).
  induction a as [|x a IH]; simpl; [reflexivity | now rewrite IH].
Qed.

Lemma prefix_length (m s : string) : is_prefix m s -> String.length m <= String.length s.
Proof.
  intros [rest ->]. induction m as [|c m IH]; simpl; lia.
Qed.

(** [match_at] is the pattern: it returns the longest prefix the regular
    expression may match, and fails only when there is none. *)
Lemma match_at_longest (s m : string) :
  match_at s = Some m ->
  matches_prefix s m
  /\ forall m', matches_prefix s m' -> String.length m' <= String.length m.
Proof.
  intros H. apply match_at_some in H as [-> Hne]. split.
  - repeat split.
    + eapply prefix_trans; [apply strip_colons_is_prefix | apply class_run_is_prefix].
    + exact Hne.
    + eapply prefix_all_class; [apply strip_colons_is_prefix | apply class_run_all].
    + apply strip_colons_last.
  - intros m' (Hp & Hne' & Hall & Hlast).
    apply prefix_length, prefix_strip_colons; auto.
    apply prefix_class_run; auto.
Qed.

Lemma match_at_fails (s : string) :
  match_at s = None -> forall m, ~ matches_prefix s m.
Proof.
  intros H m (Hp & Hne & Hall & Hlast). apply match_at_none in H.
  assert (Hpre : is_prefix m (strip_colons (class_run s))).
  { apply prefix_strip_colons; auto. apply prefix_class_run; auto. }
  rewrite H in Hpre. destruct Hpre as [rest Heq].
  destruct m; [congruence | discriminate].
Qed.

(** A match found by [search]: where it ends and what it looks like. *)
Lemma search_some (s : string) (j : nat) (m : string) :
  search s = Some (j, m) ->
  m <> "" /\ last_char m <> Some ":"%char
  /\ j + String.length m <= String.length s.
Proof.
  revert j. induction s as [|a s IH]; intros j; simpl search.
  - discriminate.
  - destruct (match_at (String a s)) eqn:E.
    + intros H; injection H as <- <-. apply match_at_some in E as [-> Hne].
      repeat split; [exact Hne | apply strip_colons_last |].
      etransitivity; [apply strip_colons_length | apply class_run_length].
    + destruct (search s) as [[j' m']|]; [|discriminate].
      intros H; injection H as <- <-.
      destruct (IH j' eq_refl) as (? & ? & ?).
      repeat split; auto. simpl; lia.
Qed.

(** [search] succeeds exactly on the strings that hold a character of
    the class other than the colon. *)
Lemma search_succeeds_iff (s : string) :
  search s <> None <->
  exists c, In c (chars s) /\ in_class c = true /\ c <> ":"%char.
Proof.
  induction s as [|a s IH]; simpl search.
  - simpl. split; [congruence | intros (c & [] & _)].
  - destruct (match_at (String a s)) eqn:E.
    + split; [intros _ | discriminate].
      apply match_at_some in E as [-> Hne].
      apply strip_colons_some in Hne as (c & Hin & Hc).
      apply class_run_chars in Hin as [Hin Hcl]. eauto.
    + apply match_at_none in E.
      assert (Hno : ~ exists c, In c (chars (class_run (String a s))) /\ c <> ":"%char).
      { intros H. apply strip_colons_some in H. congruence. }
      split.
      * intros H. destruct (search s) as [[j m]|]; [|congruence].
        destruct IH as [IH _].
        destruct IH as (c & Hin & Hcl & Hc); [discriminate|].
        exists c. simpl. auto.
      * intros (c & Hin & Hcl & Hc). simpl in Hin.
        destruct Hin as [<-|Hin].
        -- exfalso. apply Hno. exists a. simpl. rewrite Hcl. simpl. auto.
        -- destruct IH as [_ IH].
           destruct (search s) as [[j m]|]; [discriminate|].
           exfalso. apply IH; eauto.
Qed.

Lemma length_drop (n : nat) (s : string) :
  String.length (drop n s) = String.length s - n.
Proof.
  revert s; induction n as [|n IH]; intros [|c s]; simpl; auto; lia.
Qed.

(** A successful [exec] with the [g] flag moves [lastIndex] forward and
    keeps it within the string. *)
Lemma exec_global_some (li : nat) (s : string) (i : nat) (m : string) (li' : nat) :
  exec true li s = (Some (i, m), li') ->
  m <> "" /\ last_char m <> Some ":"%char
  /\ li < li' /\ li' <= String.length s.
Proof.
  unfold exec; cbv beta iota zeta.
  destruct (Nat.ltb_spec (String.length s) li); [discriminate|].
  destruct (search (drop li s)) as [[j m']|] eqn:E; [|discriminate].
  intros Heq; injection Heq as <- <- <-.
  apply search_some in E as (Hne & Hlast & Hlen).
  rewrite length_drop in Hlen.
  repeat split; auto; [|lia].
  destruct m'; [congruence | simpl; lia].
Qed.

(** [match_all] runs [match_loop] to its end: more calls than
    [length s + 1] change nothing. *)
Lemma match_loop_fuel (s : string) (f1 f2 li : nat) :
  String.length s < li + f1 -> String.length s < li + f2 ->
  match_loop f1 li s = match_loop f2 li s.
Proof.
  revert f2 li. induction f1 as [|f1 IH]; intros [|f2] li H1 H2; simpl; auto.
  - unfold exec; cbv beta iota zeta.
    destruct (Nat.ltb_spec (String.length s) li); [reflexivity|lia].
  - unfold exec; cbv beta iota zeta.
    destruct (Nat.ltb_spec (String.length s) li); [reflexivity|lia].
  - destruct (exec true li s) as [[[i m]|] li'] eqn:E; [|reflexivity].
    apply exec_global_some in E as (_ & _ & Hlt & Hle).
    f_equal. apply IH; lia.
Qed.

Lemma match_all_fuel (s : string) (fuel : nat) :
  String.length s < fuel -> match_loop fuel 0 s = match_all s.
Proof. intros H. apply match_loop_fuel; simpl; lia. Qed.

Lemma match_loop_elements (s : string) (fuel li : nat) (m : string) :
  In m (match_loop fuel li s) ->
  m <> "" /\ last_char m <> Some ":"%char.
Proof.
  revert li. induction fuel as [|fuel IH]; intros li; simpl; [tauto|].
  destruct (exec true li s) as [[[i m']|] li'] eqn:E; [|simpl; tauto].
  intros [<-|Hin]; [|eauto].
  apply exec_global_some in E. tauto.
Qed.

End RegexFacts.

(** ** Sets and maps *)

Section CollectionFacts.

Lemma set_has_true (s : JsSet) (x : string) : set_has s x = true <-> In x s.
Proof.
  unfold set_has. rewrite existsb_exists. split.
  - intros (y & Hin & Heq). apply String.eqb_eq in Heq. now subst.
  - intros Hin. exists x. split; [exact Hin | apply String.eqb_refl].
Qed.

Lemma set_add_In (s : JsSet) (x y : string) :
  In y (set_add s x) <-> In y s \/ y = x.
Proof.
  unfold set_add. destruct (set_has s x) eqn:E.
  - apply set_has_true in E. split; [auto | intros [H| ->]; auto].
  - rewrite in_app_iff. simpl. intuition.
Qed.

Lemma fold_set_add_In (l : list string) (s : JsSet) (y : string) :
  In y (fold_left set_add l s) <-> In y s \/ In y l.
Proof.
  revert s. induction l as [|x l IH]; intros s; simpl; [tauto|].
  rewrite IH, set_add_In. intuition.
Qed.

(** The filtered [forEach] of the markup and script scanners. *)
Lemma fold_filtered_add_In (p : string -> bool) (l : list string) (s : JsSet) (y : string) :
  In y (fold_left (fun acc x => if p x then set_add acc x else acc) l s)
  <-> In y s \/ (In y l /\ p y = true).
Proof.
  revert s. induction l as [|x l IH]; intros s; simpl; [tauto|].
  rewrite IH. destruct (p x) eqn:E.
  - rewrite set_add_In. intuition; subst; auto.
  - intuition; subst; congruence.
Qed.

Lemma includes_true (l : list string) (x : string) : includes l x = true <-> In x l.
Proof. apply set_has_true. Qed.

Lemma includes_false (l : list string) (x : string) : includes l x = false <-> ~ In x l.
Proof.
  rewrite <- includes_true. destruct (includes l x); intuition congruence.
Qed.

Context {V : Type}.

Lemma map_get_set_same (m : JsMap V) (k : string) (v : V) :
  map_get (map_set m k v) k = Some v.
Proof.
  induction m as [|[k' v'] m IH]; simpl.
  - now rewrite String.eqb_refl.
  - destruct (String.eqb_spec k' k); simpl.
    + now rewrite String.eqb_refl.
    + destruct (String.eqb_spec k' k); [contradiction | exact IH].
Qed.

Lemma map_get_set_other (m : JsMap V) (k k' : string) (v : V) :
  k' <> k -> map_get (map_set m k v) k' = map_get m k'.
Proof.
  intros Hne. induction m as [|[k0 v0] m IH]; simpl.
  - destruct (String.eqb_spec k k'); congruence.
  - destruct (String.eqb_spec k0 k); simpl.
    + subst. destruct (String.eqb_spec k k'); [congruence|].
      reflexivity.
    + now rewrite IH.
Qed.

(** A key once set stays in the map. *)
Lemma map_set_keeps (m : JsMap V) (k k' : string) (v : V) :
  map_get m k' <> None -> map_get (map_set m k v) k' <> None.
Proof.
  intros H. destruct (String.eqb_spec k' k) as [->|Hne].
  - rewrite map_get_set_same. discriminate.
  - now rewrite map_get_set_other.
Qed.

Lemma map_get_In (m : JsMap V) (k : string) (v : V) :
  map_get m k = Some v -> In (k, v) m.
Proof.
  induction m as [|[k' v'] m IH]; simpl; [discriminate|].
  destruct (String.eqb_spec k' k).
  - intros H; injection H as ->. subst. auto.
  - auto.
Qed.

End CollectionFacts.

(** ** Strings *)

Section StringFacts.

Lemma last_char_In (s : string) (c : ascii) :
  last_char s = Some c -> In c (chars s).
Proof.
  induction s as [|a s IH]; simpl; [discriminate|].
  destruct s; [intros H; injection H; auto | auto].
Qed.

Lemma last_char_append_colon (p : string) :
  last_char (p ++ ":") = Some ":"%char.
Proof.
  induction p as [|a p IH]; simpl; [reflexivity|].
  destruct (p ++ ":") eqn:E; [destruct p; discriminate | exact IH].
Qed.

Lemma format_class_dot (m : string) : exists rest, format_class m = String "." rest.
Proof.
  unfold format_class. destruct m as [|c m]; simpl; [eauto|].
  destruct (Ascii.eqb_spec c "."); subst; eauto.
Qed.

Lemma format_class_last (m : string) :
  m <> "" -> last_char (format_class m) = last_char m.
Proof.
  unfold format_class. destruct (starts_with_dot m); [reflexivity|].
  destruct m; [congruence | reflexivity].
Qed.

Lemma split_nonempty (sep : ascii) (s : string) : split sep s <> [].
Proof.
  destruct s as [|c s]; simpl; [discriminate|].
  destruct (Ascii.eqb c sep); [discriminate|].
  destruct (split sep s); discriminate.
Qed.

(** Two separators in a row leave an empty piece between them. *)
Lemma split_double_separator_tl (sep : ascii) (a b : string) :
  In "" (tl (split sep (a ++ String sep (String sep b)))).
Proof.
  induction a as [|c a IH]; cbn [append split].
  - rewrite !Ascii.eqb_refl. simpl. auto.
  - destruct (Ascii.eqb c sep); cbn [tl].
    + destruct (split sep (a ++ String sep (String sep b))); simpl in *; tauto.
    + destruct (split sep (a ++ String sep (String sep b))); simpl in *; tauto.
Qed.

Lemma split_double_separator (sep : ascii) (a b : string) :
  In "" (split sep (a ++ String sep (String sep b))).
Proof.
  pose proof (split_double_separator_tl sep a b) as H.
  destruct (split sep (a ++ String sep (String sep b))); simpl in *; tauto.
Qed.

End StringFacts.

(** ** The token-shape filter and the regex scanner *)

Import SpecFilter.

Lemma shape_test_search (T : string) : shape_test T = true <-> search T <> None.
Proof.
  unfold shape_test, test, exec. simpl.
  destruct (search T) as [[j m]|]; simpl; split; congruence.
Qed.

(** C1, as the specification states it, fails: the filter is a [test] with
    an unanchored pattern, so it accepts [hover:] (the match is [hover]),
    which the stated condition rejects. *)
Lemma hover_colon_passes_filter :
  shape_test "hover:" = true /\ spec_shape_filter "hover:" = false.
Proof. split; reflexivity. Qed.

(** C1 (amended): a token passes the token-shape filter if and only if it
    holds at least one character of the class [[\w\-:./![\]]] other than
    the colon.  Every token the specification's condition accepts passes;
    [hover:], [hover:bg-red-500] and [w-1/2] pass; [:] and the empty token
    do not. *)
Theorem shape_filter_accepts_iff :
  (forall T : string,
      shape_test T = true <->
      exists c, In c (chars T) /\ in_class c = true /\ c <> ":"%char)
  /\ (forall T : string, spec_shape_filter T = true -> shape_test T = true)
  /\ shape_test "hover:" = true
  /\ shape_test "hover:bg-red-500" = true
  /\ shape_test "w-1/2" = true
  /\ shape_test ":" = false
  /\ shape_test "" = false.
Proof.
  assert (Hiff : forall T : string,
             shape_test T = true <->
             exists c, In c (chars T) /\ in_class c = true /\ c <> ":"%char).
  { intros T. rewrite shape_test_search. apply search_succeeds_iff. }
  split; [exact Hiff|].
  split; [|repeat split; reflexivity].
  intros T H. apply Hiff. unfold spec_shape_filter in H.
  apply andb_prop in H as [H Hlast]. apply andb_prop in H as [_ Hall].
  destruct (last_char T) as [c|] eqn:E; [|discriminate].
  exists c. pose proof (last_char_In _ _ E) as Hin.
  rewrite forallb_forall in Hall.
  repeat split; auto.
  intros ->. discriminate.
Qed.

(** C10: every element of the sequence [extractSelectorsWithRegex] returns
    begins with a dot, and none ends with a colon. *)
Theorem regex_selectors_shape (code sel : string) :
  In sel (extractSelectorsWithRegex code) ->
  (exists rest, sel = String "." rest) /\ (forall p, sel <> p ++ ":").
Proof.
  unfold extractSelectorsWithRegex. rewrite in_map_iff.
  intros (m & <- & Hin). apply fold_set_add_In in Hin as [[]|Hin].
  apply match_loop_elements in Hin as [Hne Hlast].
  split; [apply format_class_dot|].
  intros p Heq. apply Hlast.
  rewrite <- (format_class_last m Hne), Heq. apply last_char_append_colon.
Qed.

Lemma regex_selectors_shape_witness :
  In ".hover" (extractSelectorsWithRegex "hover: a::")
  /\ (exists rest, ".hover" = String "." rest) /\ (forall p, ".hover" <> p ++ ":").
Proof.
  split; [simpl; auto|].
  apply (regex_selectors_shape "hover: a::" ".hover"). simpl; auto.
Defined.

(** ** The markup scanner *)

Section MarkupFacts.

Variable ATTRIBUTES : list string.
Variable Parser : string -> list AttributeEvent.

Lemma onattribute_keeps (st : HtmlState) (ev : AttributeEvent) (x : string) :
  In x (html_selectors st) ->
  In x (html_selectors (onattribute ATTRIBUTES st ev)).
Proof.
  intros H. unfold onattribute.
  destruct (attr_name ev =? "class").
  { simpl. apply fold_set_add_In. auto. }
  destruct (attr_name ev =? "id"); [exact H|].
  destruct (includes ATTRIBUTES (attr_name ev)); [exact H|].
  simpl.
  assert (In x (fold_left
                  (fun acc selector =>
                     if shape_test selector then set_add acc selector else acc)
                  (split " " (attr_value ev)) (html_selectors st)))
    by (apply fold_filtered_add_In; auto).
  destruct (shape_test (attr_name ev)); [apply set_add_In|]; auto.
Qed.

Lemma fold_onattribute_keeps (events : list AttributeEvent) (st : HtmlState) (x : string) :
  In x (html_selectors st) ->
  In x (html_selectors (fold_left (onattribute ATTRIBUTES) events st)).
Proof.
  revert st. induction events as [|ev events IH]; intros st H; simpl; auto.
  apply IH, onattribute_keeps, H.
Qed.

(** Every piece of a [class] value enters the class set, unfiltered. *)
Lemma class_event_registers (events : list AttributeEvent) (st : HtmlState)
      (ev : AttributeEvent) (t : string) :
  In ev events -> attr_name ev = "class" ->
  In t (split " " (attr_value ev)) ->
  In t (html_selectors (fold_left (onattribute ATTRIBUTES) events st)).
Proof.
  revert st. induction events as [|e events IH]; intros st [];
    intros Hname Ht; simpl.
  - subst e. apply fold_onattribute_keeps.
    unfold onattribute. rewrite Hname. simpl.
    apply fold_set_add_In. auto.
  - apply IH; auto.
Qed.

(** C9: a [class] value is split on single spaces and no piece is
    filtered, so a value that is empty or holds two spaces in a row puts
    the empty token in the class set, and the returned sequence holds the
    bare string ["."]. *)
Theorem empty_class_token_yields_dot
        (code value : string) (quote : option ascii) :
  In {| attr_name := "class"; attr_value := value; attr_quote := quote |}
     (Parser code) ->
  value = "" \/ (exists a b, value = a ++ "  " ++ b) ->
  In "" (split " " value)
  /\ In "." (extractSelectorsFromHtml ATTRIBUTES Parser code).
Proof.
  intros Hev Hvalue.
  assert (Hsplit : In "" (split " " value)).
  { destruct Hvalue as [->|(a & b & ->)]; [simpl; auto|].
    apply split_double_separator. }
  split; [exact Hsplit|].
  unfold extractSelectorsFromHtml. apply in_or_app. right.
  change "." with (format_class ""). apply in_map.
  eapply class_event_registers; eauto.
Qed.

(** C4: on [<div class="a b" id="x" data-foo="c d" aria-hidden="true">],
    with [aria-hidden] among the reserved names and [data-foo] not, the
    scanner returns [#x], [.a], [.b], [.c], [.d], [.data-foo] and nothing
    else. *)
Theorem markup_example_selectors :
  In "aria-hidden" ATTRIBUTES ->
  ~ In "data-foo" ATTRIBUTES ->
  Parser Inputs.markup_input = Inputs.markup_events ->
  extractSelectorsFromHtml ATTRIBUTES Parser Inputs.markup_input
  = ["#x"; ".a"; ".b"; ".c"; ".d"; ".data-foo"].
Proof.
  intros Hin Hout HP.
  apply includes_true in Hin. apply includes_false in Hout.
  unfold extractSelectorsFromHtml. rewrite HP.
  unfold Inputs.markup_events, Inputs.attribute, onattribute.
  cbn -[includes]. rewrite Hout. cbn -[includes]. rewrite Hin.
  reflexivity.
Qed.

End MarkupFacts.

Lemma empty_class_token_yields_dot_witness :
  In "" (split " " "")
  /\ In "." (extractSelectorsFromHtml Constants.ATTRIBUTES
               (Inputs.markup_parser Inputs.empty_class_input Inputs.empty_class_events)
               Inputs.empty_class_input).
Proof.
  apply (empty_class_token_yields_dot Constants.ATTRIBUTES
           (Inputs.markup_parser Inputs.empty_class_input Inputs.empty_class_events)
           Inputs.empty_class_input "" (Some "034"%char)).
  - simpl. auto.
  - left. reflexivity.
Defined.

Lemma markup_example_selectors_witness :
  extractSelectorsFromHtml Constants.ATTRIBUTES
    (Inputs.markup_parser Inputs.markup_input Inputs.markup_events)
    Inputs.markup_input
  = ["#x"; ".a"; ".b"; ".c"; ".d"; ".data-foo"].
Proof.
  apply (markup_example_selectors Constants.ATTRIBUTES
           (Inputs.markup_parser Inputs.markup_input Inputs.markup_events)).
  - simpl. auto.
  - simpl. intros [H|[]]. discriminate H.
  - reflexivity.
Defined.

(** ** The script scanner *)

(** Tokens with another label than [string] leave the set as it is. *)
Lemma foldM_onToken_strings (tokens : list Token) (acc : JsSet) :
  foldM onToken tokens acc
  = foldM onToken (filter (fun tok => type_label tok =? "string") tokens) acc.
Proof.
  revert acc. induction tokens as [|tok tokens IH]; intros acc; [reflexivity|].
  cbn [filter]. destruct (type_label tok =? "string") eqn:E; cbn [foldM].
  - destruct (onToken acc tok); simpl; [apply IH | reflexivity].
  - unfold onToken at 1. rewrite E. cbn [bind]. apply IH.
Qed.

Lemma foldM_onToken_values (tokens tokens' : list Token) (acc : JsSet) :
  (forall tok, In tok tokens -> type_label tok = "string") ->
  (forall tok, In tok tokens' -> type_label tok = "string") ->
  map token_value tokens = map token_value tokens' ->
  foldM onToken tokens acc = foldM onToken tokens' acc.
Proof.
  revert tokens' acc. induction tokens as [|t tokens IH];
    intros [|t' tokens'] acc H H' Hv; try discriminate Hv; [reflexivity|].
  injection Hv as Hv1 Hv2. cbn [foldM].
  assert (He : onToken acc t = onToken acc t').
  { unfold onToken. rewrite (H t (or_introl eq_refl)), (H' t' (or_introl eq_refl)), Hv1.
    reflexivity. }
  rewrite He. destruct (onToken acc t'); simpl; [|reflexivity].
  apply IH; auto; intros tok Hin; [apply H | apply H']; now right.
Qed.

(** C5: on [const x = "btn btn-primary"; const y = 42;], whatever tokens
    the parser hands over besides (keywords, names, punctuation, the
    number 42, the end of input), as long as the only one labelled [string]
    is the literal ["btn btn-primary"], the script scanner returns [.btn]
    and [.btn-primary] and nothing else: the numeric literal adds no
    selector. *)
Theorem script_example_selectors
        (parse_js : string -> Completion (list Token)) (tokens : list Token) :
  parse_js Inputs.script_input = Normal tokens ->
  map token_value (filter (fun tok => type_label tok =? "string") tokens)
  = [Str "btn btn-primary"] ->
  extractSelectorsFromJS parse_js Inputs.script_input
  = Normal [".btn"; ".btn-primary"].
Proof.
  intros HP Hs. unfold extractSelectorsFromJS. rewrite HP. cbn [bind].
  rewrite foldM_onToken_strings.
  rewrite (foldM_onToken_values _ [Inputs.token "string" (Str "btn btn-primary")]).
  - reflexivity.
  - intros tok Hin. apply filter_In in Hin as [_ Hl]. now apply String.eqb_eq.
  - intros tok [<-|[]]. reflexivity.
  - exact Hs.
Qed.

Lemma script_example_selectors_witness :
  extractSelectorsFromJS
    (Inputs.script_parser Inputs.script_input Inputs.script_tokens)
    Inputs.script_input
  = Normal [".btn"; ".btn-primary"].
Proof.
  apply (script_example_selectors
           (Inputs.script_parser Inputs.script_input Inputs.script_tokens)
           Inputs.script_tokens).
  - reflexivity.
  - reflexivity.
Defined.

(** ** The template walker *)

Section WalkFacts.

Lemma bind_Normal {A B} (c : Completion A) (k : A -> Completion B) (b : B) :
  bind c k = Normal b -> exists a, c = Normal a /\ k a = Normal b.
Proof. destruct c as [a|e]; simpl; [eauto | discriminate]. Qed.

Lemma keeps_refl (st : WalkState) : keeps st st.
Proof. intros k H; exact H. Qed.

Lemma keeps_trans (a b c : WalkState) : keeps a b -> keeps b c -> keeps a c.
Proof. intros H1 H2 k H. apply H2, H1, H. Qed.

Lemma set_selector_keeps (st : WalkState) (k : string) (meta : Selector) :
  keeps st (set_selector st k meta).
Proof. intros k' H. simpl. apply map_set_keeps, H. Qed.

Lemma add_identifier_keeps (st : WalkState) (name : string) :
  keeps st (add_identifier st name).
Proof. intros k H; exact H. Qed.

Lemma set_id_keeps (st : WalkState) (id : string) (value : list string) :
  keeps st (set_id st id value).
Proof. intros k H; exact H. Qed.

Lemma set_selector_has (st : WalkState) (k : string) (meta : Selector) :
  map_get (selectors (set_selector st k meta)) k <> None.
Proof. simpl. rewrite map_get_set_same. discriminate. Qed.

Lemma fold_left_keeps {A} (f : WalkState -> A -> WalkState) (l : list A) :
  (forall st a, keeps st (f st a)) ->
  forall st, keeps st (fold_left f l st).
Proof.
  intros Hf. induction l as [|a l IH]; intros st; simpl; [apply keeps_refl|].
  eapply keeps_trans; [apply Hf | apply IH].
Qed.

Lemma foldM_keeps {A S} (proj : S -> WalkState) (f : S -> A -> Completion S)
      (l : list A) :
  (forall s a s', f s a = Normal s' -> keeps (proj s) (proj s')) ->
  forall s s', foldM f l s = Normal s' -> keeps (proj s) (proj s').
Proof.
  intros Hf. induction l as [|a l IH]; intros s s'; simpl.
  - intros H; injection H as <-. apply keeps_refl.
  - intros H. apply bind_Normal in H as (s1 & H1 & H2).
    eapply keeps_trans; [eapply Hf | eapply IH]; eauto.
Qed.

Lemma test_and_set_keeps (acc : WalkState * nat) (selector : string) :
  keeps (fst acc) (fst (test_and_set acc selector)).
Proof.
  destruct acc as [st li]. unfold test_and_set.
  destruct (test true li selector) as [[|] li']; simpl;
    [apply set_selector_keeps | apply keeps_refl].
Qed.

Lemma register_text_keeps (text : string) (acc : WalkState * nat) :
  keeps (fst acc) (fst (register_text text acc)).
Proof.
  unfold register_text. revert acc.
  induction (filter JsString.truthy (split_ws text)) as [|t l IH];
    intros acc; simpl; [apply keeps_refl|].
  eapply keeps_trans; [apply test_and_set_keeps | apply IH].
Qed.

Lemma value_part_keeps (acc : WalkState * nat) (value : Value) (acc' : WalkState * nat) :
  value_part acc value = Normal acc' -> keeps (fst acc) (fst acc').
Proof.
  unfold value_part. intros H. apply bind_Normal in H as (type & _ & H).
  destruct (Js.is_str type "MustacheTag").
  - destruct (Js.is_str _ "Identifier").
    + apply bind_Normal in H as (name & _ & H). injection H as <-.
      apply add_identifier_keeps.
    + injection H as <-. apply keeps_refl.
  - destruct (Js.is_str type "Text").
    + apply bind_Normal in H as (data & _ & H). injection H as <-.
      apply register_text_keeps.
    + injection H as <-. apply keeps_refl.
Qed.

Lemma bind_element_keeps (id : Value) (st : WalkState) (element : Value) (st' : WalkState) :
  bind_element id st element = Normal st' -> keeps st st'.
Proof.
  unfold bind_element. intros H.
  apply bind_Normal in H as (type & _ & H).
  apply bind_Normal in H as (st1 & H1 & H).
  assert (K1 : keeps st st1).
  { destruct (Js.is_str type "Literal").
    - apply bind_Normal in H1 as (name & _ & H1). injection H1 as <-.
      apply set_id_keeps.
    - injection H1 as <-. apply keeps_refl. }
  eapply keeps_trans; [exact K1|].
  destruct (_ && _).
  - apply bind_Normal in H as (name & _ & H). injection H as <-.
    apply set_id_keeps.
  - injection H as <-. apply keeps_refl.
Qed.

Lemma on_identifier_keeps (node parent : Value) (st st' : WalkState) :
  on_identifier node parent st = Normal st' -> keeps st st'.
Proof.
  unfold on_identifier. destruct (Js.is_str _ "Identifier");
    [|intros H; injection H as <-; apply keeps_refl].
  intros H. apply bind_Normal in H as (init & _ & H).
  apply bind_Normal in H as (st1 & H1 & H).
  assert (K1 : keeps st st1).
  { destruct (Js.is_str _ "Literal").
    - apply bind_Normal in H1 as (name & _ & H1). injection H1 as <-.
      apply set_id_keeps.
    - injection H1 as <-. apply keeps_refl. }
  eapply keeps_trans; [exact K1|].
  destruct (Js.is_str _ "CallExpression");
    [|injection H as <-; apply keeps_refl].
  destruct (Js.opt _ "elements"); try discriminate;
    try (injection H as <-; apply keeps_refl).
  eapply (foldM_keeps (fun s => s)); [|exact H].
  intros s a s'. apply bind_element_keeps.
Qed.

Lemma on_element_keeps (node : Value) (st st' : WalkState) :
  on_element node st = Normal st' -> keeps st st'.
Proof.
  unfold on_element. destruct (Js.is_str _ _); intros H.
  - apply bind_Normal in H as (k & _ & H). injection H as <-.
    apply set_selector_keeps.
  - injection H as <-. apply keeps_refl.
Qed.

Lemma parts_keep (parts : list Value) (acc acc' : WalkState * nat) :
  foldM value_part parts acc = Normal acc' -> keeps (fst acc) (fst acc').
Proof. apply (foldM_keeps fst). apply value_part_keeps. Qed.

Lemma on_class_attribute_keeps (node : Value) (acc acc' : WalkState * nat) :
  on_class_attribute node acc = Normal acc' -> keeps (fst acc) (fst acc').
Proof.
  unfold on_class_attribute. destruct (_ && _);
    [|intros H; injection H as <-; apply keeps_refl].
  destruct (Js.get node "value"); try discriminate;
    try (intros H; injection H as <-; apply keeps_refl).
  apply parts_keep.
Qed.

Lemma on_attribute_keeps (node : Value) (acc acc' : WalkState * nat) :
  on_attribute node acc = Normal acc' -> keeps (fst acc) (fst acc').
Proof.
  unfold on_attribute. destruct (Js.is_str _ _);
    [|intros H; injection H as <-; apply keeps_refl].
  intros H. apply bind_Normal in H as (k & _ & H).
  eapply keeps_trans; [apply (set_selector_keeps _ k (tagged "Attribute"))|].
  destruct (Js.get node "value"); try discriminate;
    try (injection H as <-; apply keeps_refl).
  apply parts_keep in H. exact H.
Qed.

Lemma on_class_directive_keeps (node : Value) (st st' : WalkState) :
  on_class_directive node st = Normal st' -> keeps st st'.
Proof.
  unfold on_class_directive. destruct (Js.is_str _ _); intros H.
  - apply bind_Normal in H as (k & _ & H). injection H as <-.
    apply set_selector_keeps.
  - injection H as <-. apply keeps_refl.
Qed.

Lemma on_literal_keeps (node : Value) (st st' : WalkState) :
  on_literal node st = Normal st' -> keeps st st'.
Proof.
  unfold on_literal. destruct (Js.is_str _ _);
    [|intros H; injection H as <-; apply keeps_refl].
  destruct (Js.get node "value");
    try (intros H; injection H as <-; apply keeps_refl).
  intros H; injection H as <-. apply fold_left_keeps.
  intros st0 sel. destruct (_ =? _); [apply set_selector_keeps | apply keeps_refl].
Qed.

Lemma on_template_element_keeps (node : Value) (acc acc' : WalkState * nat) :
  on_template_element node acc = Normal acc' -> keeps (fst acc) (fst acc').
Proof.
  unfold on_template_element. destruct (Js.is_str _ _);
    [|intros H; injection H as <-; apply keeps_refl].
  intros H. apply bind_Normal in H as (value & _ & H).
  apply bind_Normal in H as (raw & _ & H).
  destruct raw; try (injection H as <-; apply keeps_refl).
  injection H as <-. apply register_text_keeps.
Qed.

Lemma on_global_keeps (node : Value) (st st' : WalkState) :
  on_global node st = Normal st' -> keeps st st'.
Proof.
  unfold on_global. destruct (_ && _);
    [|intros H; injection H as <-; apply keeps_refl].
  intros H. apply bind_Normal in H as (children & _ & H).
  apply bind_Normal in H as (first & _ & H).
  destruct (Js.nullish first); [injection H as <-; apply keeps_refl|].
  apply bind_Normal in H as (value & _ & H). injection H as <-.
  apply fold_left_keeps. intros st0 sel. apply set_selector_keeps.
Qed.

Lemma fold_global_registers (pieces : list string) (st : WalkState) (piece : string) :
  In piece pieces ->
  map_get
    (selectors
       (fold_left
          (fun st selector =>
             set_selector st (trim selector)
               {| sel_type := "PseudoClassSelector"; sel_name := Some "global" |})
          pieces st))
    (trim piece) <> None.
Proof.
  revert st. induction pieces as [|p pieces IH]; intros st []; simpl.
  - subst p.
    apply (fold_left_keeps
             (fun st selector =>
                set_selector st (trim selector)
                  {| sel_type := "PseudoClassSelector"; sel_name := Some "global" |})).
    + intros st0 sel. apply set_selector_keeps.
    + apply set_selector_has.
  - apply IH. assumption.
Qed.

(** The [:global(...)] block registers every trimmed piece of the raw
    text, whatever it holds. *)
Lemma on_global_registers (node : Value) (raw : string) (st st' : WalkState)
      (piece : string) :
  global_selector_node node raw ->
  on_global node st = Normal st' ->
  In piece (split "," raw) ->
  map_get (selectors st') (trim piece) <> None.
Proof.
  intros (Htype & Hname & Hraw). unfold on_global.
  rewrite Htype, Hname.
  change (Js.is_str (Str "PseudoClassSelector") "PseudoClassSelector"
          && Js.is_str (Str "global") "global") with true.
  cbv iota.
  destruct node as [| | | | | |props]; try discriminate Htype.
  unfold Js.prop. cbn [Js.nullish bind].
  destruct (Js.index0 (Js.get (Obj props) "children")) as [| | | | | |fs] eqn:E0;
    try discriminate Hraw.
  destruct (Js.get (Obj props) "children") as [| | | | | |cs];
    try discriminate E0;
    cbn [Js.nullish bind]; rewrite Hraw; cbn [Js.as_string bind];
    intros H; injection H as <-; apply fold_global_registers.
Qed.

Lemma enter_keeps (node parent : Value) (st st' : WalkState) :
  enter node parent st = Normal st' -> keeps st st'.
Proof.
  unfold enter. intros H.
  apply bind_Normal in H as (s1 & H1 & H). apply on_identifier_keeps in H1.
  apply bind_Normal in H as (s2 & H2 & H). apply on_element_keeps in H2.
  apply bind_Normal in H as (a3 & H3 & H). apply on_class_attribute_keeps in H3.
  apply bind_Normal in H as (a4 & H4 & H). apply on_attribute_keeps in H4.
  apply bind_Normal in H as (s5 & H5 & H). apply on_class_directive_keeps in H5.
  apply bind_Normal in H as (s6 & H6 & H). apply on_global_keeps in H6.
  apply bind_Normal in H as (s7 & H7 & H). apply on_literal_keeps in H7.
  apply bind_Normal in H as (a8 & H8 & H). apply on_template_element_keeps in H8.
  injection H as <-. simpl in *.
  repeat (eapply keeps_trans; [eassumption|]). apply keeps_refl.
Qed.

(** Entering a [:global(...)] node registers every trimmed piece. *)
Lemma enter_global_registers (node parent : Value) (raw : string)
      (st st' : WalkState) (piece : string) :
  global_selector_node node raw ->
  enter node parent st = Normal st' ->
  In piece (split "," raw) ->
  map_get (selectors st') (trim piece) <> None.
Proof.
  intros Hnode H Hin. unfold enter in H.
  apply bind_Normal in H as (s1 & _ & H).
  apply bind_Normal in H as (s2 & _ & H).
  apply bind_Normal in H as (a3 & _ & H).
  apply bind_Normal in H as (a4 & _ & H).
  apply bind_Normal in H as (s5 & _ & H).
  apply bind_Normal in H as (s6 & H6 & H).
  apply bind_Normal in H as (s7 & H7 & H). apply on_literal_keeps in H7.
  apply bind_Normal in H as (a8 & H8 & H). apply on_template_element_keeps in H8.
  injection H as <-. simpl in *.
  apply H8, H7. eapply on_global_registers; eauto.
Qed.

Lemma calls_keep (calls : list (Value * Value)) (st st' : WalkState) :
  foldM (fun st call => enter (fst call) (snd call) st) calls st = Normal st' ->
  keeps st st'.
Proof.
  apply (foldM_keeps (fun s => s)). intros s a s'. apply enter_keeps.
Qed.

(** What a visited [:global(...)] node registers is there when the walk
    is over. *)
Lemma walk_global_registers (ast node parent : Value) (raw : string)
      (st : WalkState) (piece : string) :
  walk ast = Normal st ->
  In (node, parent) (visits Null ast) ->
  global_selector_node node raw ->
  In piece (split "," raw) ->
  map_get (selectors st) (trim piece) <> None.
Proof.
  unfold walk. intros Hwalk Hin Hnode Hpiece.
  revert Hwalk Hin. generalize empty_state as s0.
  induction (visits Null ast) as [|call calls IH]; intros s0 Hwalk []; simpl in Hwalk.
  - subst call. apply bind_Normal in Hwalk as (s1 & H1 & Hrest).
    apply calls_keep in Hrest. apply Hrest.
    eapply enter_global_registers; eauto.
  - apply bind_Normal in Hwalk as (s1 & _ & Hrest). eapply IH; eauto.
Qed.

Lemma resolve_identifier_keeps (ids : JsMap (list string))
      (sels : JsMap Selector) (id k : string) :
  map_get sels k <> None -> map_get (resolve_identifier ids sels id) k <> None.
Proof.
  unfold resolve_identifier. destruct (map_get ids id) as [value|]; [|auto].
  revert sels. induction value as [|v value IH]; intros sels H; simpl; [exact H|].
  apply IH, map_set_keeps, H.
Qed.

Lemma resolve_keeps (st : WalkState) (k : string) :
  map_get (selectors st) k <> None -> map_get (resolve st) k <> None.
Proof.
  unfold resolve. generalize (selectors st) as sels.
  induction (identifiers st) as [|id l IH]; intros sels H; simpl; [exact H|].
  apply IH, resolve_identifier_keeps, H.
Qed.

Lemma resolve_identifier_unbound (ids : JsMap (list string))
      (sels : JsMap Selector) (id : string) :
  map_get ids id = None -> resolve_identifier ids sels id = sels.
Proof. unfold resolve_identifier. now intros ->. Qed.

(** Resolution does not see the identifiers that have no binding. *)
Lemma resolve_forget (st : WalkState) (id : string) :
  map_get (ids st) id = None -> resolve (forget id st) = resolve st.
Proof.
  intros Hid. unfold resolve, forget. cbn [selectors identifiers ids].
  generalize (selectors st) as sels.
  induction (identifiers st) as [|x l IH]; intros sels; simpl; [reflexivity|].
  destruct (String.eqb_spec x id) as [->|Hne]; simpl.
  - rewrite (resolve_identifier_unbound _ _ _ Hid). apply IH.
  - apply IH.
Qed.

End WalkFacts.

Section TemplateFacts.
Import Examples.

Variable CLASS_SELECTOR : list string.
Variable parse : string -> option string -> Completion Value.

Lemma extract_of_walk (template : string) (filename : option string)
      (ast : Value) (st : WalkState) :
  parse template filename = Normal ast ->
  walk ast = Normal st ->
  extractSelectorsFromSvelte CLASS_SELECTOR parse template filename
  = Normal (finish CLASS_SELECTOR st).
Proof.
  intros HP HW. unfold extractSelectorsFromSvelte. now rewrite HP; simpl; rewrite HW.
Qed.

(** C3: for the template with [const x = cva(["a b", cond && "c d"])] and
    [<div class={x}>], the returned sequence holds [.a], [.b], [.c] and
    [.d]. *)
Theorem cva_binding_selectors (filename : option string) :
  In "Class" CLASS_SELECTOR ->
  parse cva_template filename = Normal cva_ast ->
  exists out,
    extractSelectorsFromSvelte CLASS_SELECTOR parse cva_template filename
    = Normal out
    /\ In ".a" out /\ In ".b" out /\ In ".c" out /\ In ".d" out.
Proof.
  intros HC HP. apply includes_true in HC.
  assert (HW : walk cva_ast
               = Normal {| selectors :=
                             [("div", tagged "Element");
                              ("class", tagged "Attribute");
                              ("a", tagged "Class"); ("b", tagged "Class");
                              ("c", tagged "Class"); ("d", tagged "Class")];
                           identifiers := ["x"];
                           ids := [] |}) by reflexivity.
  eexists. split; [exact (extract_of_walk _ _ _ _ HP HW)|].
  unfold finish, resolve. cbn -[includes]. rewrite HC. auto 10.
Qed.

(** C7: an identifier used as an attribute value that has no entry in the
    binding table is dropped at the resolution step: the call returns, and
    what it returns is what it returns without that identifier among the
    identifiers in use. *)
Theorem unresolved_identifiers_dropped
        (template : string) (filename : option string) (ast : Value)
        (st : WalkState) (id : string) :
  parse template filename = Normal ast ->
  walk ast = Normal st ->
  In id (identifiers st) ->
  map_get (ids st) id = None ->
  extractSelectorsFromSvelte CLASS_SELECTOR parse template filename
  = Normal (finish CLASS_SELECTOR (forget id st))
  /\ ~ In id (identifiers (forget id st)).
Proof.
  intros HP HW _ Hid. split.
  - rewrite (extract_of_walk _ _ _ _ HP HW). unfold finish.
    now rewrite resolve_forget.
  - unfold forget. cbn [identifiers]. rewrite filter_In.
    intros [_ H]. now rewrite String.eqb_refl in H.
Qed.

End TemplateFacts.

(** C2, at [<div class="c1 c2"></div>]: [c2] is a non-empty token of the
    text part and passes the token-shape filter, yet the mapping holds no
    entry for it when the walk is over.  [CLASS_REGEX] has the [g] flag:
    the test of [c1] leaves [lastIndex] at 2, from where the test of [c2]
    fails. *)
Theorem class_text_second_token_dropped :
  In "c2" (filter JsString.truthy (split_ws "c1 c2"))
  /\ shape_test "c2" = true
  /\ test true 0 "c1" = (true, 2)
  /\ test true 2 "c2" = (false, 0)
  /\ exists st,
      walk Examples.two_classes_ast = Normal st
      /\ map_get (selectors st) "c1" = Some (tagged "Class")
      /\ map_get (selectors st) "c2" = None
      /\ extractSelectorsFromSvelte Constants.CLASS_SELECTOR
           (Inputs.template_parser Examples.two_classes_template
                                   Examples.two_classes_ast)
           Examples.two_classes_template None
         = Normal ["div"; ".c1"; "class"].
Proof.
  split; [simpl; auto|]. do 3 (split; [reflexivity|]).
  eexists. split; [reflexivity|]. repeat split; reflexivity.
Qed.

Lemma cva_binding_selectors_witness :
  exists out,
    extractSelectorsFromSvelte Constants.CLASS_SELECTOR
      (Inputs.template_parser Examples.cva_template Examples.cva_ast)
      Examples.cva_template None
    = Normal out
    /\ In ".a" out /\ In ".b" out /\ In ".c" out /\ In ".d" out.
Proof.
  apply (cva_binding_selectors Constants.CLASS_SELECTOR
           (Inputs.template_parser Examples.cva_template Examples.cva_ast) None).
  - simpl. auto.
  - reflexivity.
Defined.

(** C6, as the specification states it, fails: this template holds the
    style rule [:global(.foo, .bar)] and the script
    [const s = ".foo"]; the literal, visited after the style sheet,
    re-tags the text [.foo] as a class, and the output has [..foo] in
    place of [.foo]. *)
Lemma global_selector_retagged :
  In (Examples.GlobalSelector ".foo, .bar",
      Examples.SelectorOf (Examples.GlobalSelector ".foo, .bar"))
     (visits Null Examples.retagged_ast)
  /\ extractSelectorsFromSvelte Constants.CLASS_SELECTOR
       (Inputs.template_parser Examples.retagged_template Examples.retagged_ast)
       Examples.retagged_template None
     = Normal ["..foo"; ".bar"]
  /\ ~ In ".foo" ["..foo"; ".bar"].
Proof.
  split; [|split; [reflexivity|]].
  - vm_compute. repeat (first [left; reflexivity | right]).
  - simpl. intros [H|[H|[]]]; discriminate H.
Qed.

Lemma unresolved_identifiers_dropped_witness :
  extractSelectorsFromSvelte Constants.CLASS_SELECTOR
    (Inputs.template_parser Examples.undeclared_template Examples.undeclared_ast)
    Examples.undeclared_template None
  = Normal ["div"; "class"]
  /\ ~ In "undeclaredVar" (identifiers (forget "undeclaredVar" Inputs.undeclared_state)).
Proof.
  apply (unresolved_identifiers_dropped Constants.CLASS_SELECTOR
           (Inputs.template_parser Examples.undeclared_template Examples.undeclared_ast)
           Examples.undeclared_template None
           Examples.undeclared_ast Inputs.undeclared_state "undeclaredVar").
  - reflexivity.
  - reflexivity.
  - simpl. auto.
  - reflexivity.
Defined.

(** * Further properties of the extractors *)

(** ** extractSelectorsWithRegex (lines 82-97) *)

Section RegexScanner.

Lemma class_run_fixed (s : string) :
  forallb in_class (chars s) = true -> class_run s = s.
Proof.
  induction s as [|c s IH]; simpl; [reflexivity|].
  intros H. apply andb_prop in H as [-> H]. now rewrite IH.
Qed.

Lemma strip_colons_fixed (s : string) :
  last_char s <> Some ":"%char -> strip_colons s = s.
Proof.
  induction s as [|c s IH]; simpl; [reflexivity|].
  destruct s as [|d s].
  - simpl. intros H. destruct (Ascii.eqb_spec c ":"); [subst; congruence|reflexivity].
  - intros H. rewrite (IH H). reflexivity.
Qed.

Lemma drop_all (s : string) : drop (String.length s) s = "".
Proof. induction s as [|c s IH]; simpl; auto. Qed.

Lemma drop_chars (n : nat) (s : string) (c : ascii) :
  In c (chars (drop n s)) -> In c (chars s).
Proof.
  revert s. induction n as [|n IH]; intros [|a s]; simpl; auto.
Qed.

Lemma search_matches (s : string) (j : nat) (m : string) :
  search s = Some (j, m) -> matches_prefix (drop j s) m.
Proof.
  revert j. induction s as [|a s IH]; intros j; simpl search; [discriminate|].
  destruct (match_at (String a s)) eqn:E.
  - intros H; injection H as <- <-. now apply match_at_longest in E as [E _].
  - destruct (search s) as [[j' m']|]; [|discriminate].
    intros H; injection H as <- <-. simpl. now apply IH.
Qed.

Lemma match_loop_class (s : string) (fuel li : nat) (m : string) :
  In m (match_loop fuel li s) -> forallb in_class (chars m) = true.
Proof.
  revert li. induction fuel as [|fuel IH]; intros li; simpl; [tauto|].
  unfold exec; cbv beta iota zeta.
  destruct (Nat.ltb (String.length s) li); [simpl; tauto|].
  destruct (search (drop li s)) as [[j m']|] eqn:E; [|simpl; tauto].
  intros [<-|Hin]; [|eauto].
  now apply search_matches in E as (_ & _ & Hall & _).
Qed.

Lemma format_class_class (m : string) :
  forallb in_class (chars m) = true ->
  forallb in_class (chars (format_class m)) = true.
Proof.
  unfold format_class. destruct (starts_with_dot m); [auto|]. simpl. auto.
Qed.

Lemma format_class_truthy (m : string) : JsString.truthy (format_class m) = true.
Proof. destruct (format_class_dot m) as [rest ->]. reflexivity. Qed.

(** X1: every selector the regex scanner returns is a well-formed token
    itself: not empty, made of characters of the class only, and not ending
    in a colon. *)
Theorem regex_selectors_well_formed (code sel : string) :
  In sel (extractSelectorsWithRegex code) ->
  SpecFilter.spec_shape_filter sel = true.
Proof.
  unfold extractSelectorsWithRegex. rewrite in_map_iff.
  intros (m & <- & Hin). apply fold_set_add_In in Hin as [[]|Hin].
  pose proof (match_loop_class _ _ _ _ Hin) as Hall.
  apply match_loop_elements in Hin as [Hne Hlast].
  unfold SpecFilter.spec_shape_filter.
  rewrite format_class_truthy, (format_class_class _ Hall), (format_class_last _ Hne).
  simpl. destruct (last_char m) as [c|] eqn:E.
  - destruct (Ascii.eqb_spec c ":"); [subst; congruence|reflexivity].
  - destruct m as [|a m]; [congruence|].
    exfalso. clear -E. revert a E. induction m as [|b m IH]; intros a E; simpl in E.
    + discriminate.
    + apply (IH b). exact E.
Qed.

Lemma regex_selectors_well_formed_witness :
  In ".w-1/2" (extractSelectorsWithRegex "class='w-1/2 hover:'")
  /\ SpecFilter.spec_shape_filter ".w-1/2" = true.
Proof.
  split; [simpl; auto|].
  apply (regex_selectors_well_formed "class='w-1/2 hover:'" ".w-1/2"). simpl; auto.
Defined.

(** X2: the regex scanner returns nothing exactly on the inputs the
    token-shape filter rejects: the empty string and the strings with no
    character of the class other than the colon. *)
Theorem regex_empty_iff_filter_rejects (code : string) :
  extractSelectorsWithRegex code = [] <-> shape_test code = false.
Proof.
  unfold extractSelectorsWithRegex, match_all. cbn [match_loop].
  unfold exec; cbv beta iota zeta. cbn [Nat.ltb Nat.leb drop].
  split.
  - intros H. destruct (shape_test code) eqn:E; [|reflexivity].
    apply shape_test_search in E.
    destruct (search code) as [[j m]|]; [|congruence].
    exfalso. apply map_eq_nil in H.
    assert (Hin : In m (fold_left set_add
                          (m :: match_loop (String.length code) (0 + j + String.length m) code)
                          [])) by (apply fold_set_add_In; simpl; auto).
    rewrite H in Hin. exact Hin.
  - intros H. destruct (search code) as [[j m]|] eqn:E; [|reflexivity].
    assert (shape_test code = true) by (apply shape_test_search; congruence).
    congruence.
Qed.

(** X3: a token that is well formed as a whole (class characters only, not
    ending in a colon) is returned whole and alone, with a dot in front
    unless it has one. *)
Theorem regex_whole_token (T : string) :
  SpecFilter.spec_shape_filter T = true ->
  extractSelectorsWithRegex T = [format_class T].
Proof.
  unfold SpecFilter.spec_shape_filter. intros H.
  apply andb_prop in H as [H Hlast]. apply andb_prop in H as [Hne Hall].
  assert (Hl : last_char T <> Some ":"%char).
  { destruct (last_char T) as [c|]; [|discriminate].
    intros Heq; injection Heq as ->. discriminate. }
  assert (Hm : match_at T = Some T).
  { unfold match_at. rewrite (class_run_fixed _ Hall), (strip_colons_fixed _ Hl).
    destruct T; [discriminate|reflexivity]. }
  assert (Hs : search T = Some (0, T)).
  { destruct T; [discriminate|]. simpl search. now rewrite Hm. }
  unfold extractSelectorsWithRegex, match_all. cbn [match_loop].
  unfold exec at 1; cbv beta iota zeta. cbn [Nat.ltb Nat.leb drop]. rewrite Hs.
  destruct T as [|c T]; [discriminate|]. cbn [String.length match_loop].
  unfold exec; cbv beta iota zeta. cbn [Nat.add].
  change (S (String.length T)) with (String.length (String c T)).
  rewrite Nat.ltb_irrefl, drop_all. reflexivity.
Qed.

Lemma regex_whole_token_witness :
  extractSelectorsWithRegex "hover:bg-red-500" = [".hover:bg-red-500"].
Proof. apply (regex_whole_token "hover:bg-red-500"). reflexivity. Defined.

Lemma class_run_app_sep (a b : string) (c : ascii) :
  in_class c = false -> class_run (a ++ String c b) = class_run a.
Proof.
  intros Hc. induction a as [|x a IH]; simpl; [now rewrite Hc|].
  destruct (in_class x); [now rewrite IH | reflexivity].
Qed.

Lemma match_at_app_sep (a b : string) (c : ascii) :
  in_class c = false -> match_at (a ++ String c b) = match_at a.
Proof. intros Hc. unfold match_at. now rewrite class_run_app_sep. Qed.

(** A character outside the class ends every match on its left. *)
Lemma search_app_sep (a b : string) (c : ascii) :
  in_class c = false ->
  search (a ++ String c b)
  = match search a with
    | Some r => Some r
    | None =>
        match search b with
        | Some (j, m) => Some (String.length a + 1 + j, m)
        | None => None
        end
    end.
Proof.
  intros Hc. induction a as [|x a IH].
  - pose proof (match_at_app_sep "" b c Hc) as H0.
    change (match_at (String c b) = None) in H0.
    cbn [append String.length Nat.add]. simpl search. rewrite H0.
    destruct (search b) as [[j m]|]; reflexivity.
  - cbn [append]. simpl search.
    change (String x (a ++ String c b)) with (String x a ++ String c b).
    rewrite (match_at_app_sep (String x a) b c Hc).
    destruct (match_at (String x a)); [reflexivity|].
    rewrite IH. destruct (search a) as [[j m]|]; [reflexivity|].
    destruct (search b) as [[j m]|]; reflexivity.
Qed.

Lemma drop_app_le (n : nat) (a r : string) :
  n <= String.length a -> drop n (a ++ r) = drop n a ++ r.
Proof.
  revert a. induction n as [|n IH]; intros [|x a] H; simpl in *; auto; try lia.
  apply IH. lia.
Qed.

Lemma drop_app_gt (k : nat) (a r : string) :
  drop (String.length a + k) (a ++ r) = drop k r.
Proof. induction a as [|x a IH]; simpl; auto. Qed.

Lemma length_app (a b : string) :
  String.length (a ++ b) = String.length a + String.length b.
Proof. induction a as [|x a IH]; simpl; auto. Qed.

(** Past the separator the loop runs as on the right part alone. *)
Lemma match_loop_right (a b : string) (c : ascii) (fuel k : nat) :
  match_loop fuel (String.length a + 1 + k) (a ++ String c b)
  = match_loop fuel k b.
Proof.
  revert k. induction fuel as [|fuel IH]; intros k; simpl; [reflexivity|].
  unfold exec; cbv beta iota zeta.
  rewrite length_app. cbn [String.length].
  replace (String.length a + 1 + k) with (String.length a + S k) by lia.
  rewrite drop_app_gt. cbn [drop].
  destruct (Nat.ltb_spec (String.length b) k);
    destruct (Nat.ltb_spec (String.length a + S (String.length b))
                           (String.length a + S k)); try lia; [reflexivity|].
  destruct (search (drop k b)) as [[j m]|]; [|reflexivity].
  f_equal.
  replace (String.length a + S k + j + String.length m)
    with (String.length a + 1 + (k + j + String.length m)) by lia.
  apply IH.
Qed.

Lemma match_loop_app_sep (a b : string) (c : ascii) (fuel li : nat) :
  in_class c = false ->
  li <= String.length a ->
  String.length a + 1 + String.length b < li + fuel ->
  match_loop fuel li (a ++ String c b)
  = (match_loop fuel li a ++ match_loop fuel 0 b)%list.
Proof.
  intros Hc. revert li. induction fuel as [|fuel IH]; intros li Hli Hfuel; [lia|].
  remember (match_loop (S fuel) 0 b) as rb eqn:Hrb.
  cbn [match_loop].
  assert (He : exec true li (a ++ String c b)
               = match search (drop li a) with
                 | Some (j, m) => (Some (li + j, m), li + j + String.length m)
                 | None =>
                     match search b with
                     | Some (j, m) =>
                         (Some (li + (String.length (drop li a) + 1 + j), m),
                          li + (String.length (drop li a) + 1 + j) + String.length m)
                     | None => (None, 0)
                     end
                 end).
  { unfold exec; cbv beta iota zeta. rewrite length_app. cbn [String.length].
    destruct (Nat.ltb_spec (String.length a + S (String.length b)) li); [lia|].
    rewrite (drop_app_le _ _ _ Hli), (search_app_sep _ _ _ Hc).
    destruct (search (drop li a)) as [[j m]|]; [reflexivity|].
    destruct (search b) as [[j m]|]; reflexivity. }
  rewrite He. clear He.
  assert (Ha : exec true li a
               = match search (drop li a) with
                 | Some (j, m) => (Some (li + j, m), li + j + String.length m)
                 | None => (None, 0)
                 end).
  { unfold exec; cbv beta iota zeta.
    destruct (Nat.ltb_spec (String.length a) li); [lia|].
    destruct (search (drop li a)) as [[j m]|]; reflexivity. }
  rewrite Ha. clear Ha.
  assert (Hb : exec true 0 b
               = match search b with
                 | Some (j, m) => (Some (j, m), j + String.length m)
                 | None => (None, 0)
                 end).
  { unfold exec; cbv beta iota zeta. cbn [Nat.ltb Nat.leb drop Nat.add].
    destruct (search b) as [[j m]|]; reflexivity. }
  destruct (search (drop li a)) as [[j m]|] eqn:E.
  - apply search_some in E as (Hne & _ & Hlen). rewrite length_drop in Hlen.
    assert (0 < String.length m) by (destruct m; [congruence | simpl; lia]).
    rewrite IH by lia. cbn [app]. f_equal. f_equal.
    subst rb. apply match_loop_fuel; lia.
  - subst rb. cbn [match_loop app]. rewrite Hb.
    destruct (search b) as [[j m]|] eqn:Eb; [|reflexivity].
    f_equal. rewrite length_drop.
    replace (li + (String.length a - li + 1 + j) + String.length m)
      with (String.length a + 1 + (j + String.length m)) by lia.
    apply match_loop_right.
Qed.

(** X4: a character outside the class (a space, a quote, a bracket of a
    tag) separates the input: the selectors of the whole text are those of
    the text before it and those of the text after it. *)
Theorem regex_separator_splits (a b : string) (c : ascii) (sel : string) :
  in_class c = false ->
  (In sel (extractSelectorsWithRegex (a ++ String c b))
   <-> In sel (extractSelectorsWithRegex a) \/ In sel (extractSelectorsWithRegex b)).
Proof.
  intros Hc.
  assert (Hall : match_all (a ++ String c b) = (match_all a ++ match_all b)%list).
  { unfold match_all at 1. rewrite (match_loop_app_sep a b c _ 0 Hc);
      [|lia | rewrite length_app; simpl; lia].
    rewrite length_app. cbn [String.length].
    rewrite !match_all_fuel by lia. reflexivity. }
  unfold extractSelectorsWithRegex. rewrite Hall, !in_map_iff. split.
  - intros (m & Hm & Hin). apply fold_set_add_In in Hin as [[]|Hin].
    apply in_app_iff in Hin as [Hin|Hin]; [left|right]; exists m;
      (split; [exact Hm | apply fold_set_add_In; auto]).
  - intros [(m & Hm & Hin)|(m & Hm & Hin)]; exists m; (split; [exact Hm|]);
      apply fold_set_add_In in Hin as [[]|Hin]; apply fold_set_add_In; right;
      apply in_app_iff; auto.
Qed.

Lemma regex_separator_splits_witness :
  In ".b" (extractSelectorsWithRegex ("a:" ++ String " " "b"))
  <-> In ".b" (extractSelectorsWithRegex "a:") \/ In ".b" (extractSelectorsWithRegex "b").
Proof. apply (regex_separator_splits "a:" "b" " " ".b"). reflexivity. Defined.

End RegexScanner.

(** ** extractSelectorsFromHtml (lines 7-52) *)

Section MarkupScanner.

Variable ATTRIBUTES : list string.
Variable Parser : string -> list AttributeEvent.

Lemma onattribute_selectors_iff (st : HtmlState) (ev : AttributeEvent) (t : string) :
  In t (html_selectors (onattribute ATTRIBUTES st ev))
  <-> In t (html_selectors st) \/ class_source ATTRIBUTES ev t.
Proof.
  unfold onattribute, class_source.
  destruct (String.eqb_spec (attr_name ev) "class") as [Hc|Hc].
  { simpl. rewrite fold_set_add_In. intuition congruence. }
  destruct (String.eqb_spec (attr_name ev) "id") as [Hi|Hi].
  { intuition congruence. }
  destruct (includes ATTRIBUTES (attr_name ev)) eqn:Hr.
  { apply includes_true in Hr. intuition congruence. }
  apply includes_false in Hr. cbn [html_selectors].
  destruct (shape_test (attr_name ev)) eqn:Hn.
  - rewrite set_add_In, fold_filtered_add_In. intuition (subst; auto; try congruence).
  - rewrite fold_filtered_add_In. intuition (subst; auto; try congruence).
Qed.

Lemma onattribute_ids_iff (st : HtmlState) (ev : AttributeEvent) (i : string) :
  In i (html_ids (onattribute ATTRIBUTES st ev))
  <-> In i (html_ids st) \/ (attr_name ev = "id" /\ i = attr_value ev).
Proof.
  unfold onattribute.
  destruct (String.eqb_spec (attr_name ev) "class") as [Hc|Hc].
  { simpl. rewrite Hc. intuition discriminate. }
  destruct (String.eqb_spec (attr_name ev) "id") as [Hi|Hi].
  { simpl. rewrite set_add_In. intuition. }
  destruct (includes ATTRIBUTES (attr_name ev)); simpl; intuition.
Qed.

Lemma fold_onattribute_iff (events : list AttributeEvent) (st : HtmlState) :
  (forall t, In t (html_selectors (fold_left (onattribute ATTRIBUTES) events st))
             <-> In t (html_selectors st)
                 \/ exists ev, In ev events /\ class_source ATTRIBUTES ev t)
  /\ (forall i, In i (html_ids (fold_left (onattribute ATTRIBUTES) events st))
                <-> In i (html_ids st)
                    \/ exists ev, In ev events /\ attr_name ev = "id"
                                  /\ i = attr_value ev).
Proof.
  revert st. induction events as [|e events IH]; intros st; simpl.
  - split; intros x; split; auto; intros [H|(ev & [] & _)]; exact H.
  - destruct (IH (onattribute ATTRIBUTES st e)) as [IHs IHi]. split; intros x.
    + rewrite IHs, onattribute_selectors_iff. split.
      * intros [[H|H]|(ev & Hin & H)]; eauto.
      * intros [H|(ev & [<-|Hin] & H)]; eauto.
    + rewrite IHi, onattribute_ids_iff. split.
      * intros [[H|H]|(ev & Hin & H)]; eauto.
      * intros [H|(ev & [<-|Hin] & H)]; eauto.
Qed.

(** X5: the markup scanner returns exactly these strings: [#] followed by
    the whole value of an [id] attribute (not split, not filtered), and,
    with a dot in front unless it has one, every piece of a [class] value
    (unfiltered) and every piece of the value, and the name, of an attribute
    that is neither [class], [id] nor reserved, when it passes the filter. *)
Theorem markup_selectors_exactly (code s : string) :
  In s (extractSelectorsFromHtml ATTRIBUTES Parser code)
  <-> (exists ev, In ev (Parser code) /\ attr_name ev = "id"
                  /\ s = "#" ++ attr_value ev)
      \/ (exists ev t, In ev (Parser code) /\ class_source ATTRIBUTES ev t
                       /\ s = format_class t).
Proof.
  unfold extractSelectorsFromHtml.
  destruct (fold_onattribute_iff (Parser code)
              {| html_selectors := []; html_ids := [] |}) as [Hs Hi].
  rewrite in_app_iff, !in_map_iff. split.
  - intros [(i & <- & Hin)|(t & <- & Hin)].
    + apply Hi in Hin as [[]|(ev & Hev & Hname & ->)]. left. eauto.
    + apply Hs in Hin as [[]|(ev & Hev & Hsrc)]. right. eauto.
  - intros [(ev & Hev & Hname & ->)|(ev & t & Hev & Hsrc & ->)].
    + left. exists (attr_value ev). split; [reflexivity|]. apply Hi. eauto.
    + right. exists t. split; [reflexivity|]. apply Hs. eauto.
Qed.

Lemma set_add_NoDup (l : JsSet) (x : string) : NoDup l -> NoDup (set_add l x).
Proof.
  intros H. unfold set_add. destruct (set_has l x) eqn:E; [exact H|].
  assert (~ In x l) by (rewrite <- set_has_true; congruence).
  clear E. induction H as [|y l Hy Hl IH]; simpl.
  - constructor; [intros []|constructor].
  - constructor.
    + rewrite in_app_iff. simpl in *. intuition.
    + apply IH. simpl in *. intuition.
Qed.

Lemma fold_set_add_NoDup (l : list string) (s : JsSet) :
  NoDup s -> NoDup (fold_left set_add l s).
Proof.
  revert s. induction l as [|x l IH]; intros s H; simpl; [exact H|].
  apply IH, set_add_NoDup, H.
Qed.

Lemma fold_filtered_add_NoDup (p : string -> bool) (l : list string) (s : JsSet) :
  NoDup s ->
  NoDup (fold_left (fun acc x => if p x then set_add acc x else acc) l s).
Proof.
  revert s. induction l as [|x l IH]; intros s H; simpl; [exact H|].
  apply IH. destruct (p x); [apply set_add_NoDup|]; exact H.
Qed.

Lemma onattribute_NoDup (st : HtmlState) (ev : AttributeEvent) :
  NoDup (html_selectors st) /\ NoDup (html_ids st) ->
  NoDup (html_selectors (onattribute ATTRIBUTES st ev))
  /\ NoDup (html_ids (onattribute ATTRIBUTES st ev)).
Proof.
  intros [Hs Hi]. unfold onattribute.
  destruct (attr_name ev =? "class").
  { simpl. split; [apply fold_set_add_NoDup|]; assumption. }
  destruct (attr_name ev =? "id").
  { simpl. split; [|apply set_add_NoDup]; assumption. }
  destruct (includes ATTRIBUTES (attr_name ev)); [now split|].
  simpl. split; [|assumption].
  destruct (shape_test (attr_name ev)); [apply set_add_NoDup|];
    apply fold_filtered_add_NoDup; assumption.
Qed.

Lemma sharp_NoDup (l : list string) :
  NoDup l -> NoDup (map (fun id => "#" ++ id) l).
Proof.
  induction 1 as [|x l Hx Hl IH]; simpl; constructor; [|exact IH].
  rewrite in_map_iff. intros (y & Heq & Hy). injection Heq as ->. contradiction.
Qed.

(** X6: the sequence the markup scanner returns is the id selectors, each
    beginning with [#] and none of them twice, followed by the class
    selectors, each beginning with a dot. *)
Theorem markup_ids_then_classes (code : string) :
  exists ids classes,
    extractSelectorsFromHtml ATTRIBUTES Parser code = (ids ++ classes)%list
    /\ NoDup ids
    /\ (forall s, In s ids -> exists rest, s = String "#" rest)
    /\ (forall s, In s classes -> exists rest, s = String "." rest).
Proof.
  unfold extractSelectorsFromHtml.
  set (st := fold_left (onattribute ATTRIBUTES) (Parser code)
                       {| html_selectors := []; html_ids := [] |}).
  exists (map (fun id => "#" ++ id) (html_ids st)), (map format_class (html_selectors st)).
  split; [reflexivity|]. repeat split.
  - apply sharp_NoDup. subst st.
    assert (H : forall events s0,
               NoDup (html_selectors s0) /\ NoDup (html_ids s0) ->
               NoDup (html_ids (fold_left (onattribute ATTRIBUTES) events s0))).
    { induction events as [|e events IH]; intros s0 H0; simpl; [apply H0|].
      apply IH, onattribute_NoDup, H0. }
    apply H. simpl. split; constructor.
  - intros s Hin. apply in_map_iff in Hin as (i & <- & _). now exists i.
  - intros s Hin. apply in_map_iff in Hin as (t & <- & _). apply format_class_dot.
Qed.

End MarkupScanner.

(** ** extractSelectorsFromJS (lines 54-80) *)

Section ScriptScanner.

Variable parse_js : string -> Completion (list Token).

Lemma foldM_onToken (tokens : list Token) (acc : JsSet) :
  (forall tok, In tok tokens -> type_label tok = "string" ->
               exists v, token_value tok = Str v) ->
  exists sels,
    foldM onToken tokens acc = Normal sels
    /\ forall t, In t sels
                 <-> In t acc
                     \/ exists tok v, In tok tokens /\ type_label tok = "string"
                                      /\ token_value tok = Str v
                                      /\ In t (split " " v) /\ shape_test t = true.
Proof.
  revert acc. induction tokens as [|tok tokens IH]; intros acc Hstr; simpl.
  - exists acc. split; [reflexivity|]. intros t. split; [auto|].
    intros [H|(tok & v & [] & _)]. exact H.
  - unfold onToken at 1.
    destruct (String.eqb_spec (type_label tok) "string") as [Hl|Hl].
    + destruct (Hstr tok (or_introl eq_refl) Hl) as [v Hv]. rewrite Hv. cbn [Js.as_string bind].
      destruct (IH (fold_left
                      (fun acc selector =>
                         if shape_test selector then set_add acc selector else acc)
                      (split " " v) acc)) as (sels & Hf & Hiff).
      { intros tk Hin. apply Hstr. now right. }
      exists sels. split; [exact Hf|]. intros t. rewrite Hiff, fold_filtered_add_In.
      split.
      * intros [[H|[H1 H2]]|(tk & w & Hin & H)]; auto.
        -- right. exists tok, v. auto.
        -- right. exists tk, w. split; [now right | exact H].
      * intros [H|(tk & w & [<-|Hin] & Hlab & Hval & Hin' & Hsh)]; auto.
        -- rewrite Hv in Hval. injection Hval as <-. auto.
        -- right. exists tk, w. auto.
    + cbn [bind]. destruct (IH acc) as (sels & Hf & Hiff).
      { intros tk Hin. apply Hstr. now right. }
      exists sels. split; [exact Hf|]. intros t. rewrite Hiff. split.
      * intros [H|(tk & w & Hin & H)]; auto.
        right. exists tk, w. split; [now right | exact H].
      * intros [H|(tk & w & [<-|Hin] & Hlab & H)]; auto; [congruence|].
        right. exists tk, w. auto.
Qed.

(** X7: when the script parses, the script scanner returns, and what it
    returns is exactly the pieces, split on single spaces, of the values of
    the tokens labelled [string] that pass the filter, each with a dot in
    front unless it has one; no other token adds anything. *)
Theorem script_selectors_exactly (code : string) (tokens : list Token) :
  parse_js code = Normal tokens ->
  (forall tok, In tok tokens -> type_label tok = "string" ->
               exists v, token_value tok = Str v) ->
  exists out,
    extractSelectorsFromJS parse_js code = Normal out
    /\ forall s, In s out
                 <-> exists tok v t,
                       In tok tokens /\ type_label tok = "string"
                       /\ token_value tok = Str v
                       /\ In t (split " " v) /\ shape_test t = true
                       /\ s = format_class t.
Proof.
  intros HP Hstr. unfold extractSelectorsFromJS. rewrite HP. cbn [bind].
  destruct (foldM_onToken tokens [] Hstr) as (sels & Hf & Hiff).
  rewrite Hf. cbn [bind]. eexists. split; [reflexivity|].
  intros s. rewrite in_map_iff. split.
  - intros (t & <- & Hin). apply Hiff in Hin as [[]|(tok & v & H1 & H2 & H3 & H4 & H5)].
    exists tok, v, t. auto 10.
  - intros (tok & v & t & H1 & H2 & H3 & H4 & H5 & ->).
    exists t. split; [reflexivity|]. apply Hiff. right. exists tok, v. auto 10.
Qed.

End ScriptScanner.

Lemma script_selectors_exactly_witness :
  exists out,
    extractSelectorsFromJS
      (Inputs.script_parser Inputs.script_input Inputs.script_tokens)
      Inputs.script_input
    = Normal out
    /\ forall s, In s out
                 <-> exists tok v t,
                       In tok Inputs.script_tokens /\ type_label tok = "string"
                       /\ token_value tok = Str v
                       /\ In t (split " " v) /\ shape_test t = true
                       /\ s = format_class t.
Proof.
  apply (script_selectors_exactly
           (Inputs.script_parser Inputs.script_input Inputs.script_tokens)
           Inputs.script_input Inputs.script_tokens).
  - reflexivity.
  - intros tok H Hl. simpl in H.
    repeat (destruct H as [<-|H]); try discriminate Hl; try contradiction;
      simpl; eauto.
Defined.

(** ** extractSelectorsFromSvelte: text tokens and [CLASS_REGEX] (lines 110, 151-157, 175-183, 221-228) *)

Section TextTokens.

Lemma test_global_sound (li : nat) (s : string) (li' : nat) :
  test true li s = (true, li') -> shape_test s = true.
Proof.
  unfold test, exec; cbv beta iota zeta.
  destruct (Nat.ltb (String.length s) li); [discriminate|].
  destruct (search (drop li s)) as [[j m]|] eqn:E; [|discriminate].
  intros _. apply shape_test_search, search_succeeds_iff.
  assert (H : search (drop li s) <> None) by congruence.
  apply search_succeeds_iff in H as (c & Hin & Hc). exists c.
  split; [eapply drop_chars; eassumption | exact Hc].
Qed.

(** A failed [test] puts [lastIndex] back to 0. *)
Lemma test_global_fail (li : nat) (s : string) (li' : nat) :
  test true li s = (false, li') -> li' = 0.
Proof.
  unfold test, exec; cbv beta iota zeta.
  destruct (Nat.ltb (String.length s) li); [now intros H; injection H|].
  destruct (search (drop li s)) as [[j m]|]; [discriminate|].
  now intros H; injection H.
Qed.

(** With [lastIndex] at 0 the [test] is the token-shape filter. *)
Lemma test_global_fresh (s : string) : fst (test true 0 s) = shape_test s.
Proof.
  unfold shape_test, test, exec. simpl.
  destruct (search s) as [[j m]|]; reflexivity.
Qed.

Lemma fold_test_and_set_keeps (l : list string) (acc : WalkState * nat) :
  keeps (fst acc) (fst (fold_left test_and_set l acc)).
Proof.
  revert acc. induction l as [|t l IH]; intros acc; simpl; [apply keeps_refl|].
  eapply keeps_trans; [apply test_and_set_keeps | apply IH].
Qed.

Lemma test_and_set_found (st : WalkState) (li : nat) (t : string) (li' : nat) :
  test true li t = (true, li') ->
  test_and_set (st, li) t = (set_selector st t (tagged "Class"), li').
Proof. unfold test_and_set. now intros ->. Qed.

Lemma test_and_set_missed (st : WalkState) (li : nat) (t : string) (li' : nat) :
  test true li t = (false, li') -> test_and_set (st, li) t = (st, 0).
Proof.
  intros H. pose proof (test_global_fail _ _ _ H) as ->.
  unfold test_and_set. now rewrite H.
Qed.

Lemma test_and_set_fresh (st : WalkState) (t : string) :
  shape_test t = true ->
  exists li', test_and_set (st, 0) t = (set_selector st t (tagged "Class"), li').
Proof.
  intros H. pose proof (test_global_fresh t) as Hf. rewrite H in Hf.
  destruct (test true 0 t) as [f l] eqn:E. simpl in Hf. subst f.
  exists l. now apply test_and_set_found.
Qed.

Lemma test_and_set_sound (acc : WalkState * nat) (t k : string) :
  map_get (selectors (fst (test_and_set acc t))) k <> None ->
  map_get (selectors (fst acc)) k <> None \/ (k = t /\ shape_test t = true).
Proof.
  destruct acc as [st li]. unfold test_and_set.
  destruct (test true li t) as [[|] li'] eqn:E; simpl; [|auto].
  destruct (String.eqb_spec k t) as [->|Hne].
  - intros _. right. split; [reflexivity|]. eapply test_global_sound, E.
  - rewrite map_get_set_other by exact Hne. auto.
Qed.

(** X8: the [g] flag of [CLASS_REGEX] only loses tokens: a text that
    [register_text] adds to the mapping is a non-empty whitespace-separated
    token of the text that passes the token-shape filter. *)
Theorem text_tokens_pass_filter (text : string) (st : WalkState) (li : nat) (k : string) :
  map_get (selectors (fst (register_text text (st, li)))) k <> None ->
  map_get (selectors st) k <> None
  \/ (In k (filter JsString.truthy (split_ws text)) /\ shape_test k = true).
Proof.
  unfold register_text.
  generalize (filter JsString.truthy (split_ws text)) as l.
  intros l. change st with (fst (st, li)) at 2. generalize (st, li) as acc.
  induction l as [|t l IH]; intros acc; simpl; [auto|].
  intros H. apply IH in H as [H|[Hin Hsh]]; [|auto].
  apply test_and_set_sound in H as [H|[-> Hsh]]; auto.
Qed.

Lemma text_tokens_pass_filter_witness :
  map_get (selectors (fst (register_text "hover: x" (empty_state, 0)))) "hover:" <> None
  /\ (map_get (selectors empty_state) "hover:" <> None
      \/ (In "hover:" (filter JsString.truthy (split_ws "hover: x"))
          /\ shape_test "hover:" = true)).
Proof.
  assert (H : map_get (selectors (fst (register_text "hover: x" (empty_state, 0))))
                      "hover:" <> None) by (vm_compute; discriminate).
  split; [exact H|].
  exact (text_tokens_pass_filter "hover: x" empty_state 0 "hover:" H).
Defined.

(** X9: of two consecutive tokens of a text that both pass the filter, at
    least one is registered, whatever [lastIndex] was before: when the test
    of the first fails, [lastIndex] is back at 0 for the second. *)
Theorem consecutive_tokens_one_registered
        (text : string) (st : WalkState) (li : nat)
        (before : list string) (t1 t2 : string) (after : list string) :
  filter JsString.truthy (split_ws text) = (before ++ t1 :: t2 :: after)%list ->
  shape_test t1 = true ->
  shape_test t2 = true ->
  map_get (selectors (fst (register_text text (st, li)))) t1 <> None
  \/ map_get (selectors (fst (register_text text (st, li)))) t2 <> None.
Proof.
  intros Htok H1 H2. unfold register_text. rewrite Htok, fold_left_app.
  destruct (fold_left test_and_set before (st, li)) as [s1 l1].
  change (fold_left test_and_set (t1 :: t2 :: after) (s1, l1))
    with (fold_left test_and_set (t2 :: after) (test_and_set (s1, l1) t1)).
  destruct (test true l1 t1) as [[|] l2] eqn:E1.
  - left. rewrite (test_and_set_found _ _ _ _ E1).
    apply (fold_test_and_set_keeps (t2 :: after)
             (set_selector s1 t1 (tagged "Class"), l2)).
    apply set_selector_has.
  - right. rewrite (test_and_set_missed _ _ _ _ E1).
    change (fold_left test_and_set (t2 :: after) (s1, 0))
      with (fold_left test_and_set after (test_and_set (s1, 0) t2)).
    destruct (test_and_set_fresh s1 t2 H2) as [l3 ->].
    apply (fold_test_and_set_keeps after (set_selector s1 t2 (tagged "Class"), l3)).
    apply set_selector_has.
Qed.

Lemma consecutive_tokens_one_registered_witness :
  map_get (selectors (fst (register_text "c1 c2" (empty_state, 0)))) "c1" <> None
  \/ map_get (selectors (fst (register_text "c1 c2" (empty_state, 0)))) "c2" <> None.
Proof.
  apply (consecutive_tokens_one_registered "c1 c2" empty_state 0 [] "c1" "c2" []);
    reflexivity.
Defined.

Lemma value_part_text (part : Value) (text : string) (acc : WalkState * nat) :
  Js.get part "type" = Str "Text" ->
  Js.get part "data" = Str text ->
  value_part acc part = Normal (register_text text acc).
Proof.
  intros Ht Hd. unfold value_part, Js.prop.
  destruct part; try discriminate Ht. cbn [Js.nullish bind].
  rewrite Ht, Hd. reflexivity.
Qed.

Lemma parts_first_token (part : Value) (more : list Value) (text t : string)
      (rest : list string) (st : WalkState) (acc' : WalkState * nat) :
  Js.get part "type" = Str "Text" ->
  Js.get part "data" = Str text ->
  filter JsString.truthy (split_ws text) = t :: rest ->
  shape_test t = true ->
  foldM value_part (part :: more) (st, 0) = Normal acc' ->
  map_get (selectors (fst acc')) t <> None.
Proof.
  intros Ht Hd Htok Hsh H. cbn [foldM] in H.
  rewrite (value_part_text _ _ _ Ht Hd) in H. cbn [bind] in H.
  apply parts_keep in H. apply H.
  unfold register_text. rewrite Htok.
  change (fold_left test_and_set (t :: rest) (st, 0))
    with (fold_left test_and_set rest (test_and_set (st, 0) t)).
  destruct (test_and_set_fresh st t Hsh) as [l ->].
  apply (fold_test_and_set_keeps rest (set_selector st t (tagged "Class"), l)).
  apply set_selector_has.
Qed.

End TextTokens.

(** ** extractSelectorsFromSvelte: what a visited node leaves in the output (lines 108-231, 243-249) *)

Section VisitedNodes.

Variable CLASS_SELECTOR : list string.
Variable parse : string -> option string -> Completion Value.

(** The blocks of [enter], one after the other. *)
Lemma enter_chain (node parent : Value) (st st' : WalkState) :
  enter node parent st = Normal st' ->
  exists s1 s2 a3 a4 s5 s6 s7 a8,
    on_identifier node parent st = Normal s1
    /\ on_element node s1 = Normal s2
    /\ on_class_attribute node (s2, 0) = Normal a3
    /\ on_attribute node a3 = Normal a4
    /\ on_class_directive node (fst a4) = Normal s5
    /\ on_global node s5 = Normal s6
    /\ on_literal node s6 = Normal s7
    /\ on_template_element node (s7, snd a4) = Normal a8
    /\ st' = fst a8.
Proof.
  unfold enter. intros H.
  apply bind_Normal in H as (s1 & H1 & H).
  apply bind_Normal in H as (s2 & H2 & H).
  apply bind_Normal in H as (a3 & H3 & H).
  apply bind_Normal in H as (a4 & H4 & H).
  apply bind_Normal in H as (s5 & H5 & H).
  apply bind_Normal in H as (s6 & H6 & H).
  apply bind_Normal in H as (s7 & H7 & H).
  apply bind_Normal in H as (a8 & H8 & H).
  injection H as <-. exists s1, s2, a3, a4, s5, s6, s7, a8. auto 10.
Qed.

(** What one visited node registers at its call is registered when the
    walk is over. *)
Lemma walk_registers (ast node parent : Value) (st : WalkState) (k : string) :
  walk ast = Normal st ->
  In (node, parent) (visits Null ast) ->
  (forall s0 s1, enter node parent s0 = Normal s1 ->
                 map_get (selectors s1) k <> None) ->
  map_get (selectors st) k <> None.
Proof.
  unfold walk. intros Hwalk Hin Hreg.
  revert Hwalk Hin. generalize empty_state as s0.
  induction (visits Null ast) as [|call calls IH]; intros s0 Hwalk []; simpl in Hwalk.
  - subst call. apply bind_Normal in Hwalk as (s1 & H1 & Hrest).
    apply calls_keep in Hrest. apply Hrest. eapply Hreg, H1.
  - apply bind_Normal in Hwalk as (s1 & _ & Hrest). eapply IH; eauto.
Qed.

(** A registered text is returned, as it is or with a dot in front. *)
Lemma registered_is_returned (st : WalkState) (k : string) :
  map_get (selectors st) k <> None ->
  In k (finish CLASS_SELECTOR st) \/ In ("." ++ k) (finish CLASS_SELECTOR st).
Proof.
  intros H. apply resolve_keeps in H.
  destruct (map_get (resolve st) k) as [meta|] eqn:E; [|congruence].
  apply map_get_In in E.
  apply (in_map (format_selector CLASS_SELECTOR)) in E. fold (finish CLASS_SELECTOR st) in E.
  unfold format_selector in E.
  destruct (includes CLASS_SELECTOR (sel_type meta)); auto.
Qed.

Lemma enter_registers_name (node parent : Value) (k : string) (s0 s1 : WalkState) :
  Js.get node "type" = Str "Element" \/ Js.get node "type" = Str "Attribute"
  \/ Js.get node "type" = Str "Class" ->
  Js.get node "name" = Str k ->
  enter node parent s0 = Normal s1 ->
  map_get (selectors s1) k <> None.
Proof.
  intros Htype Hname H.
  apply enter_chain in H
    as (x1 & x2 & a3 & a4 & x5 & x6 & x7 & a8 & H1 & H2 & H3 & H4 & H5 & H6 & H7 & H8 & ->).
  apply on_class_attribute_keeps in H3 as K3. apply on_attribute_keeps in H4 as K4.
  apply on_class_directive_keeps in H5 as K5. apply on_global_keeps in H6 as K6.
  apply on_literal_keeps in H7 as K7. apply on_template_element_keeps in H8 as K8.
  simpl in *. apply K8, K7, K6.
  destruct Htype as [Ht|[Ht|Ht]].
  - apply K5, K4, K3. unfold on_element in H2. rewrite Ht, Hname in H2.
    injection H2 as <-. apply set_selector_has.
  - apply K5. unfold on_attribute in H4. rewrite Ht, Hname in H4.
    cbn [Js.is_str String.eqb Ascii.eqb Bool.eqb Js.as_string bind] in H4.
    change (Js.is_str (Str "Attribute") "Attribute") with true in H4. cbv iota in H4.
    cbn [bind Js.as_string] in H4.
    assert (K : keeps (set_selector (fst a3) k (tagged "Attribute")) (fst a4)).
    { destruct (Js.get node "value"); try discriminate H4;
        try (injection H4 as <-; apply keeps_refl).
      apply parts_keep in H4. exact H4. }
    apply K, set_selector_has.
  - unfold on_class_directive in H5. rewrite Ht, Hname in H5.
    injection H5 as <-. apply set_selector_has.
Qed.

(** X10: the tag name of every element, the name of every attribute and
    the name of every [class:] directive of the tree is returned, as it is
    or with a dot in front. *)
Theorem node_names_returned
        (template : string) (filename : option string) (ast : Value)
        (st : WalkState) (node parent : Value) (k : string) :
  parse template filename = Normal ast ->
  walk ast = Normal st ->
  In (node, parent) (visits Null ast) ->
  Js.get node "type" = Str "Element" \/ Js.get node "type" = Str "Attribute"
  \/ Js.get node "type" = Str "Class" ->
  Js.get node "name" = Str k ->
  extractSelectorsFromSvelte CLASS_SELECTOR parse template filename
  = Normal (finish CLASS_SELECTOR st)
  /\ (In k (finish CLASS_SELECTOR st) \/ In ("." ++ k) (finish CLASS_SELECTOR st)).
Proof.
  intros HP HW Hin Htype Hname.
  split; [exact (extract_of_walk _ _ _ _ _ _ HP HW)|].
  apply registered_is_returned. eapply walk_registers; eauto.
  intros s0 s1. now apply enter_registers_name.
Qed.

Lemma enter_registers_first_token
      (node parent part : Value) (more : list Value) (text t : string)
      (rest : list string) (s0 s1 : WalkState) :
  Js.get node "type" = Str "Attribute" ->
  Js.get node "value" = Arr (part :: more) ->
  Js.get part "type" = Str "Text" ->
  Js.get part "data" = Str text ->
  filter JsString.truthy (split_ws text) = t :: rest ->
  shape_test t = true ->
  enter node parent s0 = Normal s1 ->
  map_get (selectors s1) t <> None.
Proof.
  intros Htype Hvalue Hpt Hpd Htok Hsh H.
  apply enter_chain in H
    as (x1 & x2 & a3 & a4 & x5 & x6 & x7 & a8 & H1 & H2 & H3 & H4 & H5 & H6 & H7 & H8 & ->).
  apply on_attribute_keeps in H4 as K4.
  apply on_class_directive_keeps in H5 as K5. apply on_global_keeps in H6 as K6.
  apply on_literal_keeps in H7 as K7. apply on_template_element_keeps in H8 as K8.
  simpl in *. apply K8, K7, K6, K5.
  unfold on_class_attribute in H3. rewrite Htype, Hvalue in H3.
  change (Js.is_str (Str "Attribute") "Attribute") with true in H3.
  cbn [andb] in H3.
  destruct (Js.is_str (Js.get node "name") "class").
  - apply K4. eapply parts_first_token; eauto.
  - injection H3 as <-.
    unfold on_attribute in H4. rewrite Htype, Hvalue in H4.
    change (Js.is_str (Str "Attribute") "Attribute") with true in H4. cbv iota in H4.
    apply bind_Normal in H4 as (k & _ & H4). cbn [fst snd] in H4.
    eapply parts_first_token; eauto.
Qed.

(** X11: the [g] flag never costs the first token: when the value of an
    attribute starts with a text part, the first non-empty token of that
    text is returned (as it is or with a dot in front) if it passes the
    filter. *)
Theorem attribute_first_token_returned
        (template : string) (filename : option string) (ast : Value)
        (st : WalkState) (node parent part : Value) (more : list Value)
        (text t : string) (rest : list string) :
  parse template filename = Normal ast ->
  walk ast = Normal st ->
  In (node, parent) (visits Null ast) ->
  Js.get node "type" = Str "Attribute" ->
  Js.get node "value" = Arr (part :: more) ->
  Js.get part "type" = Str "Text" ->
  Js.get part "data" = Str text ->
  filter JsString.truthy (split_ws text) = t :: rest ->
  shape_test t = true ->
  extractSelectorsFromSvelte CLASS_SELECTOR parse template filename
  = Normal (finish CLASS_SELECTOR st)
  /\ (In t (finish CLASS_SELECTOR st) \/ In ("." ++ t) (finish CLASS_SELECTOR st)).
Proof.
  intros HP HW Hin Htype Hvalue Hpt Hpd Htok Hsh.
  split; [exact (extract_of_walk _ _ _ _ _ _ HP HW)|].
  apply registered_is_returned. eapply walk_registers; eauto.
  intros s0 s1. eapply enter_registers_first_token; eauto.
Qed.

Lemma fold_literal_registers (tokens : list string) (st : WalkState) (t : string) :
  In t tokens ->
  toLowerCase t = t ->
  map_get
    (selectors
       (fold_left
          (fun st selector =>
             if toLowerCase selector =? selector
             then set_selector st selector (tagged "Class")
             else st)
          tokens st))
    t <> None.
Proof.
  intros Hin Hlow. revert st. induction tokens as [|x tokens IH]; intros st;
    [destruct Hin|]. destruct Hin as [->|Hin]; cbn [fold_left].
  - rewrite Hlow, String.eqb_refl.
    apply (fold_left_keeps
             (fun st selector =>
                if toLowerCase selector =? selector
                then set_selector st selector (tagged "Class")
                else st)).
    + intros s0 sel. destruct (_ =? _); [apply set_selector_keeps | apply keeps_refl].
    + apply set_selector_has.
  - apply IH, Hin.
Qed.

Lemma enter_registers_literal (node parent : Value) (value t : string)
      (s0 s1 : WalkState) :
  Js.get node "type" = Str "Literal" ->
  Js.get node "value" = Str value ->
  In t (filter JsString.truthy (split_ws value)) ->
  toLowerCase t = t ->
  enter node parent s0 = Normal s1 ->
  map_get (selectors s1) t <> None.
Proof.
  intros Htype Hvalue Hin Hlow H.
  apply enter_chain in H
    as (x1 & x2 & a3 & a4 & x5 & x6 & x7 & a8 & H1 & H2 & H3 & H4 & H5 & H6 & H7 & H8 & ->).
  apply on_template_element_keeps in H8 as K8. simpl in *. apply K8.
  unfold on_literal in H7. rewrite Htype, Hvalue in H7.
  change (Js.is_str (Str "Literal") "Literal") with true in H7. cbv iota in H7.
  injection H7 as <-. now apply fold_literal_registers.
Qed.

(** X12: every non-empty whitespace-separated token of every string
    literal of the tree that its own [toLowerCase] leaves unchanged is
    returned (as it is or with a dot in front): the literal block does not
    test with [CLASS_REGEX], so it loses no token. *)
Theorem literal_tokens_returned
        (template : string) (filename : option string) (ast : Value)
        (st : WalkState) (node parent : Value) (value t : string) :
  parse template filename = Normal ast ->
  walk ast = Normal st ->
  In (node, parent) (visits Null ast) ->
  Js.get node "type" = Str "Literal" ->
  Js.get node "value" = Str value ->
  In t (filter JsString.truthy (split_ws value)) ->
  toLowerCase t = t ->
  extractSelectorsFromSvelte CLASS_SELECTOR parse template filename
  = Normal (finish CLASS_SELECTOR st)
  /\ (In t (finish CLASS_SELECTOR st) \/ In ("." ++ t) (finish CLASS_SELECTOR st)).
Proof.
  intros HP HW Hin Htype Hvalue Htok Hlow.
  split; [exact (extract_of_walk _ _ _ _ _ _ HP HW)|].
  apply registered_is_returned. eapply walk_registers; eauto.
  intros s0 s1. eapply enter_registers_literal; eauto.
Qed.

End VisitedNodes.

Lemma node_names_returned_witness :
  extractSelectorsFromSvelte Constants.CLASS_SELECTOR
    (Inputs.template_parser MoreExamples.div_template MoreExamples.div_ast)
    MoreExamples.div_template None
  = Normal ["div"; ".w-1/2"; "class"; "data-x"; ".y"]
  /\ (In "data-x" ["div"; ".w-1/2"; "class"; "data-x"; ".y"]
      \/ In ".data-x" ["div"; ".w-1/2"; "class"; "data-x"; ".y"]).
Proof.
  apply (node_names_returned Constants.CLASS_SELECTOR
           (Inputs.template_parser MoreExamples.div_template MoreExamples.div_ast)
           MoreExamples.div_template None MoreExamples.div_ast MoreExamples.div_state
           (Examples.Attribute "data-x" (Arr [Examples.Text "y"]))
           MoreExamples.div_element "data-x").
  - reflexivity.
  - reflexivity.
  - vm_compute. repeat (first [left; reflexivity | right]).
  - right. left. reflexivity.
  - reflexivity.
Defined.

Lemma attribute_first_token_returned_witness :
  extractSelectorsFromSvelte Constants.CLASS_SELECTOR
    (Inputs.template_parser MoreExamples.div_template MoreExamples.div_ast)
    MoreExamples.div_template None
  = Normal ["div"; ".w-1/2"; "class"; "data-x"; ".y"]
  /\ (In "w-1/2" ["div"; ".w-1/2"; "class"; "data-x"; ".y"]
      \/ In ".w-1/2" ["div"; ".w-1/2"; "class"; "data-x"; ".y"]).
Proof.
  apply (attribute_first_token_returned Constants.CLASS_SELECTOR
           (Inputs.template_parser MoreExamples.div_template MoreExamples.div_ast)
           MoreExamples.div_template None MoreExamples.div_ast MoreExamples.div_state
           MoreExamples.div_class MoreExamples.div_element
           (Examples.Text "w-1/2 Red") [] "w-1/2 Red" "w-1/2" ["Red"]).
  - reflexivity.
  - reflexivity.
  - vm_compute. repeat (first [left; reflexivity | right]).
  - reflexivity.
  - reflexivity.
  - reflexivity.
  - reflexivity.
  - reflexivity.
  - reflexivity.
Defined.

Lemma literal_tokens_returned_witness :
  extractSelectorsFromSvelte Constants.CLASS_SELECTOR
    (Inputs.template_parser MoreExamples.label_template MoreExamples.label_ast)
    MoreExamples.label_template None
  = Normal [".btn"; ".wide"]
  /\ (In "wide" [".btn"; ".wide"] \/ In ".wide" [".btn"; ".wide"]).
Proof.
  apply (literal_tokens_returned Constants.CLASS_SELECTOR
           (Inputs.template_parser MoreExamples.label_template MoreExamples.label_ast)
           MoreExamples.label_template None MoreExamples.label_ast
           MoreExamples.label_state
           MoreExamples.label_literal MoreExamples.label_declarator
           "btn Primary wide" "wide").
  - reflexivity.
  - reflexivity.
  - vm_compute. repeat (first [left; reflexivity | right]).
  - reflexivity.
  - reflexivity.
  - simpl. auto.
  - reflexivity.
Defined.

(** ** extractSelectorsFromSvelte: exceptions (lines 103, 108-231) *)

Section WalkExceptions.

Lemma only_Normal {A} (a : A) : only_TypeError (Normal a).
Proof. intros e H; discriminate H. Qed.

Lemma only_Throw {A} : only_TypeError (@Throw A TypeError).
Proof. intros e H; now injection H. Qed.

Lemma only_bind {A B} (c : Completion A) (k : A -> Completion B) :
  only_TypeError c -> (forall a, only_TypeError (k a)) -> only_TypeError (bind c k).
Proof.
  intros Hc Hk e. destruct c as [a|e']; simpl.
  - apply Hk.
  - intros H; injection H as <-. now apply Hc.
Qed.

Lemma only_prop (v : Value) (k : string) : only_TypeError (Js.prop v k).
Proof. unfold Js.prop. destruct (Js.nullish v); [apply only_Throw | apply only_Normal]. Qed.

Lemma only_as_string (v : Value) : only_TypeError (Js.as_string v).
Proof. destruct v; simpl; (apply only_Throw || apply only_Normal). Qed.

Lemma only_foldM {A S} (f : S -> A -> Completion S) (l : list A) :
  (forall s a, only_TypeError (f s a)) -> forall s, only_TypeError (foldM f l s).
Proof.
  intros Hf. induction l as [|a l IH]; intros s; simpl;
    [apply only_Normal | apply only_bind; auto].
Qed.

Ltac only_step :=
  first
    [ apply only_Normal | apply only_Throw | apply only_prop | apply only_as_string
    | apply only_bind; [|intros ?]
    | match goal with
      | |- only_TypeError (if ?b then _ else _) => destruct b
      | |- only_TypeError (match ?x with _ => _ end) => destruct x
      | |- only_TypeError (let (_, _) := ?x in _) => destruct x
      end ].

Lemma only_value_part (acc : WalkState * nat) (value : Value) :
  only_TypeError (value_part acc value).
Proof. unfold value_part. repeat only_step. Qed.

Lemma only_bind_element (id : Value) (st : WalkState) (element : Value) :
  only_TypeError (bind_element id st element).
Proof. unfold bind_element. repeat only_step. Qed.

Lemma only_on_identifier (node parent : Value) (st : WalkState) :
  only_TypeError (on_identifier node parent st).
Proof.
  unfold on_identifier. repeat only_step.
  apply only_foldM. intros ? ?. apply only_bind_element.
Qed.

Lemma only_on_class_attribute (node : Value) (acc : WalkState * nat) :
  only_TypeError (on_class_attribute node acc).
Proof.
  unfold on_class_attribute. repeat only_step.
  apply only_foldM. intros ? ?. apply only_value_part.
Qed.

Lemma only_on_attribute (node : Value) (acc : WalkState * nat) :
  only_TypeError (on_attribute node acc).
Proof.
  unfold on_attribute. repeat only_step.
  apply only_foldM. intros ? ?. apply only_value_part.
Qed.

Lemma only_enter (node parent : Value) (st : WalkState) :
  only_TypeError (enter node parent st).
Proof.
  unfold enter.
  apply only_bind; [apply only_on_identifier | intros s1].
  apply only_bind; [unfold on_element; repeat only_step | intros s2].
  apply only_bind; [apply only_on_class_attribute | intros a3].
  apply only_bind; [apply only_on_attribute | intros a4].
  apply only_bind; [unfold on_class_directive; repeat only_step | intros s5].
  apply only_bind; [unfold on_global; repeat only_step | intros s6].
  apply only_bind; [unfold on_literal; repeat only_step | intros s7].
  apply only_bind; [unfold on_template_element; repeat only_step | intros a8].
  apply only_Normal.
Qed.

Lemma only_walk (ast : Value) : only_TypeError (walk ast).
Proof. unfold walk. apply only_foldM. intros s a. apply only_enter. Qed.

Variable CLASS_SELECTOR : list string.
Variable parse : string -> option string -> Completion Value.

(** X13: an exception of [extractSelectorsFromSvelte] is the one the
    parser threw, or a TypeError thrown while walking a tree that parsed;
    the walk throws nothing else. *)
Theorem template_exceptions (template : string) (filename : option string) (e : Error) :
  extractSelectorsFromSvelte CLASS_SELECTOR parse template filename = Throw e ->
  parse template filename = Throw e
  \/ (e = TypeError
      /\ exists ast, parse template filename = Normal ast
                     /\ walk ast = Throw TypeError).
Proof.
  unfold extractSelectorsFromSvelte.
  destruct (parse template filename) as [ast|e'] eqn:HP; simpl.
  - destruct (walk ast) as [st|e'] eqn:HW; simpl; [discriminate|].
    intros H; injection H as ->. pose proof (only_walk ast e HW) as ->.
    right. split; [reflexivity|]. now exists ast.
  - intros H; injection H as ->. now left.
Qed.

Lemma foldM_throws {A S} (f : S -> A -> Completion S) (l : list A) (x : A) :
  In x l ->
  (forall s, f s x = Throw TypeError) ->
  (forall s a, only_TypeError (f s a)) ->
  forall s, foldM f l s = Throw TypeError.
Proof.
  intros Hin Hx Hf. induction l as [|a l IH]; intros s; [destruct Hin|].
  simpl. destruct Hin as [->|Hin].
  - now rewrite Hx.
  - destruct (f s a) as [s1|e] eqn:E; simpl; [now apply IH|].
    now rewrite (Hf _ _ _ E).
Qed.

(** X14: a [class] attribute written without a value (svelte gives it the
    value [true]) makes the extractor throw a TypeError, wherever it stands
    in the template: [node.value?.map] is not a function. *)
Theorem valueless_class_throws
        (template : string) (filename : option string) (ast : Value)
        (node parent : Value) (b : bool) :
  parse template filename = Normal ast ->
  In (node, parent) (visits Null ast) ->
  Js.get node "type" = Str "Attribute" ->
  Js.get node "name" = Str "class" ->
  Js.get node "value" = Bool b ->
  extractSelectorsFromSvelte CLASS_SELECTOR parse template filename
  = Throw TypeError.
Proof.
  intros HP Hin Htype Hname Hvalue.
  unfold extractSelectorsFromSvelte. rewrite HP. cbn [bind].
  unfold walk.
  rewrite (foldM_throws (fun st call => enter (fst call) (snd call) st)
             (visits Null ast) (node, parent) Hin); [reflexivity| |].
  - intros s. cbn [fst snd]. unfold enter, on_identifier, on_element, on_class_attribute.
    rewrite Htype, Hname, Hvalue. reflexivity.
  - intros s a. apply only_enter.
Qed.

End WalkExceptions.

Lemma template_exceptions_witness :
  extractSelectorsFromSvelte Constants.CLASS_SELECTOR
    (Inputs.template_parser Examples.undeclared_template Examples.undeclared_ast)
    "<div" None
  = Throw ParseError
  /\ (Inputs.template_parser Examples.undeclared_template Examples.undeclared_ast
        "<div" None = Throw ParseError
      \/ (ParseError = TypeError
          /\ exists ast,
              Inputs.template_parser Examples.undeclared_template
                                     Examples.undeclared_ast "<div" None
              = Normal ast
              /\ walk ast = Throw TypeError)).
Proof.
  split; [reflexivity|].
  apply (template_exceptions Constants.CLASS_SELECTOR
           (Inputs.template_parser Examples.undeclared_template Examples.undeclared_ast)
           "<div" None ParseError).
  reflexivity.
Defined.

Lemma valueless_class_throws_witness :
  extractSelectorsFromSvelte Constants.CLASS_SELECTOR
    (Inputs.template_parser MoreExamples.valueless_class_template
                            MoreExamples.valueless_class_ast)
    MoreExamples.valueless_class_template None
  = Throw TypeError.
Proof.
  apply (valueless_class_throws Constants.CLASS_SELECTOR
           (Inputs.template_parser MoreExamples.valueless_class_template
                                   MoreExamples.valueless_class_ast)
           MoreExamples.valueless_class_template None
           MoreExamples.valueless_class_ast
           (Examples.Attribute "class" (Bool true))
           (Examples.Element "div" [Examples.Attribute "class" (Bool true)] [])
           true).
  - reflexivity.
  - vm_compute. repeat (first [left; reflexivity | right]).
  - reflexivity.
  - reflexivity.
  - reflexivity.
Defined.

(** ** extractSelectorsFromSvelte: identifiers and their resolution (lines 143-148, 167-172, 233-240) *)

Section Resolution.

Lemma ki_refl (st : WalkState) : keeps_identifiers st st.
Proof. intros n H; exact H. Qed.

Lemma ki_trans (a b c : WalkState) :
  keeps_identifiers a b -> keeps_identifiers b c -> keeps_identifiers a c.
Proof. intros H1 H2 n H. apply H2, H1, H. Qed.

Lemma ki_same (a b : WalkState) : identifiers b = identifiers a -> keeps_identifiers a b.
Proof. intros Heq n H. now rewrite Heq. Qed.

Lemma ki_fold_left {A} (f : WalkState -> A -> WalkState) (l : list A) :
  (forall st a, keeps_identifiers st (f st a)) ->
  forall st, keeps_identifiers st (fold_left f l st).
Proof.
  intros Hf. induction l as [|a l IH]; intros st; simpl; [apply ki_refl|].
  eapply ki_trans; [apply Hf | apply IH].
Qed.

Lemma ki_foldM {A S} (proj : S -> WalkState) (f : S -> A -> Completion S)
      (l : list A) :
  (forall s a s', f s a = Normal s' -> keeps_identifiers (proj s) (proj s')) ->
  forall s s', foldM f l s = Normal s' -> keeps_identifiers (proj s) (proj s').
Proof.
  intros Hf. induction l as [|a l IH]; intros s s'; simpl.
  - intros H; injection H as <-. apply ki_refl.
  - intros H. apply bind_Normal in H as (s1 & H1 & H2).
    eapply ki_trans; [eapply Hf | eapply IH]; eauto.
Qed.

Lemma ki_register_text (text : string) (acc : WalkState * nat) :
  keeps_identifiers (fst acc) (fst (register_text text acc)).
Proof.
  unfold register_text. revert acc.
  induction (filter JsString.truthy (split_ws text)) as [|t l IH];
    intros acc; simpl; [apply ki_refl|].
  eapply ki_trans; [|apply IH].
  destruct acc as [st li]. unfold test_and_set.
  destruct (test true li t) as [[|] li']; intros n Hn; exact Hn.
Qed.

Lemma ki_value_part (acc : WalkState * nat) (value : Value) (acc' : WalkState * nat) :
  value_part acc value = Normal acc' -> keeps_identifiers (fst acc) (fst acc').
Proof.
  unfold value_part. intros H. apply bind_Normal in H as (type & _ & H).
  destruct (Js.is_str type "MustacheTag").
  - destruct (Js.is_str _ "Identifier").
    + apply bind_Normal in H as (name & _ & H). injection H as <-.
      intros n Hn. simpl. apply set_add_In. auto.
    + injection H as <-. apply ki_refl.
  - destruct (Js.is_str type "Text").
    + apply bind_Normal in H as (data & _ & H). injection H as <-.
      apply ki_register_text.
    + injection H as <-. apply ki_refl.
Qed.

Lemma ki_parts (parts : list Value) (acc acc' : WalkState * nat) :
  foldM value_part parts acc = Normal acc' ->
  keeps_identifiers (fst acc) (fst acc').
Proof. apply (ki_foldM fst). apply ki_value_part. Qed.

Lemma ki_bind_element (id : Value) (st : WalkState) (element : Value) (st' : WalkState) :
  bind_element id st element = Normal st' -> keeps_identifiers st st'.
Proof.
  unfold bind_element. intros H.
  apply bind_Normal in H as (type & _ & H).
  apply bind_Normal in H as (st1 & H1 & H).
  assert (K1 : keeps_identifiers st st1).
  { destruct (Js.is_str type "Literal").
    - apply bind_Normal in H1 as (name & _ & H1). injection H1 as <-.
      intros n Hn; exact Hn.
    - injection H1 as <-. apply ki_refl. }
  eapply ki_trans; [exact K1|].
  destruct (_ && _).
  - apply bind_Normal in H as (name & _ & H). injection H as <-.
    intros n Hn; exact Hn.
  - injection H as <-. apply ki_refl.
Qed.

Lemma ki_on_identifier (node parent : Value) (st st' : WalkState) :
  on_identifier node parent st = Normal st' -> keeps_identifiers st st'.
Proof.
  unfold on_identifier. destruct (Js.is_str _ "Identifier");
    [|intros H; injection H as <-; apply ki_refl].
  intros H. apply bind_Normal in H as (init & _ & H).
  apply bind_Normal in H as (st1 & H1 & H).
  assert (K1 : keeps_identifiers st st1).
  { destruct (Js.is_str _ "Literal").
    - apply bind_Normal in H1 as (name & _ & H1). injection H1 as <-.
      intros n Hn; exact Hn.
    - injection H1 as <-. apply ki_refl. }
  eapply ki_trans; [exact K1|].
  destruct (Js.is_str _ "CallExpression");
    [|injection H as <-; apply ki_refl].
  destruct (Js.opt _ "elements"); try discriminate;
    try (injection H as <-; apply ki_refl).
  eapply (ki_foldM (fun s => s)); [|exact H].
  intros s a s'. apply ki_bind_element.
Qed.

Lemma ki_on_element (node : Value) (st st' : WalkState) :
  on_element node st = Normal st' -> keeps_identifiers st st'.
Proof.
  unfold on_element. destruct (Js.is_str _ _); intros H.
  - apply bind_Normal in H as (k & _ & H). injection H as <-.
    intros n Hn; exact Hn.
  - injection H as <-. apply ki_refl.
Qed.

Lemma ki_on_class_attribute (node : Value) (acc acc' : WalkState * nat) :
  on_class_attribute node acc = Normal acc' ->
  keeps_identifiers (fst acc) (fst acc').
Proof.
  unfold on_class_attribute. destruct (_ && _);
    [|intros H; injection H as <-; apply ki_refl].
  destruct (Js.get node "value"); try discriminate;
    try (intros H; injection H as <-; apply ki_refl).
  apply ki_parts.
Qed.

Lemma ki_on_class_directive (node : Value) (st st' : WalkState) :
  on_class_directive node st = Normal st' -> keeps_identifiers st st'.
Proof.
  unfold on_class_directive. destruct (Js.is_str _ _); intros H.
  - apply bind_Normal in H as (k & _ & H). injection H as <-.
    intros n Hn; exact Hn.
  - injection H as <-. apply ki_refl.
Qed.

Lemma ki_on_global (node : Value) (st st' : WalkState) :
  on_global node st = Normal st' -> keeps_identifiers st st'.
Proof.
  unfold on_global. destruct (_ && _);
    [|intros H; injection H as <-; apply ki_refl].
  intros H. apply bind_Normal in H as (children & _ & H).
  apply bind_Normal in H as (first & _ & H).
  destruct (Js.nullish first); [injection H as <-; apply ki_refl|].
  apply bind_Normal in H as (value & _ & H). injection H as <-.
  apply ki_fold_left. intros st0 sel n Hn. exact Hn.
Qed.

Lemma ki_on_literal (node : Value) (st st' : WalkState) :
  on_literal node st = Normal st' -> keeps_identifiers st st'.
Proof.
  unfold on_literal. destruct (Js.is_str _ _);
    [|intros H; injection H as <-; apply ki_refl].
  destruct (Js.get node "value");
    try (intros H; injection H as <-; apply ki_refl).
  intros H; injection H as <-. apply ki_fold_left.
  intros st0 sel. destruct (_ =? _); intros n Hn; exact Hn.
Qed.

Lemma ki_on_template_element (node : Value) (acc acc' : WalkState * nat) :
  on_template_element node acc = Normal acc' ->
  keeps_identifiers (fst acc) (fst acc').
Proof.
  unfold on_template_element. destruct (Js.is_str _ _);
    [|intros H; injection H as <-; apply ki_refl].
  intros H. apply bind_Normal in H as (value & _ & H).
  apply bind_Normal in H as (raw & _ & H).
  destruct raw; try (injection H as <-; apply ki_refl).
  injection H as <-. apply ki_register_text.
Qed.

Lemma ki_on_attribute (node : Value) (acc acc' : WalkState * nat) :
  on_attribute node acc = Normal acc' ->
  keeps_identifiers (fst acc) (fst acc').
Proof.
  unfold on_attribute. destruct (Js.is_str _ _);
    [|intros H; injection H as <-; apply ki_refl].
  intros H. apply bind_Normal in H as (k & _ & H). cbv zeta in H.
  destruct (Js.get node "value"); try discriminate H;
    try (injection H as <-; intros ? ?; assumption).
  apply ki_parts in H. exact H.
Qed.

Lemma ki_enter (node parent : Value) (st st' : WalkState) :
  enter node parent st = Normal st' -> keeps_identifiers st st'.
Proof.
  unfold enter. intros H.
  apply bind_Normal in H as (s1 & H1 & H). apply ki_on_identifier in H1.
  apply bind_Normal in H as (s2 & H2 & H). apply ki_on_element in H2.
  apply bind_Normal in H as (a3 & H3 & H). apply ki_on_class_attribute in H3.
  apply bind_Normal in H as (a4 & H4 & H). apply ki_on_attribute in H4.
  apply bind_Normal in H as (s5 & H5 & H). apply ki_on_class_directive in H5.
  apply bind_Normal in H as (s6 & H6 & H). apply ki_on_global in H6.
  apply bind_Normal in H as (s7 & H7 & H). apply ki_on_literal in H7.
  apply bind_Normal in H as (a8 & H8 & H). apply ki_on_template_element in H8.
  injection H as <-. simpl in *.
  repeat (eapply ki_trans; [eassumption|]). apply ki_refl.
Qed.

(** A part [{n}] of an attribute value puts [n] among the identifiers in
    use. *)
Lemma value_part_records (acc : WalkState * nat) (part : Value) (n : string)
      (acc' : WalkState * nat) :
  Js.get part "type" = Str "MustacheTag" ->
  Js.get (Js.get part "expression") "type" = Str "Identifier" ->
  Js.get (Js.get part "expression") "name" = Str n ->
  value_part acc part = Normal acc' ->
  In n (identifiers (fst acc')).
Proof.
  intros Ht He Hn. unfold value_part, Js.prop.
  destruct part; try discriminate Ht. cbn [Js.nullish bind]. rewrite Ht.
  change (Js.is_str (Str "MustacheTag") "MustacheTag") with true. cbv iota.
  assert (Ho : Js.opt (Js.get (Obj props) "expression") "type" = Str "Identifier").
  { unfold Js.opt. destruct (Js.get (Obj props) "expression"); try discriminate He.
    exact He. }
  rewrite Ho, Hn.
  change (Js.is_str (Str "Identifier") "Identifier") with true. cbv iota.
  cbn [Js.as_string bind]. intros H; injection H as <-.
  simpl. apply set_add_In. auto.
Qed.

Lemma parts_record (parts : list Value) (part : Value) (n : string)
      (acc acc' : WalkState * nat) :
  In part parts ->
  Js.get part "type" = Str "MustacheTag" ->
  Js.get (Js.get part "expression") "type" = Str "Identifier" ->
  Js.get (Js.get part "expression") "name" = Str n ->
  foldM value_part parts acc = Normal acc' ->
  In n (identifiers (fst acc')).
Proof.
  intros Hin Ht He Hn. revert acc.
  induction parts as [|p parts IH]; intros acc H; [destruct Hin|].
  simpl in H. apply bind_Normal in H as (a1 & H1 & H).
  destruct Hin as [->|Hin].
  - apply ki_parts in H. apply H. eapply value_part_records; eauto.
  - eapply IH; eauto.
Qed.

Lemma enter_records (node parent : Value) (parts : list Value) (part : Value)
      (n : string) (s0 s1 : WalkState) :
  Js.get node "type" = Str "Attribute" ->
  Js.get node "value" = Arr parts ->
  In part parts ->
  Js.get part "type" = Str "MustacheTag" ->
  Js.get (Js.get part "expression") "type" = Str "Identifier" ->
  Js.get (Js.get part "expression") "name" = Str n ->
  enter node parent s0 = Normal s1 ->
  In n (identifiers s1).
Proof.
  intros Htype Hvalue Hin Ht He Hn H.
  unfold enter in H.
  apply bind_Normal in H as (x1 & _ & H).
  apply bind_Normal in H as (x2 & _ & H).
  apply bind_Normal in H as (a3 & _ & H).
  apply bind_Normal in H as (a4 & H4 & H).
  apply bind_Normal in H as (x5 & H5 & H). apply ki_on_class_directive in H5.
  apply bind_Normal in H as (x6 & H6 & H). apply ki_on_global in H6.
  apply bind_Normal in H as (x7 & H7 & H). apply ki_on_literal in H7.
  apply bind_Normal in H as (a8 & H8 & H). apply ki_on_template_element in H8.
  injection H as <-. simpl in *. apply H8, H7, H6, H5.
  unfold on_attribute in H4. rewrite Htype, Hvalue in H4.
  change (Js.is_str (Str "Attribute") "Attribute") with true in H4. cbv iota in H4.
  apply bind_Normal in H4 as (k & _ & H4).
  eapply parts_record; eauto.
Qed.

Lemma walk_records (ast node parent : Value) (parts : list Value) (part : Value)
      (n : string) (st : WalkState) :
  walk ast = Normal st ->
  In (node, parent) (visits Null ast) ->
  Js.get node "type" = Str "Attribute" ->
  Js.get node "value" = Arr parts ->
  In part parts ->
  Js.get part "type" = Str "MustacheTag" ->
  Js.get (Js.get part "expression") "type" = Str "Identifier" ->
  Js.get (Js.get part "expression") "name" = Str n ->
  In n (identifiers st).
Proof.
  unfold walk. intros Hwalk Hin Htype Hvalue Hpart Ht He Hn.
  revert Hwalk Hin. generalize empty_state as s0.
  induction (visits Null ast) as [|call calls IH]; intros s0 Hwalk []; simpl in Hwalk.
  - subst call. apply bind_Normal in Hwalk as (s1 & H1 & Hrest).
    apply (ki_foldM (fun s => s)) in Hrest;
      [|intros s a s'; apply ki_enter].
    apply Hrest. eapply enter_records; eauto.
  - apply bind_Normal in Hwalk as (s1 & _ & Hrest). eapply IH; eauto.
Qed.

Lemma fold_from_identifier_keeps (value : list string) (sels : JsMap Selector) (v : string) :
  map_get sels v = Some (tagged "FromIdentifier") ->
  map_get (fold_left (fun sels v => map_set sels v (tagged "FromIdentifier")) value sels) v
  = Some (tagged "FromIdentifier").
Proof.
  revert sels. induction value as [|x value IH]; intros sels H; simpl; [exact H|].
  apply IH. destruct (String.eqb_spec v x) as [->|Hne].
  - apply map_get_set_same.
  - now rewrite map_get_set_other.
Qed.

Lemma fold_from_identifier_sets (value : list string) (sels : JsMap Selector) (v : string) :
  In v value ->
  map_get (fold_left (fun sels v => map_set sels v (tagged "FromIdentifier")) value sels) v
  = Some (tagged "FromIdentifier").
Proof.
  revert sels. induction value as [|x value IH]; intros sels []; simpl.
  - subst x. apply fold_from_identifier_keeps, map_get_set_same.
  - now apply IH.
Qed.

Lemma resolve_identifier_from (ids : JsMap (list string)) (sels : JsMap Selector)
      (id v : string) :
  map_get sels v = Some (tagged "FromIdentifier") ->
  map_get (resolve_identifier ids sels id) v = Some (tagged "FromIdentifier").
Proof.
  intros H. unfold resolve_identifier. destruct (map_get ids id); [|exact H].
  now apply fold_from_identifier_keeps.
Qed.

(** The tokens bound to an identifier in use are tagged FromIdentifier when
    the resolution is over. *)
Lemma resolve_bound (st : WalkState) (id : string) (toks : list string) (v : string) :
  In id (identifiers st) ->
  map_get (ids st) id = Some toks ->
  In v toks ->
  map_get (resolve st) v = Some (tagged "FromIdentifier").
Proof.
  intros Hin Hid Hv. unfold resolve. generalize (selectors st) as sels.
  induction (identifiers st) as [|x l IH]; intros sels; [destruct Hin|].
  simpl.
  assert (Hkeep : forall l0 s0,
             map_get s0 v = Some (tagged "FromIdentifier") ->
             map_get (fold_left (resolve_identifier (ids st)) l0 s0) v
             = Some (tagged "FromIdentifier")).
  { induction l0 as [|y l0 IH0]; intros s0 H0; simpl; [exact H0|].
    apply IH0, resolve_identifier_from, H0. }
  destruct Hin as [->|Hin].
  - apply Hkeep. unfold resolve_identifier. rewrite Hid.
    now apply fold_from_identifier_sets.
  - now apply IH.
Qed.

Variable CLASS_SELECTOR : list string.
Variable parse : string -> option string -> Completion Value.

(** X15: when an identifier is the expression of a [{...}] part of an
    attribute value anywhere in the tree, and the binding table holds tokens
    for it when the walk is over, every one of these tokens is returned
    with a dot in front (FromIdentifier being one of [CLASS_SELECTOR]),
    whatever tag the walk had given the same text. *)
Theorem bound_identifier_tokens_returned
        (template : string) (filename : option string) (ast : Value)
        (st : WalkState) (node parent : Value) (parts : list Value) (part : Value)
        (n : string) (toks : list string) (v : string) :
  parse template filename = Normal ast ->
  walk ast = Normal st ->
  In (node, parent) (visits Null ast) ->
  Js.get node "type" = Str "Attribute" ->
  Js.get node "value" = Arr parts ->
  In part parts ->
  Js.get part "type" = Str "MustacheTag" ->
  Js.get (Js.get part "expression") "type" = Str "Identifier" ->
  Js.get (Js.get part "expression") "name" = Str n ->
  map_get (ids st) n = Some toks ->
  In v toks ->
  In "FromIdentifier" CLASS_SELECTOR ->
  extractSelectorsFromSvelte CLASS_SELECTOR parse template filename
  = Normal (finish CLASS_SELECTOR st)
  /\ In ("." ++ v) (finish CLASS_SELECTOR st).
Proof.
  intros HP HW Hin Htype Hvalue Hpart Ht He Hn Hid Hv HC.
  split; [exact (extract_of_walk _ _ _ _ _ _ HP HW)|].
  pose proof (walk_records _ _ _ _ _ _ _ HW Hin Htype Hvalue Hpart Ht He Hn) as Hused.
  pose proof (resolve_bound _ _ _ _ Hused Hid Hv) as Hres.
  apply map_get_In in Hres.
  apply (in_map (format_selector CLASS_SELECTOR)) in Hres.
  unfold format_selector in Hres at 1. cbn [sel_type tagged] in Hres.
  apply includes_true in HC. rewrite HC in Hres. exact Hres.
Qed.

Lemma resolve_identifier_other (ids : JsMap (list string)) (sels : JsMap Selector)
      (id k : string) :
  (forall toks, map_get ids id = Some toks -> ~ In k toks) ->
  map_get (resolve_identifier ids sels id) k = map_get sels k.
Proof.
  intros H. unfold resolve_identifier.
  destruct (map_get ids id) as [toks|]; [|reflexivity].
  specialize (H toks eq_refl). revert sels.
  induction toks as [|x toks IH]; intros sels; simpl; [reflexivity|].
  rewrite IH by (intros Hin; apply H; now right).
  apply map_get_set_other. intros ->. apply H. now left.
Qed.

(** X16: the resolution step changes the tag of the tokens bound to the
    identifiers in use and nothing else: a text that is no such token has
    after it the entry it had when the walk ended. *)
Theorem resolution_leaves_other_texts (st : WalkState) (k : string) :
  (forall id toks, In id (identifiers st) -> map_get (ids st) id = Some toks ->
                   ~ In k toks) ->
  map_get (resolve st) k = map_get (selectors st) k.
Proof.
  unfold resolve. generalize (selectors st) as sels.
  induction (identifiers st) as [|x l IH]; intros sels H; simpl; [reflexivity|].
  rewrite IH by (intros id toks Hin; apply H; now right).
  apply resolve_identifier_other. intros toks. apply H. now left.
Qed.

End Resolution.

Lemma bound_identifier_tokens_returned_witness :
  extractSelectorsFromSvelte Constants.CLASS_SELECTOR
    (Inputs.template_parser MoreExamples.cls_template MoreExamples.cls_ast)
    MoreExamples.cls_template None
  = Normal ["div"; "class"; ".foo"; ".bar"]
  /\ In ".foo" ["div"; "class"; ".foo"; ".bar"].
Proof.
  apply (bound_identifier_tokens_returned Constants.CLASS_SELECTOR
           (Inputs.template_parser MoreExamples.cls_template MoreExamples.cls_ast)
           MoreExamples.cls_template None MoreExamples.cls_ast MoreExamples.cls_state
           (Examples.Attribute "class"
              (Arr [Examples.MustacheTag (Examples.Identifier "cls")]))
           (Examples.Element "div"
              [Examples.Attribute "class"
                 (Arr [Examples.MustacheTag (Examples.Identifier "cls")])] [])
           [Examples.MustacheTag (Examples.Identifier "cls")]
           (Examples.MustacheTag (Examples.Identifier "cls"))
           "cls" ["foo"; "bar"] "foo").
  - reflexivity.
  - reflexivity.
  - vm_compute. repeat (first [left; reflexivity | right]).
  - reflexivity.
  - reflexivity.
  - simpl. auto.
  - reflexivity.
  - reflexivity.
  - reflexivity.
  - reflexivity.
  - simpl. auto.
  - simpl. auto.
Defined.

Lemma resolution_leaves_other_texts_witness :
  map_get (resolve MoreExamples.cls_state) "div"
  = map_get (selectors MoreExamples.cls_state) "div".
Proof.
  apply (resolution_leaves_other_texts MoreExamples.cls_state "div").
  intros id toks Hin Hid. simpl in Hin. destruct Hin as [<-|[]].
  vm_compute in Hid. injection Hid as <-.
  simpl. intros [H|[H|[]]]; discriminate H.
Defined.

(** ** toArray (lines 252-257) *)

Section ToArray.

Lemma split_ws_cons_space (c : ascii) (r : string) :
  is_space c = true ->
  split_ws (String c r)
  = match r with
    | String c' _ => if is_space c' then split_ws r else "" :: split_ws r
    | "" => ["" ; ""]
    end.
Proof. intros H. simpl. rewrite H. destruct r; reflexivity. Qed.

Lemma split_ws_cons_other (c : ascii) (r : string) :
  is_space c = false ->
  exists t ts, split_ws r = t :: ts /\ split_ws (String c r) = String c t :: ts.
Proof.
  intros H. simpl. rewrite H.
  assert (Hne : split_ws r <> []).
  { clear. induction r as [|a r IH]; simpl; [discriminate|].
    destruct (is_space a).
    - destruct r as [|b r]; [discriminate|]. destruct (is_space b); [exact IH|discriminate].
    - destruct (split_ws r); discriminate. }
  destruct (split_ws r) as [|t ts]; [congruence|]. now exists t, ts.
Qed.

Lemma split_ws_no_space (s t : string) (c : ascii) :
  In t (split_ws s) -> In c (chars t) -> is_space c = false.
Proof.
  revert t. induction s as [|a s IH]; intros t.
  - simpl. intros [<-|[]] [].
  - destruct (is_space a) eqn:Ea.
    + rewrite (split_ws_cons_space _ _ Ea). destruct s as [|b s].
      * simpl. intros [<-|[<-|[]]] [].
      * destruct (is_space b); [apply IH|].
        intros [<-|Hin]; [intros []|now apply IH].
    + destruct (split_ws_cons_other a s Ea) as (t0 & ts & Hs & ->).
      rewrite Hs in IH. intros [<-|Hin].
      * simpl. intros [<-|Hc]; [exact Ea|]. apply (IH t0); simpl; auto.
      * apply IH. simpl. auto.
Qed.

Lemma trim_start_fixed (t : string) :
  (forall c, In c (chars t) -> is_space c = false) -> trim_start t = t.
Proof.
  destruct t as [|a t]; simpl; [reflexivity|].
  intros H. now rewrite (H a (or_introl eq_refl)).
Qed.

Lemma trim_end_fixed (t : string) :
  (forall c, In c (chars t) -> is_space c = false) -> trim_end t = t.
Proof.
  induction t as [|a t IH]; simpl; [reflexivity|].
  intros H. rewrite IH by (intros c Hc; apply H; now right).
  destruct t; [|reflexivity]. now rewrite (H a (or_introl eq_refl)).
Qed.

Lemma trim_fixed (t : string) :
  (forall c, In c (chars t) -> is_space c = false) -> trim t = t.
Proof.
  intros H. unfold trim. rewrite (trim_start_fixed _ H). now apply trim_end_fixed.
Qed.

(** X17: [toArray] of a string is the list of its pieces between runs of
    whitespace: no piece holds a whitespace character, so the [trim] applied
    to each piece changes nothing. *)
Theorem toArray_pieces (s : string) :
  toArray (Str s) = split_ws s
  /\ forall t c, In t (toArray (Str s)) -> In c (chars t) -> is_space c = false.
Proof.
  assert (H : toArray (Str s) = split_ws s).
  { simpl. rewrite <- (map_id (split_ws s)) at 2. apply map_ext_in.
    intros t Ht. apply trim_fixed. intros c. now apply (split_ws_no_space s). }
  split; [exact H|]. rewrite H. intros t c. apply split_ws_no_space.
Qed.

Lemma split_ws_leading (c : ascii) (r : string) :
  is_space c = true -> In "" (split_ws (String c r)).
Proof.
  revert c. induction r as [|b r IH]; intros c Hc;
    rewrite (split_ws_cons_space _ _ Hc); [simpl; auto|].
  destruct (is_space b) eqn:Eb; [now apply IH | simpl; auto].
Qed.

Lemma split_ws_trailing (s : string) :
  In "" (tl (split_ws s))
  <-> exists c, last_char s = Some c /\ is_space c = true.
Proof.
  induction s as [|a s IH].
  - simpl. split; [intros [] | intros (c & H & _); discriminate H].
  - destruct (is_space a) eqn:Ea.
    + rewrite (split_ws_cons_space _ _ Ea). destruct s as [|b s].
      * simpl. split; [intros _; now exists a | auto].
      * change (last_char (String a (String b s))) with (last_char (String b s)).
        destruct (is_space b) eqn:Eb; [exact IH|].
        cbn [tl]. rewrite <- IH.
        destruct (split_ws_cons_other b s Eb) as (t0 & ts & _ & ->).
        simpl. split; [intros [H|H]; [discriminate H | exact H] | auto].
    + destruct (split_ws_cons_other a s Ea) as (t0 & ts & Hs & ->).
      cbn [tl]. rewrite Hs in IH. cbn [tl] in IH. rewrite IH.
      destruct s as [|b s]; [|reflexivity].
      simpl. split; intros (c & H & Hc); [discriminate H|].
      injection H as <-. congruence.
Qed.

(** X18: the binding [toArray] builds holds the empty token exactly when
    the string is empty, begins with whitespace or ends with whitespace:
    unlike the text handlers, [toArray] does not filter the empty pieces. *)
Theorem toArray_empty_token (s : string) :
  In "" (toArray (Str s))
  <-> s = ""
      \/ (exists c r, s = String c r /\ is_space c = true)
      \/ (exists c, last_char s = Some c /\ is_space c = true).
Proof.
  destruct (toArray_pieces s) as [-> _].
  destruct s as [|a s].
  - simpl. split; auto.
  - destruct (is_space a) eqn:Ea.
    + split; [intros _; right; left; now exists a, s|].
      intros _. now apply split_ws_leading.
    + pose proof (split_ws_trailing (String a s)) as Ht.
      destruct (split_ws_cons_other a s Ea) as (t0 & ts & _ & Heq).
      rewrite Heq in *. cbn [tl] in Ht. split.
      * intros [H|H]; [discriminate H|]. right. right. now apply Ht.
      * intros [H|[(c & r & H & Hc)|H]]; [discriminate H| |].
        -- injection H as <- <-. congruence.
        -- right. now apply Ht.
Qed.

End ToArray.

(** ** extractSelectorsFromSvelte: bindings seen through a call (lines 119-131) *)

Section CallBinding.

Lemma opt_get (v : Value) (k : string) : Js.opt v k = Js.get v k.
Proof. destruct v; reflexivity. Qed.

Lemma foldM_app {A S} (f : S -> A -> Completion S) (l1 l2 : list A) (s : S) :
  foldM f (l1 ++ l2) s = bind (foldM f l1 s) (foldM f l2).
Proof.
  revert s. induction l1 as [|a l1 IH]; intros s; simpl; [reflexivity|].
  destruct (f s a); simpl; [apply IH | reflexivity].
Qed.

(** X19: for a declaration whose initializer is a call on an array literal
    ([[e1, ..., en].join(" ")] and the like), each element overwrites the
    binding of the one before: when the last element is a string literal,
    the identifier is bound to the tokens of that literal alone. *)
Theorem call_binding_last_element
        (node parent : Value) (st st' : WalkState) (n : string)
        (elements : list Value) (last : Value) (v : string) :
  Js.get node "type" = Str "Identifier" ->
  Js.get node "name" = Str n ->
  Js.get (Js.get parent "init") "type" = Str "CallExpression" ->
  Js.get (Js.get (Js.get (Js.get parent "init") "callee") "object") "elements"
  = Arr (elements ++ [last]) ->
  Js.get last "type" = Str "Literal" ->
  Js.get last "value" = Str v ->
  on_identifier node parent st = Normal st' ->
  map_get (ids st') n = Some (toArray (Str v)).
Proof.
  intros Htype Hname Hinit Helems Hlt Hlv. unfold on_identifier, Js.prop.
  rewrite Htype, Hname.
  change (Js.is_str (Str "Identifier") "Identifier") with true. cbv iota.
  destruct parent as [| | | | | |props]; try discriminate Hinit.
  cbn [Js.nullish bind]. rewrite !opt_get, Hinit, Helems.
  change (Js.is_str (Str "CallExpression") "Literal") with false.
  change (Js.is_str (Str "CallExpression") "CallExpression") with true.
  cbv iota. cbn [bind]. rewrite foldM_app.
  intros H. apply bind_Normal in H as (s1 & _ & H).
  cbn [foldM] in H. apply bind_Normal in H as (s2 & H & Hret).
  injection Hret as <-.
  unfold bind_element, Js.prop in H.
  destruct last as [| | | | | |lprops]; try discriminate Hlt.
  cbn [Js.nullish bind] in H. rewrite Hlt, Hlv in H.
  change (Js.is_str (Str "Literal") "Literal") with true in H.
  change (Js.is_str (Str "Literal") "LogicalExpression") with false in H.
  cbn [Js.as_string bind andb] in H. injection H as <-.
  cbn [ids set_id]. apply map_get_set_same.
Qed.

End CallBinding.

Lemma call_binding_last_element_witness :
  exists st',
    on_identifier (Examples.Identifier "x") MoreExamples.joined_declarator empty_state
    = Normal st'
    /\ map_get (ids st') "x" = Some ["c"; "d"].
Proof.
  eexists. split; [reflexivity|].
  apply (call_binding_last_element (Examples.Identifier "x")
           MoreExamples.joined_declarator empty_state _ "x"
           [Examples.Literal (Str "a b")] (Examples.Literal (Str "c d")) "c d");
    reflexivity.
Defined.

(** ** extractSelectorsFromSvelte: [:global(...)] selectors (lines 193-202, 233-249) *)

Section GlobalSelectors.

Lemma on_global_result (node : Value) (raw : string) (st st' : WalkState) :
  global_selector_node node raw ->
  on_global node st = Normal st' ->
  st' = fold_left (fun st selector => set_selector st (trim selector) global_tag)
                  (split "," raw) st.
Proof.
  intros (Htype & Hname & Hraw). unfold on_global.
  rewrite Htype, Hname.
  change (Js.is_str (Str "PseudoClassSelector") "PseudoClassSelector"
          && Js.is_str (Str "global") "global") with true.
  cbv iota.
  destruct node as [| | | | | |props]; try discriminate Htype.
  unfold Js.prop. cbn [Js.nullish bind].
  destruct (Js.index0 (Js.get (Obj props) "children")) as [| | | | | |fs] eqn:E0;
    try discriminate Hraw.
  destruct (Js.get (Obj props) "children") as [| | | | | |cs];
    try discriminate E0;
    cbn [Js.nullish bind]; rewrite Hraw; cbn [Js.as_string bind];
    intros H; injection H as <-; reflexivity.
Qed.

Lemma fold_global_tags (pieces : list string) (st : WalkState) (piece : string) :
  In piece pieces ->
  map_get
    (selectors
       (fold_left (fun st selector => set_selector st (trim selector) global_tag)
                  pieces st))
    (trim piece)
  = Some global_tag.
Proof.
  assert (Hkeep : forall l s0,
             map_get (selectors s0) (trim piece) = Some global_tag ->
             map_get
               (selectors
                  (fold_left (fun st selector => set_selector st (trim selector) global_tag)
                             l s0))
               (trim piece)
             = Some global_tag).
  { induction l as [|x l IH]; intros s0 H0; simpl; [exact H0|].
    apply IH. simpl. destruct (String.eqb_spec (trim piece) (trim x)) as [->|Hne].
    - apply map_get_set_same.
    - now rewrite map_get_set_other. }
  revert st. induction pieces as [|p pieces IH]; intros st []; simpl.
  - subst p. apply Hkeep. simpl. apply map_get_set_same.
  - now apply IH.
Qed.

(** The call of [enter] on a [:global(...)] node leaves every trimmed piece
    of its argument under the tag of the block: no later block of the same
    call applies to the node. *)
Lemma enter_global_tags (node parent : Value) (raw piece : string) (s0 s1 : WalkState) :
  global_selector_node node raw ->
  In piece (split "," raw) ->
  enter node parent s0 = Normal s1 ->
  map_get (selectors s1) (trim piece) = Some global_tag.
Proof.
  intros Hnode Hin H. pose proof Hnode as (Htype & _ & _).
  apply enter_chain in H
    as (x1 & x2 & a3 & a4 & x5 & x6 & x7 & a8 & H1 & H2 & H3 & H4 & H5 & H6 & H7 & H8 & ->).
  unfold on_literal in H7. rewrite Htype in H7.
  change (Js.is_str (Str "PseudoClassSelector") "Literal") with false in H7.
  injection H7 as <-.
  unfold on_template_element in H8. rewrite Htype in H8.
  change (Js.is_str (Str "PseudoClassSelector") "TemplateElement") with false in H8.
  injection H8 as <-. cbn [fst].
  rewrite (on_global_result _ _ _ _ Hnode H6). now apply fold_global_tags.
Qed.

Lemma calls_leave_text (calls : list (Value * Value)) (k : string) (s s' : WalkState) :
  (forall call, In call calls -> leaves_text call k) ->
  foldM (fun st call => enter (fst call) (snd call) st) calls s = Normal s' ->
  map_get (selectors s') k = map_get (selectors s) k.
Proof.
  revert s. induction calls as [|c calls IH]; intros s Hl H; simpl in H.
  - now injection H as <-.
  - apply bind_Normal in H as (s1 & H1 & H).
    rewrite (IH s1) by (auto; intros call Hin; apply Hl; now right).
    apply (Hl c (or_introl eq_refl)), H1.
Qed.

Lemma resolve_other (st : WalkState) (k : string) :
  (forall id toks, In id (identifiers st) -> map_get (ids st) id = Some toks ->
                   ~ In k toks) ->
  map_get (resolve st) k = map_get (selectors st) k.
Proof.
  unfold resolve. generalize (selectors st) as sels.
  induction (identifiers st) as [|x l IH]; intros sels H; simpl; [reflexivity|].
  rewrite IH by (intros id toks Hin; apply H; now right).
  apply resolve_identifier_other. intros toks. apply H. now left.
Qed.

Variable CLASS_SELECTOR : list string.
Variable parse : string -> option string -> Completion Value.

(** C6 (amended): for a template whose tree holds a [:global(...)]
    selector, whatever else it holds, the call returns and every
    comma-separated piece of the argument, trimmed, is in the mapping when
    the walk and the resolution are over, with no shape filtering.  The
    [:global] block registers it under the tag PseudoClassSelector/global:
    when no node visited after the selector writes the same text and no
    identifier in use is bound to it, that is the tag it ends with, and,
    the tag not being one of [CLASS_SELECTOR], the piece is returned
    unchanged, with no dot in front. *)
Theorem global_selectors_pass_through
        (template : string) (filename : option string) (ast : Value)
        (st : WalkState) (before after : list (Value * Value))
        (node parent : Value) (raw piece : string) :
  parse template filename = Normal ast ->
  walk ast = Normal st ->
  visits Null ast = (before ++ (node, parent) :: after)%list ->
  global_selector_node node raw ->
  In piece (split "," raw) ->
  extractSelectorsFromSvelte CLASS_SELECTOR parse template filename
  = Normal (finish CLASS_SELECTOR st)
  /\ map_get (resolve st) (trim piece) <> None
  /\ ((forall call, In call after -> leaves_text call (trim piece)) ->
      (forall id toks, In id (identifiers st) ->
                       map_get (ids st) id = Some toks ->
                       ~ In (trim piece) toks) ->
      map_get (resolve st) (trim piece) = Some global_tag
      /\ (~ In "PseudoClassSelector" CLASS_SELECTOR ->
          In (trim piece) (finish CLASS_SELECTOR st))).
Proof.
  intros HP HW Hvisits Hnode Hpiece.
  split; [exact (extract_of_walk _ _ _ _ _ _ HP HW)|].
  split.
  - apply resolve_keeps.
    apply (walk_global_registers ast node parent raw st piece HW); auto.
    rewrite Hvisits. apply in_or_app. right. now left.
  - intros Hafter Hids.
    assert (Htag : map_get (resolve st) (trim piece) = Some global_tag).
    { rewrite (resolve_other _ _ Hids).
      unfold walk in HW. rewrite Hvisits, foldM_app in HW.
      apply bind_Normal in HW as (sb & _ & HW). cbn [foldM] in HW.
      apply bind_Normal in HW as (s1 & H1 & HW).
      rewrite (calls_leave_text _ _ _ _ Hafter HW).
      cbn [fst snd] in H1. eapply enter_global_tags; eauto. }
    split; [exact Htag|].
    intros Hno. apply includes_false in Hno.
    apply map_get_In in Htag.
    apply (in_map (format_selector CLASS_SELECTOR)) in Htag.
    unfold format_selector in Htag at 1. cbn [sel_type global_tag] in Htag.
    rewrite Hno in Htag. exact Htag.
Qed.

End GlobalSelectors.

Lemma global_selectors_pass_through_witness :
  extractSelectorsFromSvelte Constants.CLASS_SELECTOR
    (Inputs.template_parser (Examples.global_template ".foo, .bar")
                            (Examples.global_ast ".foo, .bar"))
    (Examples.global_template ".foo, .bar") None
  = Normal [".foo"; ".bar"]
  /\ map_get (resolve Inputs.global_state) ".bar" = Some global_tag
  /\ In ".bar" [".foo"; ".bar"].
Proof.
  destruct (global_selectors_pass_through Constants.CLASS_SELECTOR
              (Inputs.template_parser (Examples.global_template ".foo, .bar")
                                      (Examples.global_ast ".foo, .bar"))
              (Examples.global_template ".foo, .bar") None
              (Examples.global_ast ".foo, .bar") Inputs.global_state
              (firstn 6 (visits Null (Examples.global_ast ".foo, .bar")))
              (skipn 7 (visits Null (Examples.global_ast ".foo, .bar")))
              (Examples.GlobalSelector ".foo, .bar")
              (Examples.SelectorOf (Examples.GlobalSelector ".foo, .bar"))
              ".foo, .bar" " .bar")
    as (Hout & _ & Hrest).
  - reflexivity.
  - reflexivity.
  - reflexivity.
  - repeat split; reflexivity.
  - simpl. auto.
  - split; [exact Hout|]. destruct Hrest as [Htag Hin].
    + intros call Hcall. cbn in Hcall.
      destruct Hcall as [<-|[<-|[]]]; intros s s' H; cbn in H;
        injection H as <-; reflexivity.
    + intros id toks [].
    + split; [exact Htag|]. apply Hin.
      simpl. intros [H|[H|[]]]; discriminate H.
Defined.

(** * The extractors over the store *)

(** ** The store *)

Section StoreFacts.

Lemma update_hit {A} (l : list A) (n : nat) (a x : A) :
  nth_error l n = Some x -> nth_error (Runtime.update l n a) n = Some a.
Proof.
  revert n; induction l as [|y l IH]; intros [|n] H; simpl in *;
    try discriminate; auto.
Qed.

Lemma update_miss {A} (l : list A) (n m : nat) (a : A) :
  m <> n -> nth_error (Runtime.update l n a) m = nth_error l m.
Proof.
  revert n m; induction l as [|y l IH]; intros [|n] [|m] H; simpl;
    try reflexivity; try congruence.
  apply IH. congruence.
Qed.

Lemma nth_error_new {A} (l : list A) (a : A) :
  nth_error (l ++ [a]) (length l) = Some a.
Proof. induction l; simpl; auto. Qed.

Lemma nth_error_old {A} (l : list A) (a x : A) (n : nat) :
  nth_error l n = Some x -> nth_error (l ++ [a]) n = Some x.
Proof.
  revert n; induction l as [|y l IH]; intros [|n] H; simpl in *;
    try discriminate; auto.
Qed.

Lemma nth_error_other {A} (l : list A) (a : A) (n : nat) :
  n <> length l -> nth_error (l ++ [a]) n = nth_error l n.
Proof.
  revert n; induction l as [|y l IH]; intros [|n] H; simpl in *;
    try congruence.
  - destruct n; reflexivity.
  - apply IH. congruence.
Qed.

Lemma bindR_normal {A B} (m : Runtime.Run A) (k : A -> Runtime.Run B)
      (h : Runtime.Store) (a : A) :
  fst (m h) = Normal a -> Runtime.bindR m k h = k a (snd (m h)).
Proof.
  unfold Runtime.bindR. destruct (m h) as [c h']. simpl. intros ->. reflexivity.
Qed.

Lemma bindR_throw {A B} (m : Runtime.Run A) (k : A -> Runtime.Run B)
      (h : Runtime.Store) (e : Error) :
  fst (m h) = Throw e -> fst (Runtime.bindR m k h) = Throw e.
Proof.
  unfold Runtime.bindR. destruct (m h) as [c h']. simpl. intros ->. reflexivity.
Qed.

(** *** The rules of [refines] *)

Lemma refines_ret {S} (I : Runtime.Store -> S -> Prop) :
  refines I (Runtime.ret tt) (fun s => Normal s).
Proof. intros h s H. simpl. auto. Qed.

Lemma refines_raise {S} (I : Runtime.Store -> S -> Prop) (e : Error) :
  refines I (Runtime.raise e) (fun _ => Throw e).
Proof. intros h s H. reflexivity. Qed.

Lemma refines_seq {S} (I : Runtime.Store -> S -> Prop)
      (m1 m2 : Runtime.Run unit) (f1 f2 : S -> Completion S) :
  refines I m1 f1 -> refines I m2 f2 ->
  refines I (Runtime.bindR m1 (fun _ => m2)) (fun s => bind (f1 s) f2).
Proof.
  intros H1 H2 h s H. specialize (H1 h s H).
  destruct (f1 s) as [s1|e]; simpl.
  - destruct H1 as [E1 I1]. rewrite (bindR_normal _ _ _ _ E1).
    exact (H2 _ _ I1).
  - apply bindR_throw. exact H1.
Qed.

Lemma refines_lift {S A} (I : Runtime.Store -> S -> Prop) (c : Completion A)
      (k : A -> Runtime.Run unit) (f : A -> S -> Completion S) :
  (forall a, refines I (k a) (f a)) ->
  refines I (Runtime.bindR (Runtime.lift c) k) (fun s => bind c (fun a => f a s)).
Proof.
  intros Hk h s H. destruct c as [a|e]; simpl.
  - exact (Hk a h s H).
  - reflexivity.
Qed.

Lemma refines_forEach {S A} (I : Runtime.Store -> S -> Prop)
      (body : A -> Runtime.Run unit) (f : S -> A -> Completion S) (l : list A) :
  (forall a, refines I (body a) (fun s => f s a)) ->
  refines I (Runtime.forEach l body) (foldM f l).
Proof.
  intros Hb. induction l as [|a l IH].
  - apply refines_ret.
  - simpl. exact (refines_seq I _ _ _ _ (Hb a) IH).
Qed.

Lemma refines_each {S A} (I : Runtime.Store -> S -> Prop)
      (body : A -> Runtime.Run unit) (f : S -> A -> S) (l : list A) :
  (forall a, refines I (body a) (fun s => Normal (f s a))) ->
  refines I (Runtime.forEach l body) (fun s => Normal (fold_left f l s)).
Proof.
  intros Hb. induction l as [|a l IH].
  - apply refines_ret.
  - intros h s H. simpl.
    exact (refines_seq I _ _ _ _ (Hb a) IH h s H).
Qed.

(** A regular expression with the [g] flag carries its [lastIndex] from one
    [test] to the next: the same text tested twice through one object is
    found, then missed.  This is the state a call would hand to the next
    one, were the object shared between calls. *)
Lemma shared_regexp_misses_second_test :
  let h := snd (Runtime.new_regexp true
                  {| Runtime.regexps := []; Runtime.sets := [];
                     Runtime.selector_maps := []; Runtime.binding_maps := [] |}) in
  fst (Runtime.regexp_test 0 "c1" h) = Normal true
  /\ fst (Runtime.regexp_test 0 "c1" (snd (Runtime.regexp_test 0 "c1" h)))
     = Normal false.
Proof. vm_compute. split; reflexivity. Qed.

End StoreFacts.

(** ** The blocks of [enter] *)

Section EnterStore.

Variables selectors_ref identifiers_ref ids_ref CLASS_REGEX : nat.

Lemma store_selector_map_set (k : string) (meta : Selector) :
  refines (holds_enter selectors_ref identifiers_ref ids_ref CLASS_REGEX) (Runtime.selector_map_set selectors_ref k meta)
          (fun acc => Normal (set_selector (fst acc) k meta, snd acc)).
Proof.
  intros h [st li] [(Hs & Hi & Hb) Hr]. simpl in *.
  unfold Runtime.selector_map_set. rewrite Hs. simpl.
  split; [reflexivity|]. repeat split; simpl; auto.
  eapply update_hit; eauto.
Qed.

Lemma store_set_add (name : string) :
  refines (holds_enter selectors_ref identifiers_ref ids_ref CLASS_REGEX) (Runtime.set_add identifiers_ref name)
          (fun acc => Normal (add_identifier (fst acc) name, snd acc)).
Proof.
  intros h [st li] [(Hs & Hi & Hb) Hr]. simpl in *.
  unfold Runtime.set_add. rewrite Hi. simpl.
  split; [reflexivity|]. repeat split; simpl; auto.
  eapply update_hit; eauto.
Qed.

Lemma store_binding_map_set (id : string) (value : list string) :
  refines (holds_enter selectors_ref identifiers_ref ids_ref CLASS_REGEX) (Runtime.binding_map_set ids_ref id value)
          (fun acc => Normal (set_id (fst acc) id value, snd acc)).
Proof.
  intros h [st li] [(Hs & Hi & Hb) Hr]. simpl in *.
  unfold Runtime.binding_map_set. rewrite Hb. simpl.
  split; [reflexivity|]. repeat split; simpl; auto.
  eapply update_hit; eauto.
Qed.

Lemma store_test_and_set (selector : string) :
  refines (holds_enter selectors_ref identifiers_ref ids_ref CLASS_REGEX) (Runtime.test_and_set selectors_ref CLASS_REGEX selector)
          (fun acc => Normal (test_and_set acc selector)).
Proof.
  intros h [st li] [(Hs & Hi & Hb) Hr]. simpl in *.
  unfold Runtime.test_and_set, Runtime.bindR, Runtime.regexp_test.
  rewrite Hr. destruct (test true li selector) as [[|] li'].
  - unfold Runtime.selector_map_set. cbn [Runtime.selector_maps].
    rewrite Hs. simpl.
    split; [reflexivity|]. repeat split; simpl; auto.
    + eapply update_hit; eauto.
    + eapply update_hit; eauto.
  - simpl. split; [reflexivity|]. repeat split; simpl; auto.
    eapply update_hit; eauto.
Qed.

Lemma store_register_text (text : string) :
  refines (holds_enter selectors_ref identifiers_ref ids_ref CLASS_REGEX) (Runtime.register_text selectors_ref CLASS_REGEX text)
          (fun acc => Normal (register_text text acc)).
Proof.
  unfold Runtime.register_text, register_text.
  apply refines_each. exact store_test_and_set.
Qed.

Lemma store_value_part (value : Value) :
  refines (holds_enter selectors_ref identifiers_ref ids_ref CLASS_REGEX) (Runtime.value_part selectors_ref identifiers_ref CLASS_REGEX value)
          (fun acc => value_part acc value).
Proof.
  unfold Runtime.value_part, value_part.
  apply (refines_lift (holds_enter selectors_ref identifiers_ref ids_ref CLASS_REGEX) (Js.prop value "type")
           _ (fun type acc =>
                if Js.is_str type "MustacheTag" then
                  let expression := Js.get value "expression" in
                  if Js.is_str (Js.opt expression "type") "Identifier" then
                    name <- Js.as_string (Js.get expression "name") ;;
                    Normal (add_identifier (fst acc) name, snd acc)
                  else Normal acc
                else if Js.is_str type "Text" then
                  data <- Js.as_string (Js.get value "data") ;;
                  Normal (register_text data acc)
                else Normal acc)).
  intros type.
  destruct (Js.is_str type "MustacheTag").
  - cbv zeta.
    destruct (Js.is_str (Js.opt (Js.get value "expression") "type") "Identifier").
    + apply (refines_lift (holds_enter selectors_ref identifiers_ref ids_ref CLASS_REGEX) _ _
               (fun name acc => Normal (add_identifier (fst acc) name, snd acc))).
      exact store_set_add.
    + apply refines_ret.
  - destruct (Js.is_str type "Text").
    + apply (refines_lift (holds_enter selectors_ref identifiers_ref ids_ref CLASS_REGEX) _ _ (fun data acc => Normal (register_text data acc))).
      exact store_register_text.
    + apply refines_ret.
Qed.

Lemma store_bind_element (id element : Value) :
  refines (holds_enter selectors_ref identifiers_ref ids_ref CLASS_REGEX) (Runtime.bind_element ids_ref id element)
          (on_state (fun st => bind_element id st element)).
Proof.
  unfold Runtime.bind_element.
  assert (E : forall acc,
             on_state (fun st => bind_element id st element) acc
             = bind (Js.prop element "type")
                 (fun type =>
                    bind ((if Js.is_str type "Literal" then
                             fun acc =>
                               bind (Js.as_string id)
                                    (fun name =>
                                       Normal (set_id (fst acc) name
                                                 (toArray (Js.get element "value")),
                                               snd acc))
                           else fun acc => Normal acc) acc)
                         (if Js.is_str type "LogicalExpression"
                             && Js.truthy (Js.opt (Js.get element "right") "value")
                          then
                            fun acc =>
                              bind (Js.as_string id)
                                   (fun name =>
                                      Normal (set_id (fst acc) name
                                                (toArray (Js.opt (Js.get element "right") "value")),
                                              snd acc))
                          else fun acc => Normal acc))).
  { intros [st li]. unfold on_state, bind_element. simpl.
    destruct (Js.prop element "type") as [type|e]; simpl; [|reflexivity].
    destruct (Js.is_str type "Literal");
      destruct (Js.is_str type "LogicalExpression"
                && Js.truthy (Js.opt (Js.get element "right") "value"));
      destruct (Js.as_string id); reflexivity. }
  intros h acc H. rewrite E. revert h acc H.
  apply (refines_lift (holds_enter selectors_ref identifiers_ref ids_ref CLASS_REGEX) (Js.prop element "type") _
           (fun type acc => bind (_ acc) _)).
  intros type.
  apply refines_seq.
  - destruct (Js.is_str type "Literal").
    + apply (refines_lift (holds_enter selectors_ref identifiers_ref ids_ref CLASS_REGEX) _ _
               (fun name acc => Normal (set_id (fst acc) name _, snd acc))).
      intros name. apply store_binding_map_set.
    + apply refines_ret.
  - cbv zeta.
    destruct (Js.is_str type "LogicalExpression"
              && Js.truthy (Js.opt (Js.get element "right") "value")).
    + apply (refines_lift (holds_enter selectors_ref identifiers_ref ids_ref CLASS_REGEX) _ _
               (fun name acc => Normal (set_id (fst acc) name _, snd acc))).
      intros name. apply store_binding_map_set.
    + apply refines_ret.
Qed.

End EnterStore.

Section EnterBlocks.

Variables selectors_ref identifiers_ref ids_ref CLASS_REGEX : nat.

Lemma refines_ext {S} (J : Runtime.Store -> S -> Prop) (m : Runtime.Run unit)
      (f g : S -> Completion S) :
  (forall s, g s = f s) -> refines J m f -> refines J m g.
Proof. intros E H h s Hs. rewrite E. exact (H h s Hs). Qed.

Lemma refines_pure {S A} (J : Runtime.Store -> S -> Prop) (a : A)
      (k : A -> Runtime.Run unit) (f : S -> Completion S) :
  refines J (k a) f -> refines J (Runtime.bindR (Runtime.ret a) k) f.
Proof. intros H h s Hs. exact (H h s Hs). Qed.

Lemma store_on_identifier (node parent : Value) :
  refines (holds_enter selectors_ref identifiers_ref ids_ref CLASS_REGEX) (Runtime.on_identifier ids_ref node parent)
          (on_state (on_identifier node parent)).
Proof.
  unfold Runtime.on_identifier. cbv zeta.
  apply (refines_ext (holds_enter selectors_ref identifiers_ref ids_ref CLASS_REGEX) _
           (fun acc =>
              if Js.is_str (Js.get node "type") "Identifier" then
                bind (Js.prop parent "init")
                     (fun init =>
                        bind ((if Js.is_str (Js.opt init "type") "Literal" then
                                 fun acc =>
                                   bind (Js.as_string (Js.get node "name"))
                                        (fun id =>
                                           Normal (set_id (fst acc) id
                                                     (toArray (Js.get init "value")),
                                                   snd acc))
                               else fun acc => Normal acc) acc)
                             (if Js.is_str (Js.opt init "type") "CallExpression" then
                                match Js.opt (Js.opt (Js.get init "callee") "object")
                                             "elements" with
                                | Undefined | Null => fun acc => Normal acc
                                | Arr elements =>
                                    foldM (fun acc element =>
                                             on_state
                                               (fun st =>
                                                  bind_element (Js.get node "name")
                                                               st element) acc)
                                          elements
                                | _ => fun _ => Throw TypeError
                                end
                              else fun acc => Normal acc))
              else Normal acc)).
  { intros [st li]. unfold on_state, on_identifier. simpl.
    destruct (Js.is_str (Js.get node "type") "Identifier"); [|reflexivity].
    destruct (Js.prop parent "init") as [init|e]; simpl; [|reflexivity].
    assert (F : forall elements st,
               bind (foldM (bind_element (Js.get node "name")) elements st)
                    (fun st' => Normal (st', li))
               = foldM (fun acc element =>
                          on_state
                            (fun st => bind_element (Js.get node "name") st element)
                            acc) elements (st, li)).
    { clear. induction elements as [|el els IH]; intros st; cbn [foldM];
        [reflexivity|].
      change (on_state (fun st0 => bind_element (Js.get node "name") st0 el) (st, li))
        with (bind (bind_element (Js.get node "name") st el)
                   (fun st' => Normal (st', li))).
      destruct (bind_element (Js.get node "name") st el) as [st'|e];
        cbn [bind]; [apply IH | reflexivity]. }
    destruct (Js.is_str (Js.opt init "type") "Literal");
      [destruct (Js.as_string (Js.get node "name")) as [id|e]; simpl;
       [|reflexivity] |];
      (destruct (Js.is_str (Js.opt init "type") "CallExpression");
       [|reflexivity]);
      destruct (Js.opt (Js.opt (Js.get init "callee") "object") "elements");
      simpl; try reflexivity; apply F. }
  destruct (Js.is_str (Js.get node "type") "Identifier"); [|apply refines_ret].
  apply (refines_lift (holds_enter selectors_ref identifiers_ref ids_ref CLASS_REGEX) (Js.prop parent "init") _
           (fun init acc => bind (_ acc) _)).
  intros init. apply refines_seq.
  - destruct (Js.is_str (Js.opt init "type") "Literal").
    + apply (refines_lift (holds_enter selectors_ref identifiers_ref ids_ref CLASS_REGEX) _ _
               (fun id acc => Normal (set_id (fst acc) id _, snd acc))).
      intros id. apply store_binding_map_set.
    + apply refines_ret.
  - destruct (Js.is_str (Js.opt init "type") "CallExpression");
      [|apply refines_ret].
    destruct (Js.opt (Js.opt (Js.get init "callee") "object") "elements");
      try apply refines_ret; try apply refines_raise.
    apply refines_forEach. intros element. apply store_bind_element.
Qed.

Lemma store_on_element (node : Value) :
  refines (holds_enter selectors_ref identifiers_ref ids_ref CLASS_REGEX) (Runtime.on_element selectors_ref node) (on_state (on_element node)).
Proof.
  unfold Runtime.on_element.
  apply (refines_ext (holds_enter selectors_ref identifiers_ref ids_ref CLASS_REGEX) _
           (fun acc =>
              if Js.is_str (Js.get node "type") "Element" then
                bind (Js.as_string (Js.get node "name"))
                     (fun k => Normal (set_selector (fst acc) k (tagged "Element"),
                                       snd acc))
              else Normal acc)).
  { intros [st li]. unfold on_state, on_element. simpl.
    destruct (Js.is_str (Js.get node "type") "Element"); [|reflexivity].
    destruct (Js.as_string (Js.get node "name")); reflexivity. }
  destruct (Js.is_str (Js.get node "type") "Element"); [|apply refines_ret].
  apply (refines_lift (holds_enter selectors_ref identifiers_ref ids_ref CLASS_REGEX) _ _
           (fun k acc => Normal (set_selector (fst acc) k _, snd acc))).
  intros k. apply store_selector_map_set.
Qed.

Lemma store_on_class_attribute (node : Value) :
  refines (holds_enter selectors_ref identifiers_ref ids_ref CLASS_REGEX) (Runtime.on_class_attribute selectors_ref identifiers_ref CLASS_REGEX node)
          (on_class_attribute node).
Proof.
  unfold Runtime.on_class_attribute, on_class_attribute.
  destruct (Js.is_str (Js.get node "type") "Attribute"
            && Js.is_str (Js.get node "name") "class");
    [|apply refines_ret].
  destruct (Js.get node "value");
    try apply refines_ret; try apply refines_raise.
  apply refines_forEach. intros value. apply store_value_part.
Qed.

Lemma store_on_attribute (node : Value) :
  refines (holds_enter selectors_ref identifiers_ref ids_ref CLASS_REGEX) (Runtime.on_attribute selectors_ref identifiers_ref CLASS_REGEX node)
          (on_attribute node).
Proof.
  unfold Runtime.on_attribute.
  apply (refines_ext (holds_enter selectors_ref identifiers_ref ids_ref CLASS_REGEX) _
           (fun acc =>
              if Js.is_str (Js.get node "type") "Attribute" then
                bind (Js.as_string (Js.get node "name"))
                     (fun k =>
                        bind (Normal (set_selector (fst acc) k (tagged "Attribute"),
                                      snd acc))
                             (match Js.get node "value" with
                              | Arr parts => foldM value_part parts
                              | Null | Obj _ => fun _ => Throw TypeError
                              | _ => fun acc => Normal acc
                              end))
              else Normal acc)).
  { intros acc. unfold on_attribute.
    destruct (Js.is_str (Js.get node "type") "Attribute"); [|reflexivity].
    destruct (Js.as_string (Js.get node "name")); [|reflexivity].
    destruct (Js.get node "value"); reflexivity. }
  destruct (Js.is_str (Js.get node "type") "Attribute"); [|apply refines_ret].
  apply (refines_lift (holds_enter selectors_ref identifiers_ref ids_ref CLASS_REGEX) _ _
           (fun k acc =>
              bind (Normal (set_selector (fst acc) k (tagged "Attribute"), snd acc))
                   (match Js.get node "value" with
                    | Arr parts => foldM value_part parts
                    | Null | Obj _ => fun _ => Throw TypeError
                    | _ => fun acc => Normal acc
                    end))).
  intros k. apply refines_seq.
  - apply store_selector_map_set.
  - destruct (Js.get node "value");
      try apply refines_ret; try apply refines_raise.
    apply refines_forEach. intros value. apply store_value_part.
Qed.

Lemma store_on_class_directive (node : Value) :
  refines (holds_enter selectors_ref identifiers_ref ids_ref CLASS_REGEX) (Runtime.on_class_directive selectors_ref node)
          (on_state (on_class_directive node)).
Proof.
  unfold Runtime.on_class_directive.
  apply (refines_ext (holds_enter selectors_ref identifiers_ref ids_ref CLASS_REGEX) _
           (fun acc =>
              if Js.is_str (Js.get node "type") "Class" then
                bind (Js.as_string (Js.get node "name"))
                     (fun k => Normal (set_selector (fst acc) k (tagged "Class"),
                                       snd acc))
              else Normal acc)).
  { intros [st li]. unfold on_state, on_class_directive. simpl.
    destruct (Js.is_str (Js.get node "type") "Class"); [|reflexivity].
    destruct (Js.as_string (Js.get node "name")); reflexivity. }
  destruct (Js.is_str (Js.get node "type") "Class"); [|apply refines_ret].
  apply (refines_lift (holds_enter selectors_ref identifiers_ref ids_ref CLASS_REGEX) _ _
           (fun k acc => Normal (set_selector (fst acc) k _, snd acc))).
  intros k. apply store_selector_map_set.
Qed.

Lemma fold_on_state {A} (f : WalkState -> A -> WalkState) (l : list A)
      (st : WalkState) (li : nat) :
  fold_left (fun acc a => (f (fst acc) a, snd acc)) l (st, li)
  = (fold_left f l st, li).
Proof.
  revert st; induction l as [|a l IH]; intros st; simpl; [reflexivity|].
  apply IH.
Qed.

Lemma store_on_global (node : Value) :
  refines (holds_enter selectors_ref identifiers_ref ids_ref CLASS_REGEX) (Runtime.on_global selectors_ref node) (on_state (on_global node)).
Proof.
  unfold Runtime.on_global.
  apply (refines_ext (holds_enter selectors_ref identifiers_ref ids_ref CLASS_REGEX) _
           (fun acc =>
              if Js.is_str (Js.get node "type") "PseudoClassSelector"
                 && Js.is_str (Js.get node "name") "global" then
                bind (Js.prop node "children")
                     (fun children =>
                        if Js.nullish children then Throw TypeError
                        else if Js.nullish (Js.index0 children) then Normal acc
                        else
                          bind (Js.as_string (Js.get (Js.index0 children) "value"))
                               (fun value =>
                                  Normal
                                    (fold_left
                                       (fun acc selector =>
                                          (set_selector (fst acc) (trim selector)
                                             {| sel_type := "PseudoClassSelector";
                                                sel_name := Some "global" |},
                                           snd acc))
                                       (split "," value) acc)))
              else Normal acc)).
  { intros [st li]. unfold on_state, on_global. cbn [fst snd].
    destruct (Js.is_str (Js.get node "type") "PseudoClassSelector"
              && Js.is_str (Js.get node "name") "global"); [|reflexivity].
    destruct (Js.prop node "children") as [children|e]; cbn [bind];
      [|reflexivity].
    destruct (Js.nullish children); cbn [bind]; [reflexivity|].
    destruct (Js.nullish (Js.index0 children)); [reflexivity|].
    destruct (Js.as_string (Js.get (Js.index0 children) "value")); cbn [bind];
      [|reflexivity].
    rewrite (fold_on_state
               (fun st selector =>
                  set_selector st (trim selector)
                    {| sel_type := "PseudoClassSelector";
                       sel_name := Some "global" |})).
    reflexivity. }
  destruct (Js.is_str (Js.get node "type") "PseudoClassSelector"
            && Js.is_str (Js.get node "name") "global"); [|apply refines_ret].
  apply (refines_lift (holds_enter selectors_ref identifiers_ref ids_ref CLASS_REGEX) _ _
           (fun children acc =>
              if Js.nullish children then Throw TypeError
              else if Js.nullish (Js.index0 children) then Normal acc
                   else _)).
  intros children.
  destruct (Js.nullish children).
  - intros h acc H. reflexivity.
  - apply refines_pure.
    destruct (Js.nullish (Js.index0 children)); [apply refines_ret|].
    apply (refines_lift (holds_enter selectors_ref identifiers_ref ids_ref CLASS_REGEX) _ _
             (fun value acc => Normal (fold_left _ (split "," value) acc))).
    intros value. apply refines_each.
    intros selector. apply store_selector_map_set.
Qed.

Lemma store_on_literal (node : Value) :
  refines (holds_enter selectors_ref identifiers_ref ids_ref CLASS_REGEX) (Runtime.on_literal selectors_ref node) (on_state (on_literal node)).
Proof.
  unfold Runtime.on_literal.
  apply (refines_ext (holds_enter selectors_ref identifiers_ref ids_ref CLASS_REGEX) _
           (fun acc =>
              if Js.is_str (Js.get node "type") "Literal" then
                match Js.get node "value" with
                | Str value =>
                    Normal
                      (fold_left
                         (fun acc selector =>
                            ((if toLowerCase selector =? selector
                              then set_selector (fst acc) selector (tagged "Class")
                              else fst acc), snd acc))
                         (filter JsString.truthy (split_ws value)) acc)
                | _ => Normal acc
                end
              else Normal acc)).
  { intros [st li]. unfold on_state, on_literal. cbn [fst snd].
    destruct (Js.is_str (Js.get node "type") "Literal"); [|reflexivity].
    destruct (Js.get node "value"); try reflexivity. cbn [bind].
    rewrite (fold_on_state
               (fun st selector =>
                  if toLowerCase selector =? selector
                  then set_selector st selector (tagged "Class") else st)).
    reflexivity. }
  destruct (Js.is_str (Js.get node "type") "Literal"); [|apply refines_ret].
  destruct (Js.get node "value"); try apply refines_ret.
  apply refines_each. intros selector.
  destruct (toLowerCase selector =? selector).
  - apply store_selector_map_set.
  - intros h [st li] H. simpl. auto.
Qed.

Lemma store_on_template_element (node : Value) :
  refines (holds_enter selectors_ref identifiers_ref ids_ref CLASS_REGEX) (Runtime.on_template_element selectors_ref CLASS_REGEX node)
          (on_template_element node).
Proof.
  unfold Runtime.on_template_element, on_template_element.
  destruct (Js.is_str (Js.get node "type") "TemplateElement");
    [|apply refines_ret].
  apply (refines_lift (holds_enter selectors_ref identifiers_ref ids_ref CLASS_REGEX) _ _
           (fun value acc =>
              bind (Js.prop value "raw")
                   (fun raw => match raw with
                               | Str raw => Normal (register_text raw acc)
                               | _ => Normal acc
                               end))).
  intros value.
  apply (refines_lift (holds_enter selectors_ref identifiers_ref ids_ref CLASS_REGEX) _ _
           (fun raw acc => match raw with
                           | Str raw => Normal (register_text raw acc)
                           | _ => Normal acc
                           end)).
  intros raw. destruct raw; try apply refines_ret.
  apply store_register_text.
Qed.

Lemma store_enter_blocks (node parent : Value) :
  refines (holds_enter selectors_ref identifiers_ref ids_ref CLASS_REGEX)
          (Runtime.bindR (Runtime.on_identifier ids_ref node parent) (fun _ =>
           Runtime.bindR (Runtime.on_element selectors_ref node) (fun _ =>
           Runtime.bindR (Runtime.on_class_attribute selectors_ref identifiers_ref
                            CLASS_REGEX node) (fun _ =>
           Runtime.bindR (Runtime.on_attribute selectors_ref identifiers_ref
                            CLASS_REGEX node) (fun _ =>
           Runtime.bindR (Runtime.on_class_directive selectors_ref node) (fun _ =>
           Runtime.bindR (Runtime.on_global selectors_ref node) (fun _ =>
           Runtime.bindR (Runtime.on_literal selectors_ref node) (fun _ =>
           Runtime.on_template_element selectors_ref CLASS_REGEX node))))))))
          (enter_blocks node parent).
Proof.
  unfold enter_blocks.
  apply refines_seq; [apply store_on_identifier|].
  apply refines_seq; [apply store_on_element|].
  apply refines_seq; [apply store_on_class_attribute|].
  apply refines_seq; [apply store_on_attribute|].
  apply refines_seq; [apply store_on_class_directive|].
  apply refines_seq; [apply store_on_global|].
  apply refines_seq; [apply store_on_literal|].
  apply store_on_template_element.
Qed.

End EnterBlocks.

(** ** The walk and the resolution *)

Section WalkStore.

Variables selectors_ref identifiers_ref ids_ref : nat.

Lemma enter_blocks_spec (node parent : Value) (st : WalkState) :
  enter node parent st
  = bind (enter_blocks node parent (st, 0)) (fun acc => Normal (fst acc)).
Proof.
  unfold enter, enter_blocks, on_state. cbn [fst snd].
  destruct (on_identifier node parent st) as [st1|e]; cbn [bind fst snd];
    [|reflexivity].
  destruct (on_element node st1) as [st2|e]; cbn [bind fst snd]; [|reflexivity].
  destruct (on_class_attribute node (st2, 0)) as [a3|e]; cbn [bind fst snd];
    [|reflexivity].
  destruct (on_attribute node a3) as [a4|e]; cbn [bind fst snd]; [|reflexivity].
  destruct (on_class_directive node (fst a4)) as [st5|e]; cbn [bind fst snd];
    [|reflexivity].
  destruct (on_global node st5) as [st6|e]; cbn [bind fst snd]; [|reflexivity].
  destruct (on_literal node st6) as [st7|e]; cbn [bind fst snd]; reflexivity.
Qed.

Lemma store_enter (node parent : Value) :
  refines (holds_walk selectors_ref identifiers_ref ids_ref) (Runtime.enter selectors_ref identifiers_ref ids_ref node parent)
          (enter node parent).
Proof.
  intros h st (Hs & Hi & Hb). rewrite enter_blocks_spec. unfold Runtime.enter.
  rewrite (bindR_normal (Runtime.new_regexp true) _ h
             (length (Runtime.regexps h)) eq_refl).
  assert (H1 : holds_enter selectors_ref identifiers_ref ids_ref
                 (length (Runtime.regexps h))
                 (snd (Runtime.new_regexp true h)) (st, 0)).
  { repeat split; simpl; auto. apply nth_error_new. }
  pose proof (store_enter_blocks _ _ _ _ node parent _ _ H1) as P.
  destruct (enter_blocks node parent (st, 0)) as [[st' li']|e]; cbn [bind fst].
  - destruct P as [E [HW _]]. split; assumption.
  - exact P.
Qed.

Lemma store_walk (ast : Value) :
  refines (holds_walk selectors_ref identifiers_ref ids_ref)
          (Runtime.forEach (visits Null ast)
             (fun call =>
                Runtime.enter selectors_ref identifiers_ref ids_ref
                              (fst call) (snd call)))
          (fun st => foldM (fun st call => enter (fst call) (snd call) st)
                           (visits Null ast) st).
Proof.
  apply (refines_forEach (holds_walk selectors_ref identifiers_ref ids_ref) _ (fun st call => enter (fst call) (snd call) st)).
  intros call. apply store_enter.
Qed.

Lemma store_resolve_identifier (bindings : JsMap (list string)) (id : string) :
  refines (holds_resolve selectors_ref ids_ref bindings)
          (Runtime.resolve_identifier selectors_ref ids_ref id)
          (fun m => Normal (resolve_identifier bindings m id)).
Proof.
  intros h m [Hs Hb].
  unfold Runtime.resolve_identifier, resolve_identifier.
  assert (E : Runtime.binding_map_get ids_ref id h = (Normal (map_get bindings id), h)).
  { unfold Runtime.binding_map_get. rewrite Hb. reflexivity. }
  unfold Runtime.bindR at 1 2. rewrite E.
  destruct (map_get bindings id) as [value|].
  - apply (refines_each (holds_resolve selectors_ref ids_ref bindings) _
             (fun sels v => map_set sels v (tagged "FromIdentifier")) value);
      [|split; assumption].
    clear. intros v h m [Hs Hb]. unfold Runtime.selector_map_set.
    rewrite Hs. simpl. split; [reflexivity|]. split; simpl; auto.
    eapply update_hit; eauto.
  - simpl. split; [reflexivity|]. split; assumption.
Qed.

End WalkStore.

(** ** The four extractors *)

Section ExtractorsStore.

Lemma bindR_result {A B} (m : Runtime.Run A) (k : A -> Runtime.Run B)
      (h h' : Runtime.Store) (a : A) :
  m h = (Normal a, h') -> Runtime.bindR m k h = k a h'.
Proof. unfold Runtime.bindR. intros ->. reflexivity. Qed.

Lemma bindR_unit {A} (m : Runtime.Run unit) (k : Runtime.Run A)
      (h : Runtime.Store) :
  fst (m h) = Normal tt -> Runtime.bindR m (fun _ => k) h = k (snd (m h)).
Proof. apply bindR_normal. Qed.

(** [extractSelectorsFromSvelte] ends as the first model says, whatever the
    store holds when it is called. *)
Lemma store_extractSelectorsFromSvelte
      (CLASS_SELECTOR : list string)
      (parse : string -> option string -> Completion Value)
      (template : string) (filename : option string) (h : Runtime.Store) :
  fst (Runtime.extractSelectorsFromSvelte CLASS_SELECTOR parse template filename h)
  = extractSelectorsFromSvelte CLASS_SELECTOR parse template filename.
Proof.
  unfold Runtime.extractSelectorsFromSvelte, extractSelectorsFromSvelte.
  destruct (parse template filename) as [ast|e]; [|reflexivity].
  cbn [bind].
  rewrite (bindR_result (Runtime.lift (Normal ast)) _ h h ast eq_refl).
  rewrite (bindR_result Runtime.new_selector_map _ h _ _ eq_refl).
  rewrite (bindR_result Runtime.new_set _ _ _ _ eq_refl).
  rewrite (bindR_result Runtime.new_binding_map _ _ _ _ eq_refl).
  cbn [Runtime.sets Runtime.binding_maps Runtime.selector_maps Runtime.regexps].
  match goal with
  | |- fst (Runtime.bindR _ _ ?h3) = _ =>
      assert (W : holds_walk (length (Runtime.selector_maps h))
                             (length (Runtime.sets h))
                             (length (Runtime.binding_maps h)) h3 empty_state)
  end.
  { repeat split; simpl; apply nth_error_new. }
  pose proof (store_walk _ _ _ ast _ _ W) as P. cbv beta in P.
  unfold walk.
  destruct (foldM (fun st call => enter (fst call) (snd call) st)
                  (visits Null ast) empty_state) as [st|e]; cbn [bind].
  - destruct P as [E (Hs & Hi & Hb)].
    rewrite (bindR_unit _ _ _ E).
    rewrite (bindR_result (Runtime.set_values _) _ _ _ (identifiers st)
               ltac:(unfold Runtime.set_values; rewrite Hi; reflexivity)).
    pose proof (refines_each
                  (holds_resolve (length (Runtime.selector_maps h))
                                 (length (Runtime.binding_maps h)) (ids st))
                  _ _ (identifiers st)
                  (store_resolve_identifier _ _ (ids st))
                  _ _ (conj Hs Hb)) as [E2 [Hs2 _]].
    rewrite (bindR_unit _ _ _ E2).
    unfold Runtime.bindR, Runtime.selector_map_entries. rewrite Hs2.
    reflexivity.
  - apply bindR_throw. exact P.
Qed.

(** The token-shape filter leaves the collections as they are. *)
Lemma filter_test_result (selector : string) (h : Runtime.Store) :
  fst (Runtime.filter_test selector h) = Normal (shape_test selector)
  /\ Runtime.sets (snd (Runtime.filter_test selector h)) = Runtime.sets h.
Proof.
  unfold Runtime.filter_test.
  rewrite (bindR_result (Runtime.new_regexp false) _ h _ _ eq_refl).
  unfold Runtime.regexp_test. cbn [Runtime.regexps].
  rewrite (nth_error_new (Runtime.regexps h) (false, 0)). unfold shape_test.
  destruct (test false 0 selector) as [found li]. simpl. auto.
Qed.

Lemma store_add_member (a : nat) (x : string) :
  refines (holds_set a) (Runtime.set_add a x) (fun s => Normal (set_add s x)).
Proof.
  intros h s H. unfold holds_set in *. unfold Runtime.set_add. rewrite H. simpl.
  split; [reflexivity|]. eapply update_hit; eauto.
Qed.

Lemma store_add_filtered (a : nat) (x : string) :
  refines (holds_set a)
          (Runtime.bindR (Runtime.filter_test x)
             (fun found => if found then Runtime.set_add a x else Runtime.ret tt))
          (fun s => Normal (if shape_test x then set_add s x else s)).
Proof.
  intros h s H. destruct (filter_test_result x h) as [E F].
  rewrite (bindR_normal _ _ _ _ E).
  assert (H' : holds_set a (snd (Runtime.filter_test x h)) s).
  { unfold holds_set in *. rewrite F. exact H. }
  destruct (shape_test x).
  - exact (store_add_member a x _ _ H').
  - simpl. auto.
Qed.

(** [extractSelectorsFromJS] *)

Lemma store_onToken (a : nat) (token : Token) :
  refines (holds_set a) (Runtime.onToken a token) (fun s => onToken s token).
Proof.
  unfold Runtime.onToken, onToken.
  destruct (type_label token =? "string"); [|apply refines_ret].
  apply (refines_lift (holds_set a) _ _
           (fun value s =>
              Normal (fold_left
                        (fun acc selector =>
                           if shape_test selector then set_add acc selector else acc)
                        (split " " value) s))).
  intros value. cbv zeta. apply refines_each. intros x. apply store_add_filtered.
Qed.

Lemma store_extractSelectorsFromJS
      (parse_js : string -> Completion (list Token))
      (code : string) (h : Runtime.Store) :
  fst (Runtime.extractSelectorsFromJS parse_js code h)
  = extractSelectorsFromJS parse_js code.
Proof.
  unfold Runtime.extractSelectorsFromJS, extractSelectorsFromJS.
  rewrite (bindR_result Runtime.new_set _ h _ _ eq_refl).
  destruct (parse_js code) as [tokens|e]; [|reflexivity].
  cbn [bind].
  rewrite (bindR_result (Runtime.lift (Normal tokens)) _ _ _ tokens eq_refl).
  match goal with
  | |- fst (Runtime.bindR _ _ ?h1) = _ =>
      assert (H : holds_set (length (Runtime.sets h)) h1 [])
  end.
  { unfold holds_set. simpl. apply nth_error_new. }
  pose proof (refines_forEach (holds_set (length (Runtime.sets h))) _ _ tokens
                (store_onToken _) _ _ H) as P.
  destruct (foldM onToken tokens []) as [selectors|e]; cbn [bind].
  - destruct P as [E Hs]. rewrite (bindR_unit _ _ _ E).
    unfold Runtime.bindR, Runtime.set_values. unfold holds_set in Hs.
    rewrite Hs. reflexivity.
  - apply bindR_throw. exact P.
Qed.

(** [extractSelectorsWithRegex] *)

Lemma regexp_match_result (re : nat) (s : string) (h : Runtime.Store)
      (global : bool) (lastIndex : nat) :
  nth_error (Runtime.regexps h) re = Some (global, lastIndex) ->
  fst (Runtime.regexp_match re s h) = Normal (match_all s)
  /\ Runtime.sets (snd (Runtime.regexp_match re s h)) = Runtime.sets h.
Proof.
  intros H. unfold Runtime.regexp_match. rewrite H. simpl. auto.
Qed.

Lemma store_extractSelectorsWithRegex (code : string) (h : Runtime.Store) :
  fst (Runtime.extractSelectorsWithRegex code h)
  = Normal (extractSelectorsWithRegex code).
Proof.
  unfold Runtime.extractSelectorsWithRegex, extractSelectorsWithRegex.
  rewrite (bindR_result Runtime.new_set _ h _ _ eq_refl).
  rewrite (bindR_result (Runtime.new_regexp true) _ _ _ _ eq_refl).
  cbn [Runtime.regexps].
  match goal with
  | |- fst (Runtime.bindR (Runtime.regexp_match ?re code) _ ?h1) = _ =>
      destruct (regexp_match_result re code h1 true 0) as [M F];
      [simpl; apply nth_error_new|]
  end.
  rewrite (bindR_normal _ _ _ _ M).
  match goal with
  | |- fst (Runtime.bindR _ _ ?h1) = _ =>
      assert (H : holds_set (length (Runtime.sets h)) h1 [])
  end.
  { unfold holds_set. rewrite F. simpl. apply nth_error_new. }
  pose proof (refines_each (holds_set (length (Runtime.sets h))) _ set_add
                (match_all code) (store_add_member _) _ _ H) as [E Hs].
  rewrite (bindR_unit _ _ _ E).
  unfold Runtime.bindR, Runtime.set_values. unfold holds_set in Hs.
  rewrite Hs. reflexivity.
Qed.

End ExtractorsStore.

(** [extractSelectorsFromHtml] *)

Section MarkupStore.

Variable ATTRIBUTES : list string.
Variables selectors_ref ids_ref : nat.
Hypothesis distinct : selectors_ref <> ids_ref.

Lemma store_html_add_selector (x : string) :
  refines (holds_html selectors_ref ids_ref) (Runtime.set_add selectors_ref x)
          (fun st => Normal {| html_selectors := set_add (html_selectors st) x;
                               html_ids := html_ids st |}).
Proof.
  intros h st [Hs Hi]. unfold holds_set in *. unfold Runtime.set_add.
  rewrite Hs. simpl. split; [reflexivity|]. split; unfold holds_set; simpl.
  - eapply update_hit; eauto.
  - rewrite update_miss; auto.
Qed.

Lemma store_html_add_id (x : string) :
  refines (holds_html selectors_ref ids_ref) (Runtime.set_add ids_ref x)
          (fun st => Normal {| html_selectors := html_selectors st;
                               html_ids := set_add (html_ids st) x |}).
Proof.
  intros h st [Hs Hi]. unfold holds_set in *. unfold Runtime.set_add.
  rewrite Hi. simpl. split; [reflexivity|]. split; unfold holds_set; simpl.
  - rewrite update_miss; auto.
  - eapply update_hit; eauto.
Qed.

Lemma store_html_add_filtered (x : string) :
  refines (holds_html selectors_ref ids_ref)
          (Runtime.bindR (Runtime.filter_test x)
             (fun found =>
                if found then Runtime.set_add selectors_ref x else Runtime.ret tt))
          (fun st =>
             Normal {| html_selectors :=
                         if shape_test x then set_add (html_selectors st) x
                         else html_selectors st;
                       html_ids := html_ids st |}).
Proof.
  intros h st [Hs Hi]. destruct (filter_test_result x h) as [E F].
  rewrite (bindR_normal _ _ _ _ E).
  assert (H' : holds_html selectors_ref ids_ref (snd (Runtime.filter_test x h)) st).
  { unfold holds_html, holds_set in *. rewrite F. split; assumption. }
  destruct (shape_test x).
  - exact (store_html_add_selector x _ _ H').
  - simpl. split; [reflexivity|]. exact H'.
Qed.

Lemma fold_html_selectors (g : JsSet -> string -> JsSet) (l : list string)
      (st : HtmlState) :
  fold_left (fun st x => {| html_selectors := g (html_selectors st) x;
                            html_ids := html_ids st |}) l st
  = {| html_selectors := fold_left g l (html_selectors st);
       html_ids := html_ids st |}.
Proof.
  revert st; induction l as [|x l IH]; intros [s i]; simpl; [reflexivity|].
  rewrite IH. reflexivity.
Qed.

Lemma store_onattribute (ev : AttributeEvent) :
  refines (holds_html selectors_ref ids_ref) (Runtime.onattribute ATTRIBUTES selectors_ref ids_ref ev)
          (fun st => Normal (onattribute ATTRIBUTES st ev)).
Proof.
  unfold Runtime.onattribute, onattribute. cbv zeta.
  destruct (attr_name ev =? "class").
  { apply (refines_ext (holds_html selectors_ref ids_ref) _
             (fun st =>
                Normal (fold_left
                          (fun st x =>
                             {| html_selectors := set_add (html_selectors st) x;
                                html_ids := html_ids st |})
                          (split " " (attr_value ev)) st))).
    - intros st. rewrite (fold_html_selectors set_add). reflexivity.
    - apply refines_each. exact store_html_add_selector. }
  destruct (attr_name ev =? "id"); [apply store_html_add_id|].
  destruct (includes ATTRIBUTES (attr_name ev)).
  { intros h [s i] Hst. simpl. auto. }
  apply (refines_ext (holds_html selectors_ref ids_ref) _
           (fun st =>
              bind (Normal
                      (fold_left
                         (fun st x =>
                            {| html_selectors :=
                                 (fun acc selector =>
                                    if shape_test selector
                                    then set_add acc selector else acc)
                                   (html_selectors st) x;
                               html_ids := html_ids st |})
                         (split " " (attr_value ev)) st))
                   (fun st =>
                      Normal {| html_selectors :=
                                  if shape_test (attr_name ev)
                                  then set_add (html_selectors st) (attr_name ev)
                                  else html_selectors st;
                                html_ids := html_ids st |}))).
  { intros st. cbn [bind].
    rewrite (fold_html_selectors
               (fun acc selector =>
                  if shape_test selector then set_add acc selector else acc)).
    reflexivity. }
  apply refines_seq.
  - apply refines_each. exact store_html_add_filtered.
  - apply store_html_add_filtered.
Qed.

End MarkupStore.

Section FamilyStore.

Lemma store_extractSelectorsFromHtml
      (ATTRIBUTES : list string) (Parser : string -> list AttributeEvent)
      (code : string) (h : Runtime.Store) :
  fst (Runtime.extractSelectorsFromHtml ATTRIBUTES Parser code h)
  = Normal (extractSelectorsFromHtml ATTRIBUTES Parser code).
Proof.
  unfold Runtime.extractSelectorsFromHtml, extractSelectorsFromHtml.
  rewrite (bindR_result Runtime.new_set _ h _ _ eq_refl).
  rewrite (bindR_result Runtime.new_set _ _ _ _ eq_refl).
  cbn [Runtime.sets].
  match goal with
  | |- fst (Runtime.bindR _ _ ?h1) = _ =>
      assert (Hst : holds_html (length (Runtime.sets h))
                               (length (Runtime.sets h ++ [[]])) h1
                               {| html_selectors := []; html_ids := [] |})
  end.
  { split; unfold holds_set; simpl.
    - apply nth_error_old. apply nth_error_new.
    - apply nth_error_new. }
  assert (D : length (Runtime.sets h) <> length (Runtime.sets h ++ [[]])).
  { rewrite List.length_app. simpl. lia. }
  pose proof (refines_each _ _ _ (Parser code)
                (store_onattribute ATTRIBUTES _ _ D) _ _ Hst) as [E [Hs Hi]].
  rewrite (bindR_unit _ _ _ E).
  unfold holds_set in Hs, Hi.
  unfold Runtime.bindR, Runtime.set_values. rewrite Hi, Hs. reflexivity.
Qed.

(** A call of an extractor ends as the first model says, whatever the store
    holds when it is called. *)
Lemma store_invoke
      (ATTRIBUTES CLASS_SELECTOR : list string)
      (Parser : string -> list AttributeEvent)
      (parse_js : string -> Completion (list Token))
      (parse : string -> option string -> Completion Value)
      (e : Extractor) (code : string) (filename : option string)
      (h : Runtime.Store) :
  fst (Runtime.invoke ATTRIBUTES CLASS_SELECTOR Parser parse_js parse
                      e code filename h)
  = invoke ATTRIBUTES CLASS_SELECTOR Parser parse_js parse e code filename.
Proof.
  destruct e; simpl.
  - apply store_extractSelectorsFromHtml.
  - apply store_extractSelectorsFromJS.
  - apply store_extractSelectorsWithRegex.
  - apply store_extractSelectorsFromSvelte.
Qed.

(** C8: two calls of an extractor on the same input, the second in the
    store of objects the first leaves behind, give the same outcome: the
    same selectors in the same order, or the same error.  Every call creates
    its sets, maps and regular expressions anew, so nothing the first call
    wrote (members, entries, [lastIndex]) is read by the second. *)
Theorem second_call_same_outcome
        (ATTRIBUTES CLASS_SELECTOR : list string)
        (Parser : string -> list AttributeEvent)
        (parse_js : string -> Completion (list Token))
        (parse : string -> option string -> Completion Value)
        (e : Extractor) (code : string) (filename : option string)
        (h : Runtime.Store) :
  let (first, second) :=
    Runtime.invoke_twice ATTRIBUTES CLASS_SELECTOR Parser parse_js parse
                         e code filename h in
  first = second.
Proof.
  unfold Runtime.invoke_twice.
  pose proof (store_invoke ATTRIBUTES CLASS_SELECTOR Parser parse_js parse
                e code filename h) as E1.
  destruct (Runtime.invoke ATTRIBUTES CLASS_SELECTOR Parser parse_js parse
              e code filename h) as [first h1].
  pose proof (store_invoke ATTRIBUTES CLASS_SELECTOR Parser parse_js parse
                e code filename h1) as E2.
  destruct (Runtime.invoke ATTRIBUTES CLASS_SELECTOR Parser parse_js parse
              e code filename h1) as [second h2].
  simpl in *. congruence.
Qed.

End FamilyStore.
